(** * Content API of the site ([lib/api.ts]): a shallow embedding

    The module reads Markdown pages with front matter, normalizes the
    sitemap into a menu tree, collects the routable paths and links a page
    to its neighbours.  The Node [path] module, the file system, the
    front-matter parser, [Date.parse], the glob, the Markdown renderer and
    the sort of the engine are collaborators of the module: they are
    fields of a [Platform] and a [World] over which every function below
    is parameterized. *)

From Stdlib Require Import String Ascii List Bool Arith ZArith Lia.
From Stdlib Require Import Permutation Sorted DecimalString.
Import ListNotations.

Open Scope string_scope.
Open Scope list_scope.

Infix "+:+" := String.append (at level 60, right associativity).

(** ** JavaScript strings *)

Module JsString.

(** [s.startsWith(p)] *)
Fixpoint startsWith (s p : string) {struct p} : bool :=
  match p, s with
  | EmptyString, _ => true
  | String _ _, EmptyString => false
  | String a p', String b s' => Ascii.eqb a b && startsWith s' p'
  end.

(** [s.substring(n)] *)
Fixpoint substringFrom (n : nat) (s : string) : string :=
  match n, s with
  | O, _ => s
  | S _, EmptyString => EmptyString
  | S n', String _ s' => substringFrom n' s'
  end.

(** [s.includes(p)] *)
Fixpoint includes (s p : string) : bool :=
  startsWith s p ||
  match s with
  | EmptyString => false
  | String _ s' => includes s' p
  end.

(** [s.split(c)] for a one-character separator; never empty. *)
Fixpoint split (c : ascii) (s : string) : list string :=
  match s with
  | EmptyString => [EmptyString]
  | String a s' =>
      if Ascii.eqb a c then EmptyString :: split c s'
      else match split c s' with
           | [] => [String a EmptyString]
           | w :: ws => String a w :: ws
           end
  end.

(** [l.join(sep)] *)
Definition join (sep : string) (l : list string) : string := String.concat sep l.

Definition backslash : ascii := Ascii.ascii_of_nat 92.
Definition slash : ascii := "/"%char.

(** [s.replace(/\\/g, "/")] *)
Fixpoint toForwardSlashes (s : string) : string :=
  match s with
  | EmptyString => EmptyString
  | String a s' =>
      String (if Ascii.eqb a backslash then slash else a) (toForwardSlashes s')
  end.

(** [s.replace(p, "")] with a string pattern: the first occurrence only. *)
Fixpoint removeFirst (p s : string) : string :=
  if startsWith s p then substringFrom (String.length p) s
  else match s with
       | EmptyString => EmptyString
       | String a s' => String a (removeFirst p s')
       end.

(** [s.replace(/\.md$/, "")] *)
Fixpoint stripMdSuffix (s : string) : string :=
  if String.eqb s ".md" then EmptyString
  else match s with
       | EmptyString => EmptyString
       | String a s' => String a (stripMdSuffix s')
       end.

(** No occurrence of the character [c]. *)
Fixpoint lacks (c : ascii) (s : string) : bool :=
  match s with
  | EmptyString => true
  | String a s' => negb (Ascii.eqb a c) && lacks c s'
  end.

End JsString.
Import JsString.

(** ** JavaScript values and exceptions *)

(** A property that holds a string or is [undefined] / [null]. *)
Definition jsval := option string.

Definition truthy (v : jsval) : bool :=
  match v with
  | Some s => negb (String.eqb s "")
  | None => false
  end.

(** [a || b] *)
Definition js_or (a b : jsval) : jsval := if truthy a then a else b.

Inductive JsError : Type :=
| Error (message : string)
| TypeError (message : string).

Inductive result (A : Type) : Type :=
| Ok (a : A)
| Throw (e : JsError).
Arguments Ok {A} a.
Arguments Throw {A} e.

Definition bind {A B : Type} (m : result A) (k : A -> result B) : result B :=
  match m with
  | Ok a => k a
  | Throw e => Throw e
  end.

Notation "x <- m ;; k" := (bind m (fun x => k))
  (at level 61, m at next level, right associativity).
Notation "' p <- m ;; k" := (bind m (fun x => let p := x in k))
  (at level 61, p pattern, m at next level, right associativity).

(** [xs.map(f)] where [f] may throw: the first exception aborts the map. *)
Fixpoint mapM {A B : Type} (f : A -> result B) (l : list A) : result (list B) :=
  match l with
  | [] => Ok []
  | x :: xs => y <- f x ;; ys <- mapM f xs ;; Ok (y :: ys)
  end.

(** ** Data model *)

(** Front matter ([res.data]): the fields of the YAML header. *)
Definition FrontMatter := list (string * string).

Fixpoint field (name : string) (d : FrontMatter) : jsval :=
  match d with
  | [] => None
  | (k, v) :: d' => if String.eqb k name then Some v else field name d'
  end.

Module Link.
Record t := mk { title : jsval; href : string }.
End Link.

(** The record returned by [loadPage], with the [prev] and [next] that
    [setPrevNext] adds later; [body] is [None] once deleted. *)
Module Page.
Record t := mk {
  key : string;
  href : string;
  title : jsval;
  menuTitle : jsval;
  mdPath : string;
  data : FrontMatter;
  body : jsval;
  description : jsval;
  prev : option Link.t;
  next : option Link.t
}.
End Page.

(** The sitemap: an object from keys to nodes, in [Object.entries] order. *)
Inductive Node : Type :=
| MkNode (href : jsval) (title : jsval) (nested : option Nested)
with Nested : Type :=
| NList (children : list string)
| NMap (level : list (string * Node)).

Definition Sitemap := list (string * Node).

Definition node_href (v : Node) : jsval := let 'MkNode h _ _ := v in h.
Definition node_title (v : Node) : jsval := let 'MkNode _ t _ := v in t.
Definition node_nested (v : Node) : option Nested := let 'MkNode _ _ n := v in n.

(** The object literal [{}]. *)
Definition emptyNode : Node := MkNode None None None.

(** The own property [k] of [menu]. *)
Fixpoint lookup (k : string) (menu : Sitemap) : option Node :=
  match menu with
  | [] => None
  | (k', v) :: rest => if String.eqb k' k then Some v else lookup k rest
  end.

(** The names that an object inherits from [Object.prototype]. *)
Definition inherited (k : string) : bool :=
  existsb (String.eqb k)
    [ "constructor"; "__proto__"; "hasOwnProperty"; "isPrototypeOf";
      "propertyIsEnumerable"; "toString"; "toLocaleString"; "valueOf";
      "__defineGetter__"; "__defineSetter__"; "__lookupGetter__"; "__lookupSetter__" ].

(** [menu[k]] for any string [k]: the own property, otherwise the member
    of [Object.prototype] of that name, which is a function or the
    prototype itself and has neither [href], [title] nor [nested],
    otherwise [undefined]. *)
Definition member (k : string) (menu : Sitemap) : option Node :=
  match lookup k menu with
  | Some v => Some v
  | None => if inherited k then Some emptyNode else None
  end.

(** The page summary of a menu entry: what [loadMenuPage] keeps of a page,
    or the stub [{ key, ...menu[l1] }] of an external link, which has no
    [data] and carries the node's own [nested] along. *)
Module MenuPage.
Record t := mk {
  key : string;
  href : string;
  title : jsval;
  menuTitle : jsval;
  data : option FrontMatter;
  nested : option Nested
}.
End MenuPage.

(** A menu entry; the root entry of [getProps] has [key] and [title] and no
    [page], the entries of [normalize] have a [page] only. *)
#[local] Unset Elimination Schemes.
Inductive MenuEntry : Type :=
| MkEntry (key title : jsval) (page : option MenuPage.t)
          (nested : option (list MenuEntry)).
#[local] Set Elimination Schemes.

Definition entry_page (e : MenuEntry) : option MenuPage.t :=
  let 'MkEntry _ _ p _ := e in p.
Definition entry_nested (e : MenuEntry) : option (list MenuEntry) :=
  let 'MkEntry _ _ _ n := e in n.

(** What [getMenuPaths] returns: [{ paths: [{ params: { slug } }], fallback }]. *)
Record StaticPath := { params_slug : list string }.
Record StaticPaths := { paths : list StaticPath; fallback : bool }.

(** A page of a collection with its parsed date: [{ date, ...page }]. *)
Record DatedPage := { date : option Z; page : Page.t }.

Record AppProps := { blog : DatedPage }.

(** What [getProps] returns: [{ props: { page, menu, app } }]. *)
Module Props.
Record t := mk {
  page : option Page.t;
  menu : option (list MenuEntry);
  app : option AppProps
}.
Record wrapped := wrap { props : t }.
End Props.

(** The requested slug: a string or an array of segments. *)
Inductive Slug : Type :=
| SlugString (s : string)
| SlugArray (segments : list string).

(** ** The collaborators *)

(** Node's [path] module and [process.cwd()]. *)
Record Platform := {
  sep : ascii;
  cwd : string;
  path_isAbsolute : string -> bool;
  path_normalize : string -> string;
  path_join : list string -> string;
  path_relative : string -> string -> string
}.

(** The file system, gray-matter, [Date.parse] ([None] is [NaN]), the glob,
    the Markdown renderer of [./markdown] and the engine's
    [Array.prototype.sort], which rearranges the elements whatever the
    comparator answers. *)
Record World := {
  existsSync : string -> bool;
  readFileSync : string -> result string;
  matter : string -> result (FrontMatter * string);
  Date_parse : jsval -> option Z;
  globSync : string -> list string;
  toHTML : jsval -> result string;
  arraySort : forall A : Type, (A -> A -> option Z) -> list A -> list A;
  arraySort_perm :
    forall (A : Type) (compare : A -> A -> option Z) (l : list A),
      Permutation l (arraySort A compare l)
}.

(** ** The functions of [lib/api.ts] *)

Section Api.

Variable P : Platform.
Variable W : World.

(** [path.sep] as a string. *)
Definition sepS : string := String (sep P) EmptyString.

(** [const contentDir = path.join(process.cwd(), "content").replace(/\\/g, "/")] *)
Definition contentDir : string :=
  toForwardSlashes (path_join P [cwd P; "content"]).

Definition normalizedContentDir : string := path_normalize P contentDir.

(** The first part of [loadPage]: the path made relative to the content
    root, with a leading [./] stripped. *)
Definition relativePathOf (pathArgument : string) : string :=
  let relativePath :=
    if path_isAbsolute P pathArgument then
      let pathFromCwd := path_relative P (cwd P) pathArgument in
      if startsWith pathFromCwd (sepS +:+ "content" +:+ sepS)
         || startsWith pathFromCwd ("content" +:+ sepS)
      then substringFrom (String.length "content" + 1) pathFromCwd
      else pathArgument
    else if includes pathArgument normalizedContentDir
            || includes pathArgument contentDir then
      let prefixToRemove :=
        if negb (startsWith pathArgument normalizedContentDir)
        then contentDir else normalizedContentDir in
      if startsWith pathArgument prefixToRemove then
        let relativePath :=
          substringFrom (String.length prefixToRemove) pathArgument in
        if startsWith relativePath sepS || startsWith relativePath "/"
        then substringFrom 1 relativePath
        else relativePath
      else pathArgument
    else pathArgument in
  let relativePath :=
    if startsWith relativePath ("./" +:+ sepS)
    then substringFrom 2 relativePath else relativePath in
  if startsWith relativePath "./"
  then substringFrom 2 relativePath else relativePath.

Definition fullPathMdFile (relativePath : string) : string :=
  path_join P [path_join P [normalizedContentDir; relativePath] +:+ ".md"].

Definition fullPathIndexMdFile (relativePath : string) : string :=
  path_join P [path_join P [normalizedContentDir; relativePath]; "index.md"].

Definition notFoundMessage (relativePath : string) : string :=
  "ENOENT: no such file or directory, tried '"
    +:+ fullPathMdFile relativePath +:+ "' and '"
    +:+ fullPathIndexMdFile relativePath +:+ "'".

Definition loadPage (pathArgument : string) : result Page.t :=
  let relativePath := relativePathOf pathArgument in
  let parts := split (sep P) relativePath in
  '(mdPath, fileContents) <-
    (if existsSync W (fullPathMdFile relativePath) then
       fileContents <- readFileSync W (fullPathMdFile relativePath) ;;
       Ok (relativePath +:+ ".md", fileContents)
     else if existsSync W (fullPathIndexMdFile relativePath) then
       fileContents <- readFileSync W (fullPathIndexMdFile relativePath) ;;
       Ok (path_join P [relativePath; "index.md"], fileContents)
     else Throw (Error (notFoundMessage relativePath))) ;;
  '(data, content) <- matter W fileContents ;;
  Ok {| Page.key := last parts "";
        Page.href := "/" +:+ toForwardSlashes relativePath;
        Page.title := field "title" data;
        Page.menuTitle := js_or (field "menu" data) (field "title" data);
        Page.mdPath := toForwardSlashes mdPath;
        Page.data := data;
        Page.body := Some content;
        Page.description := js_or (field "description" data) None;
        Page.prev := None;
        Page.next := None |}.

Definition loadMenuPage (path : string) : result MenuPage.t :=
  page <- loadPage path ;;
  Ok {| MenuPage.key := Page.key page;
        MenuPage.href := Page.href page;
        MenuPage.title := Page.menuTitle page;
        MenuPage.menuTitle := None;
        MenuPage.data := Some (Page.data page);
        MenuPage.nested := None |}.

(** *** Prev/next linking *)

(** [prevSection.page]: the fourth argument of [eachPage] is always a page
    summary (or [undefined]), and a page summary has no [page] property. *)
Definition page_property (prevSection : MenuPage.t) : option MenuPage.t := None.

(** [prev || (prevSection && prevSection.page)] *)
Definition cursor (prev prevSection : option MenuPage.t) : option MenuPage.t :=
  match prev with
  | Some p => Some p
  | None =>
      match prevSection with
      | Some ps => page_property ps
      | None => None
      end
  end.

Section EachPage.

(** The callback [f] acts on a state of type [S]. *)
Context {S : Type}.
Variable f : MenuPage.t -> option MenuPage.t -> S -> S.

(** One turn of the loop of [eachPage]: the new value of the local
    [prev] and the state after the callback and the nested traversal.
    The nested call receives [entry.page] as its [prev] and the local
    [prev] as its [prevSection]; its own cursor is not handed back. *)
Fixpoint eachPage_entry (entry : MenuEntry) (prev prevSection : option MenuPage.t)
         (s : S) : option MenuPage.t * S :=
  let 'MkEntry _ _ page nested := entry in
  let '(prev, s) :=
    match page with
    | Some p =>
        match MenuPage.data p with
        | Some _ => (Some p, f p (cursor prev prevSection) s)
        | None => (prev, s)
        end
    | None => (prev, s)
    end in
  match nested with
  | Some menu =>
      (prev,
       (fix loop (menu : list MenuEntry) (prev0 : option MenuPage.t) (s0 : S) : S :=
          match menu with
          | [] => s0
          | e :: rest =>
              let '(prev1, s1) := eachPage_entry e prev0 prev s0 in
              loop rest prev1 s1
          end) menu page s)
  | None => (prev, s)
  end.

Fixpoint eachPage (menu : list MenuEntry) (prev prevSection : option MenuPage.t)
         (s : S) : S :=
  match menu with
  | [] => s
  | entry :: rest =>
      let '(prev1, s1) := eachPage_entry entry prev prevSection s in
      eachPage rest prev1 prevSection s1
  end.

End EachPage.

(** [{ title: p.menuTitle || p.title, href: p.href }] *)
Definition linkTo (p : MenuPage.t) : Link.t :=
  {| Link.title := js_or (MenuPage.menuTitle p) (MenuPage.title p);
     Link.href := MenuPage.href p |}.

Definition set_prev (page : Page.t) (l : Link.t) : Page.t :=
  {| Page.key := Page.key page; Page.href := Page.href page;
     Page.title := Page.title page; Page.menuTitle := Page.menuTitle page;
     Page.mdPath := Page.mdPath page; Page.data := Page.data page;
     Page.body := Page.body page; Page.description := Page.description page;
     Page.prev := Some l; Page.next := Page.next page |}.

Definition set_next (page : Page.t) (l : Link.t) : Page.t :=
  {| Page.key := Page.key page; Page.href := Page.href page;
     Page.title := Page.title page; Page.menuTitle := Page.menuTitle page;
     Page.mdPath := Page.mdPath page; Page.data := Page.data page;
     Page.body := Page.body page; Page.description := Page.description page;
     Page.prev := Page.prev page; Page.next := Some l |}.

Definition set_body (page : Page.t) (b : jsval) : Page.t :=
  {| Page.key := Page.key page; Page.href := Page.href page;
     Page.title := Page.title page; Page.menuTitle := Page.menuTitle page;
     Page.mdPath := Page.mdPath page; Page.data := Page.data page;
     Page.body := b; Page.description := Page.description page;
     Page.prev := Page.prev page; Page.next := Page.next page |}.

(** The callback of [setPrevNext]; its state is the flag [didMatch] and
    the page being linked. *)
Definition visit (p : MenuPage.t) (prev : option MenuPage.t)
           (st : bool * Page.t) : bool * Page.t :=
  let '(didMatch, page) := st in
  if String.eqb (MenuPage.href p) (Page.href page) then
    (true,
     match prev with
     | Some q => if truthy (MenuPage.title q) then set_prev page (linkTo q) else page
     | None => page
     end)
  else if didMatch then (false, set_next page (linkTo p))
  else (didMatch, page).

Definition setPrevNext (page : Page.t) (menu : list MenuEntry) : Page.t :=
  snd (eachPage visit menu None None (false, page)).

(** *** Path collection *)

(** [let child = {}; child[p] = {}]: the assignment to ["__proto__"] sets
    the prototype of [child] and adds no property; any other name becomes
    the only entry of [child]. *)
Definition childObject (p : string) : Sitemap :=
  if String.eqb p "__proto__" then [] else [(p, emptyNode)].

(** The body of the loop of [collectPaths] for the entry [k, v].  For a
    child [p] of a list the source calls [collectPaths(child, ...)] on the
    object [childObject p]; its entry, when it has one, has neither [href]
    nor [nested], and the call gives what is written here (see
    [collectPaths_child]). *)
Fixpoint collectPaths_entry (k : string) (v : Node) (prefix : string) : list string :=
  let 'MkNode href _ nested := v in
  (if negb (truthy href) then [prefix +:+ "/" +:+ k] else [])
  ++
  match nested with
  | Some (NList ps) =>
      flat_map (fun p => if String.eqb p "__proto__" then []
                         else [(prefix +:+ "/" +:+ k) +:+ "/" +:+ p]) ps
  | Some (NMap level) =>
      (fix loop (level : list (string * Node)) : list string :=
         match level with
         | [] => []
         | (k', v') :: rest =>
             collectPaths_entry k' v' (prefix +:+ "/" +:+ k) ++ loop rest
         end) level
  | None => []
  end.

Fixpoint collectPaths (level : Sitemap) (prefix : string) : list string :=
  match level with
  | [] => []
  | (k, v) :: rest => collectPaths_entry k v prefix ++ collectPaths rest prefix
  end.

(** [[, ...slug] = slug.split("/")] *)
Definition getMenuPaths (menu : Sitemap) : StaticPaths :=
  {| paths := map (fun slug => {| params_slug := tl (split "/" slug) |})
                  (collectPaths menu "");
     fallback := false |}.

(** *** Menu normalization *)

Definition notIterable : JsError := TypeError "menu[l1].nested is not iterable".

(** The body of the loop of [normalize] for the key [l1] and [menu[l1]]. *)
Definition normalize_entry (root : string) (entry : string * Node) : result MenuEntry :=
  let '(l1, v) := entry in
  if truthy (node_href v) then
    Ok (MkEntry None None
          (Some {| MenuPage.key := l1;
                   MenuPage.href := match node_href v with
                                    | Some h => h
                                    | None => ""
                                    end;
                   MenuPage.title := node_title v;
                   MenuPage.menuTitle := None;
                   MenuPage.data := None;
                   MenuPage.nested := node_nested v |})
          None)
  else
    match node_nested v with
    | None =>
        page <- loadMenuPage (root +:+ "/" +:+ l1) ;;
        Ok (MkEntry None None (Some page) None)
    | Some (NList children) =>
        submenu <- mapM (fun l2 =>
                           page <- loadMenuPage (root +:+ "/" +:+ l1 +:+ "/" +:+ l2) ;;
                           Ok (MkEntry None None (Some page) None))
                        children ;;
        page <- loadMenuPage (root +:+ "/" +:+ l1) ;;
        Ok (MkEntry None None (Some page) (Some submenu))
    | Some (NMap _) => Throw notIterable
    end.

(** The loop runs over [Object.keys(menu)] and reads [menu[l1]]; for an
    object that is the sequence of its entries.  A [for ... of] over a
    nested object that is not an array throws. *)
Definition normalize (menu : Sitemap) (root : string) : result (list MenuEntry) :=
  mapM (normalize_entry root) menu.

(** *** The date-ordered collection *)

(** [b.date - a.date]; [None] is [NaN]. *)
Definition byDate (a b : DatedPage) : option Z :=
  match date b, date a with
  | Some db, Some da => Some (db - da)%Z
  | _, _ => None
  end.

(** The order that [Array.prototype.sort] has to produce for a consistent
    comparator: sorted and stable, an element moves behind another one only
    when the comparator is positive. *)
Section Sort.
Context {A : Type}.
Variable compare : A -> A -> option Z.

Definition positive (v : option Z) : bool :=
  match v with
  | Some z => (0 <? z)%Z
  | None => false
  end.

Fixpoint insert (x : A) (l : list A) : list A :=
  match l with
  | [] => [x]
  | y :: l' => if positive (compare x y) then y :: insert x l' else x :: l
  end.

Definition sort (l : list A) : list A := fold_right insert [] l.
End Sort.

(** The callback of the [map] in [getDateOrderedPaths]. *)
Definition loadDated (fullPath : string) : result DatedPage :=
  let path := stripMdSuffix (removeFirst (contentDir +:+ "/") fullPath) in
  page <- loadPage path ;;
  Ok {| date := Date_parse W (field "date" (Page.data page)); page := page |}.

(** Every page has a date that [Date.parse] accepts: no comparison of two
    of them is [NaN]. *)
Definition comparable (pages : list DatedPage) : bool :=
  forallb (fun p => match date p with Some _ => true | None => false end) pages.

(** [.sort((a, b) => b.date - a.date)]: the comparator is consistent when
    every date is a number, and the standard then fixes the result; with a
    [NaN] among the dates the order is the engine's. *)
Definition sortByDate (pages : list DatedPage) : list DatedPage :=
  if comparable pages then sort byDate pages
  else arraySort W DatedPage byDate pages.

Definition getDateOrderedPaths (root : string) : result (list DatedPage) :=
  pages <- mapM loadDated (globSync W (contentDir +:+ "/" +:+ root +:+ "/*.md")) ;;
  Ok (sortByDate pages).

(** [getDateOrderedPaths("blog")[0]] *)
Definition getLastBlog : result (option DatedPage) :=
  pages <- getDateOrderedPaths "blog" ;;
  Ok (hd_error pages).

(** *** Props *)

Definition deleteBody (b : DatedPage) : DatedPage :=
  {| date := date b; page := set_body (page b) None |}.

Definition cannotConvert : JsError :=
  TypeError "Cannot convert undefined or null to object".

(** The default argument is [{ props: {} }]. *)
Definition withAppProps (props : option Props.wrapped) : result Props.wrapped :=
  let props :=
    match props with
    | Some p => p
    | None => Props.wrap (Props.mk None None None)
    end in
  blog <- getLastBlog ;;
  match blog with
  | None => Throw cannotConvert
  | Some blog =>
      Ok (Props.wrap
            {| Props.page := Props.page (Props.props props);
               Props.menu := Props.menu (Props.props props);
               Props.app := Some {| blog := deleteBody blog |} |})
  end.

(** [Object.keys] of an array are its indices, and an element of the
    array is a string, which has neither [href] nor [nested]. *)
Definition arrayEntries (l : list string) : Sitemap :=
  map (fun i => (NilZero.string_of_uint (Nat.to_uint i), emptyNode))
      (seq 0 (List.length l)).

Definition getProps (menu : Sitemap) (slug : Slug) : result Props.wrapped :=
  let slug :=
    match slug with
    | SlugArray segments => join sepS segments
    | SlugString s => s
    end in
  let root := hd "" (split (sep P) slug) in
  page <- loadPage slug ;;
  body <- toHTML W (Page.body page) ;;
  let page := set_body page (Some body) in
  node <- match member root menu with
          | Some v => Ok v
          | None => Throw (TypeError "Cannot read properties of undefined (reading 'title')")
          end ;;
  nested <- match node_nested node with
            | Some (NMap level) => normalize level root
            | Some (NList l) => normalize (arrayEntries l) root
            | None => Throw cannotConvert
            end ;;
  let normalized := [MkEntry (Some root) (node_title node) None (Some nested)] in
  let page := setPrevNext page normalized in
  withAppProps
    (Some (Props.wrap {| Props.page := Some page;
                         Props.menu := Some normalized;
                         Props.app := None |})).

End Api.

(** ** Notions used by the statements *)

(** A path that [loadPage] takes as it is: relative, outside the content
    root and without a leading [./]. *)
Definition rootRelative (P : Platform) (p : string) : bool :=
  negb (path_isAbsolute P p)
  && negb (startsWith p (normalizedContentDir P))
  && negb (startsWith p (contentDir P))
  && negb (startsWith p "./").

(** A valid root-relative slug: a root-relative path whose forward-slash
    form is root-relative too and names the same files on the platform. *)
Definition validSlug (P : Platform) (s : string) : Prop :=
  rootRelative P s = true
  /\ rootRelative P (toForwardSlashes s) = true
  /\ path_join P [normalizedContentDir P; toForwardSlashes s]
     = path_join P [normalizedContentDir P; s]
  /\ toForwardSlashes (path_join P [toForwardSlashes s; "index.md"])
     = toForwardSlashes (path_join P [s; "index.md"]).

(** The pages that carry data, parent before children, in declaration order. *)
Fixpoint visited_entry (e : MenuEntry) : list MenuPage.t :=
  let 'MkEntry _ _ page nested := e in
  match page with
  | Some p => match MenuPage.data p with Some _ => [p] | None => [] end
  | None => []
  end
  ++
  match nested with
  | Some menu => flat_map visited_entry menu
  | None => []
  end.

Definition visited (menu : list MenuEntry) : list MenuPage.t :=
  flat_map visited_entry menu.

(** The invocations of the callback of [eachPage], recorded in order: the
    page and the previous page handed to the callback. *)
Definition record (p : MenuPage.t) (c : option MenuPage.t)
           (acc : list (MenuPage.t * option MenuPage.t)) :=
  acc ++ [(p, c)].

Definition calls (menu : list MenuEntry) (prev prevSection : option MenuPage.t)
  : list (MenuPage.t * option MenuPage.t) :=
  eachPage record menu prev prevSection [].

(** An entry for a single page. *)
Definition leaf (p : MenuPage.t) : MenuEntry := MkEntry None None (Some p) None.

Definition hasData (p : MenuPage.t) : bool :=
  match MenuPage.data p with Some _ => true | None => false end.

(** An external-link leaf: a page without data and nothing nested. *)
Definition isStub (e : MenuEntry) : bool :=
  match e with
  | MkEntry _ _ (Some p) None => negb (hasData p)
  | _ => false
  end.

(** The shape of the menus of [normalize] and [getProps]: an entry with
    nested entries has a page with data or no page at all. *)
Fixpoint shaped (e : MenuEntry) : bool :=
  let 'MkEntry _ _ page nested := e in
  match nested with
  | Some menu =>
      match page with Some p => hasData p | None => true end
      && forallb shaped menu
  | None => true
  end.

(** The menu without its external-link leaves, at every level. *)
Fixpoint dropStubs_entry (e : MenuEntry) : MenuEntry :=
  let 'MkEntry k t page nested := e in
  MkEntry k t page
    match nested with
    | Some menu =>
        Some ((fix loop (menu : list MenuEntry) : list MenuEntry :=
                 match menu with
                 | [] => []
                 | e' :: rest =>
                     if isStub e' then loop rest else dropStubs_entry e' :: loop rest
                 end) menu)
    | None => None
    end.

Fixpoint dropStubs (menu : list MenuEntry) : list MenuEntry :=
  match menu with
  | [] => []
  | e :: rest => if isStub e then dropStubs rest else dropStubs_entry e :: dropStubs rest
  end.

(** The local [prev] of [eachPage] after the turn for [e]. *)
Definition cursorAfter (e : MenuEntry) (prev : option MenuPage.t) : option MenuPage.t :=
  match entry_page e with
  | Some p => if hasData p then Some p else prev
  | None => prev
  end.

(** What the callback of [setPrevNext] does with one recorded call. *)
Definition visitCall (st : bool * Page.t) (call : MenuPage.t * option MenuPage.t)
  : bool * Page.t :=
  visit (fst call) (snd call) st.

(** The page with a [prev] link to the previous page [c] handed to the
    callback, when there is one and it has a title. *)
Definition linkPrev (page : Page.t) (c : option MenuPage.t) : Page.t :=
  match c with
  | Some q => if truthy (MenuPage.title q) then set_prev page (linkTo q) else page
  | None => page
  end.

(** The page with a [next] link to the first of the pages visited later. *)
Definition linkNext (page : Page.t) (later : list MenuPage.t) : Page.t :=
  match later with
  | n :: _ => set_next page (linkTo n)
  | [] => page
  end.

(** No page of the calls [l] has the [href] of [page]. *)
Definition others (page : Page.t) (l : list (MenuPage.t * option MenuPage.t)) : Prop :=
  Forall (fun call => MenuPage.href (fst call) <> Page.href page) l.

(** A page handed to the callback as previous page carries data. *)
Definition loaded (c : option MenuPage.t) : Prop :=
  match c with
  | Some q => hasData q = true
  | None => True
  end.

(** The nodes of a sitemap with the keys that lead to them, a node before
    what is nested in it; a child of a list is a node [{}]. *)
Fixpoint nodes_entry (above : list string) (k : string) (v : Node)
  : list (list string * Node) :=
  (above ++ [k], v)
  ::
  match node_nested v with
  | Some (NList ps) => map (fun p => (above ++ [k; p], emptyNode)) ps
  | Some (NMap level) =>
      (fix loop (level : list (string * Node)) : list (list string * Node) :=
         match level with
         | [] => []
         | (k', v') :: rest => nodes_entry (above ++ [k]) k' v' ++ loop rest
         end) level
  | None => []
  end.

Fixpoint nodes (above : list string) (level : Sitemap) : list (list string * Node) :=
  match level with
  | [] => []
  | (k, v) :: rest => nodes_entry above k v ++ nodes above rest
  end.

(** A node is routable when it has no [href]. *)
Definition routable (n : list string * Node) : bool := negb (truthy (node_href (snd n))).

(** The slug of a node: its keys, each after a ["/"]. *)
Fixpoint slugOf (keys : list string) : string :=
  match keys with
  | [] => ""
  | k :: rest => "/" +:+ k +:+ slugOf rest
  end.

Definition entryKey (e : MenuEntry) : option string :=
  option_map MenuPage.key (entry_page e).

(** The entry that [normalize] builds for the key [k] of a level: the stub
    of an external link, or the page loaded at [root/k], for a section with
    one page per child of its list, loaded at [root/k/child], in the order
    of the list. *)
Definition builtFrom (P : Platform) (W : World) (root : string)
           (kv : string * Node) (e : MenuEntry) : Prop :=
  if truthy (node_href (snd kv)) then
    entryKey e = Some (fst kv)
    /\ option_map MenuPage.href (entry_page e) = node_href (snd kv)
    /\ entry_nested e = None
  else
    exists page,
      loadMenuPage P W (root +:+ "/" +:+ fst kv) = Ok page
      /\ entry_page e = Some page
      /\ match node_nested (snd kv) with
         | Some (NList children) =>
             exists pages,
               entry_nested e = Some (map leaf pages)
               /\ Forall2 (fun c pg =>
                             loadMenuPage P W (root +:+ "/" +:+ fst kv +:+ "/" +:+ c) = Ok pg)
                          children pages
         | _ => entry_nested e = None
         end.

(** The keys of a level and of its lists have no ["/"] and give
    root-relative paths under [root]. *)
Definition plainKey (P : Platform) (root k : string) : bool :=
  lacks slash k && rootRelative P (root +:+ "/" +:+ k).

Definition plainKeys (P : Platform) (root : string) (menu : Sitemap) : bool :=
  forallb (fun '(k, v) =>
             truthy (node_href v)
             || (plainKey P root k
                 && match node_nested v with
                    | Some (NList children) =>
                        forallb (fun c => lacks slash c
                                          && rootRelative P (root +:+ "/" +:+ k +:+ "/" +:+ c))
                                children
                    | _ => true
                    end))
          menu.

(** Newest first; a page without a valid date is not comparable. *)
Definition newerOrEqual (a b : DatedPage) : Prop :=
  match date a, date b with
  | Some da, Some db => (db <= da)%Z
  | _, _ => False
  end.

Definition dated (a : DatedPage) : Prop := date a <> None.

(** The fields of a page other than [prev] and [next]. *)
Definition sameContent (p q : Page.t) : Prop :=
  Page.key q = Page.key p
  /\ Page.href q = Page.href p
  /\ Page.title q = Page.title p
  /\ Page.menuTitle q = Page.menuTitle p
  /\ Page.mdPath q = Page.mdPath p
  /\ Page.data q = Page.data p
  /\ Page.body q = Page.body p
  /\ Page.description q = Page.description p.

(** The local [prev] of [eachPage] after the turns for the entries of [menu]. *)
Definition cursorAfterAll (menu : list MenuEntry) (prev : option MenuPage.t)
  : option MenuPage.t :=
  fold_left (fun c e => cursorAfter e c) menu prev.

(** A root-relative path written without backslashes. *)
Definition plainPath (P : Platform) (p : string) : bool :=
  rootRelative P p && lacks backslash p.

(** A level whose file-backed keys and child keys give plain paths under
    [root] and whose external links have nothing nested. *)
Definition menuPaths (P : Platform) (root : string) (level : Sitemap) : bool :=
  forallb (fun '(k, v) =>
             if truthy (node_href v) then
               match node_nested v with None => true | Some _ => false end
             else
               plainPath P (root +:+ "/" +:+ k)
               && match node_nested v with
                  | Some (NList children) =>
                      forallb (fun c => plainPath P (root +:+ "/" +:+ k +:+ "/" +:+ c))
                              children
                  | _ => true
                  end)
          level.

(** Every previous page handed over in the calls [l] is one of [allowed] or
    the page of an earlier call of [l]. *)
Fixpoint anchored (allowed : list MenuPage.t)
         (l : list (MenuPage.t * option MenuPage.t)) : Prop :=
  match l with
  | [] => True
  | (p, c) :: l' =>
      match c with Some q => In q allowed | None => True end
      /\ anchored (p :: allowed) l'
  end.


(** The entry is an external link. *)
Definition isExternal (kv : string * Node) : bool := truthy (node_href (snd kv)).

(** The page with its date, as the callback of [getDateOrderedPaths] builds it. *)
Definition withDate (W : World) (page : Page.t) : DatedPage :=
  {| date := Date_parse W (field "date" (Page.data page)); page := page |}.

(** A name that an assignment [child[p] = {}] turns into a property. *)
Definition ordinaryName (p : string) : bool := negb (String.eqb p "__proto__").

(** No child of a list of the sitemap is named ["__proto__"]. *)
Fixpoint ordinaryChildren_entry (v : Node) : bool :=
  let 'MkNode _ _ nested := v in
  match nested with
  | Some (NList ps) => forallb ordinaryName ps
  | Some (NMap level) =>
      (fix loop (level : list (string * Node)) : bool :=
         match level with
         | [] => true
         | (_, v') :: rest => ordinaryChildren_entry v' && loop rest
         end) level
  | None => true
  end.

Fixpoint ordinaryChildren (level : Sitemap) : bool :=
  match level with
  | [] => true
  | (_, v) :: rest => ordinaryChildren_entry v && ordinaryChildren rest
  end.

(** The children of the lists of a level are ordinary names. *)
Definition ordinaryLists (level : Sitemap) : bool :=
  forallb (fun kv => match node_nested (snd kv) with
                     | Some (NList children) => forallb ordinaryName children
                     | _ => true
                     end)
          level.

(** [t] is [s] with every backslash replaced by a forward slash. *)
Inductive forwardSlashForm : string -> string -> Prop :=
| fsf_empty : forwardSlashForm "" ""
| fsf_backslash (s t : string) :
    forwardSlashForm s t -> forwardSlashForm (String backslash s) (String "/" t)
| fsf_other (a : ascii) (s t : string) :
    a <> backslash -> forwardSlashForm s t -> forwardSlashForm (String a s) (String a t).

(** The fields of a page other than [body]. *)
Definition sameButBody (p q : Page.t) : Prop :=
  Page.key q = Page.key p
  /\ Page.href q = Page.href p
  /\ Page.title q = Page.title p
  /\ Page.menuTitle q = Page.menuTitle p
  /\ Page.mdPath q = Page.mdPath p
  /\ Page.data q = Page.data p
  /\ Page.description q = Page.description p
  /\ Page.prev q = Page.prev p
  /\ Page.next q = Page.next p.

(** The entries of a level of a normalized menu: a single entry, which is
    a page or an external link, or a section, which is a page with the
    pages of its children. *)
Inductive Item : Type :=
| ILeaf (p : MenuPage.t)
| ISection (p : MenuPage.t) (children : list MenuPage.t).

Definition entryOf (i : Item) : MenuEntry :=
  match i with
  | ILeaf p => leaf p
  | ISection p children => MkEntry None None (Some p) (Some (map leaf children))
  end.

Definition itemPage (i : Item) : MenuPage.t :=
  match i with
  | ILeaf p => p
  | ISection p _ => p
  end.

Definition itemChildren (i : Item) : list MenuPage.t :=
  match i with
  | ILeaf _ => []
  | ISection _ children => children
  end.

(** The page of a section and the pages of its children are loaded pages. *)
Definition wellFormed (i : Item) : bool :=
  match i with
  | ILeaf _ => true
  | ISection p children => hasData p && forallb hasData children
  end.

(** The last entry with a page of its own among [before] is not a section
    with children: no child of a section lies between that page and what
    follows [before]. *)
Definition endsOutsideSection (before : list Item) : bool :=
  fold_left (fun outside i =>
               match i with
               | ILeaf p => if hasData p then true else outside
               | ISection _ children => match children with [] => true | _ :: _ => false end
               end)
            before true.

(** ** A POSIX platform

    [path.posix] of Node: paths are sequences of segments separated by
    ["/"]; normalization drops empty and ["."] segments and resolves
    [".."] against the segment before it. *)

Module Posix.

Definition isAbsolute (p : string) : bool := startsWith p "/".

Definition endsWithSlash (p : string) : bool :=
  match p with
  | EmptyString => false
  | _ => String.eqb (last (split slash p) "x") ""
  end.

(** One segment of [normalizeString]; the result so far is kept in
    reverse. *)
Definition step (allowAboveRoot : bool) (res : list string) (seg : string) : list string :=
  if String.eqb seg "" || String.eqb seg "." then res
  else if String.eqb seg ".." then
    match res with
    | top :: below =>
        if String.eqb top ".." then (if allowAboveRoot then seg :: res else res)
        else below
    | [] => if allowAboveRoot then [seg] else []
    end
  else seg :: res.

Definition normalizeSegments (allowAboveRoot : bool) (p : string) : list string :=
  rev (fold_left (step allowAboveRoot) (split slash p) []).

Definition normalize (p : string) : string :=
  match p with
  | EmptyString => "."
  | _ =>
      let body := join "/" (normalizeSegments (negb (isAbsolute p)) p) in
      match body with
      | EmptyString =>
          if isAbsolute p then "/" else if endsWithSlash p then "./" else "."
      | _ =>
          let body := if endsWithSlash p then body +:+ "/" else body in
          if isAbsolute p then "/" +:+ body else body
      end
  end.

Definition nonEmpty (s : string) : bool := negb (String.eqb s "").

Definition join (args : list string) : string :=
  match filter nonEmpty args with
  | [] => "."
  | parts => normalize (JsString.join "/" parts)
  end.

Fixpoint dropCommon (from to : list string) : list string * list string :=
  match from, to with
  | a :: from', b :: to' =>
      if String.eqb a b then dropCommon from' to' else (from, to)
  | _, _ => (from, to)
  end.

(** [relative] between two absolute paths. *)
Definition relative (from to : string) : string :=
  let '(up, down) := dropCommon (normalizeSegments false from)
                                (normalizeSegments false to) in
  JsString.join "/" (map (fun _ => "..") up ++ down).

Definition platform (cwd : string) : Platform :=
  {| sep := slash;
     cwd := cwd;
     path_isAbsolute := isAbsolute;
     path_normalize := normalize;
     path_join := join;
     path_relative := relative |}.

End Posix.

(** ** A Windows platform

    [path.win32] of Node for relative and drive-rooted paths (no UNC and no
    drive-relative paths): both ["/"] and the backslash separate segments,
    and a normalized path is written with backslashes. *)

Module Win32.

Definition bs : string := String backslash EmptyString.

Definition rooted (p : string) : bool := startsWith (toForwardSlashes p) "/".

Definition driveRooted (p : string) : bool :=
  match toForwardSlashes p with
  | String _ (String ":" (String "/" _)) => true
  | _ => false
  end.

Definition isAbsolute (p : string) : bool := rooted p || driveRooted p.

Definition normalize (p : string) : string :=
  match p with
  | EmptyString => "."
  | _ =>
      let q := toForwardSlashes p in
      let body := JsString.join bs (Posix.normalizeSegments (negb (isAbsolute p)) q) in
      match body with
      | EmptyString =>
          if rooted p then bs else if Posix.endsWithSlash q then "." +:+ bs else "."
      | _ =>
          let body := if Posix.endsWithSlash q then body +:+ bs else body in
          if rooted p then bs +:+ body else body
      end
  end.

Definition join (args : list string) : string :=
  match filter Posix.nonEmpty args with
  | [] => "."
  | parts => normalize (JsString.join bs parts)
  end.

Definition relative (from to : string) : string :=
  let '(up, down) :=
    Posix.dropCommon (Posix.normalizeSegments false (toForwardSlashes from))
                     (Posix.normalizeSegments false (toForwardSlashes to)) in
  JsString.join bs (map (fun _ => "..") up ++ down).

Definition platform (cwd : string) : Platform :=
  {| sep := backslash;
     cwd := cwd;
     path_isAbsolute := isAbsolute;
     path_normalize := normalize;
     path_join := join;
     path_relative := relative |}.

End Win32.

(** ** An engine's sort

    [Array.prototype.sort] of V8 for an array shorter than its minimal run
    of 64 elements: the run at the start of the array is found, reversed
    when it descends, and the elements behind it are put in their places by
    binary insertion.  The comparator may answer anything. *)

Module V8.

Section Sort.
Context {A : Type}.
Variable compare : A -> A -> option Z.

(** The answer of the comparator as the sort reads it: [NaN] counts as 0. *)
Definition order (x y : A) : Z :=
  match compare x y with
  | Some z => z
  | None => 0%Z
  end.

(** The loop of [CountAndMakeRun]: how far the run goes on after its
    second element. *)
Fixpoint runAfter (descending : bool) (previous : A) (rest : list A) : nat :=
  match rest with
  | [] => 0
  | current :: rest' =>
      let o := order current previous in
      if (if descending then (o <? 0)%Z else (0 <=? o)%Z)
      then S (runAfter descending current rest')
      else 0
  end.

(** [CountAndMakeRun]: the length of the run at the start of the array; a
    strictly descending run is reversed in place. *)
Definition countAndMakeRun (l : list A) : list A * nat :=
  match l with
  | first :: second :: rest =>
      let descending := (order second first <? 0)%Z in
      let n := (2 + runAfter descending second rest)%nat in
      if descending then (rev (firstn n l) ++ skipn n l, n) else (l, n)
  | _ => (l, List.length l)
  end.

(** The binary search of [BinaryInsertionSort] in the sorted part. *)
Fixpoint search (fuel : nat) (sorted : list A) (pivot : A) (left right : nat) : nat :=
  match fuel with
  | 0 => left
  | S fuel' =>
      if (left <? right)%nat then
        let mid := (left + (right - left) / 2)%nat in
        match nth_error sorted mid with
        | Some x =>
            if (order pivot x <? 0)%Z then search fuel' sorted pivot left mid
            else search fuel' sorted pivot (S mid) right
        | None => left
        end
      else left
  end.

(** One turn of [BinaryInsertionSort]: the element at [start] moves to its
    place among the [start] elements before it. *)
Definition insertPivot (start : nat) (a : list A) : list A :=
  match nth_error a start with
  | Some pivot =>
      let sorted := firstn start a in
      let left := search (S start) sorted pivot 0 start in
      firstn left sorted ++ pivot :: skipn left sorted ++ skipn (S start) a
  | None => a
  end.

Fixpoint binaryInsertionSort (count start : nat) (a : list A) : list A :=
  match count with
  | 0 => a
  | S count' => binaryInsertionSort count' (S start) (insertPivot start a)
  end.

(** An array shorter than the minimal run is one run: the run found at its
    start, extended by binary insertion. *)
Definition sort (l : list A) : list A :=
  match l with
  | [] | [_] => l
  | _ =>
      let '(a, n) := countAndMakeRun l in
      binaryInsertionSort (List.length l - n)%nat n a
  end.

(** The sort rearranges the array: the world keeps this with the sort. *)
Definition skipn_nth_error (n : nat) (a : list A) (x : A) :
  nth_error a n = Some x -> skipn n a = x :: skipn (S n) a.
Proof.
  revert a; induction n as [|n IH]; intros [|y a] H; try discriminate.
  - now injection H as ->.
  - now apply IH.
Qed.

Definition insertPivot_rearranges (start : nat) (a : list A) :
  Permutation a (insertPivot start a).
Proof.
  unfold insertPivot. destruct (nth_error a start) as [pivot|] eqn:E; [|reflexivity].
  set (left := search _ _ _ _ _).
  rewrite <- (firstn_skipn start a) at 1.
  rewrite (skipn_nth_error _ _ _ E).
  rewrite <- (firstn_skipn left (firstn start a)) at 1.
  rewrite <- app_assoc. apply Permutation_app_head.
  symmetry. apply Permutation_middle.
Qed.

Definition binaryInsertionSort_rearranges (count start : nat) (a : list A) :
  Permutation a (binaryInsertionSort count start a).
Proof.
  revert start a; induction count as [|count IH]; intros start a; cbn [binaryInsertionSort].
  - reflexivity.
  - rewrite <- IH. apply insertPivot_rearranges.
Qed.

Definition countAndMakeRun_rearranges (l : list A) :
  Permutation l (fst (countAndMakeRun l)).
Proof.
  unfold countAndMakeRun. destruct l as [|x [|y l]]; try reflexivity.
  destruct (order y x <? 0)%Z; [|reflexivity].
  cbn [fst]. set (n := (2 + _)%nat).
  rewrite <- (firstn_skipn n (x :: y :: l)) at 1.
  apply Permutation_app_tail, Permutation_rev.
Qed.

Definition sort_rearranges (l : list A) : Permutation l (sort l).
Proof.
  unfold sort. destruct l as [|x [|y l]]; try reflexivity.
  pose proof (countAndMakeRun_rearranges (x :: y :: l)) as H.
  destruct (countAndMakeRun (x :: y :: l)) as [a n]. cbn [fst] in H.
  rewrite <- binaryInsertionSort_rearranges. exact H.
Qed.

End Sort.
End V8.

(** ** A small world

    A file table with a line-oriented front-matter parser and ISO dates,
    enough to run the functions on concrete sites. *)

Module Sample.

Definition nl : string := String (Ascii.ascii_of_nat 10) EmptyString.

(** A Markdown file with a front-matter header. *)
Definition md (fields : FrontMatter) (body : string) : string :=
  "---" +:+ nl
    +:+ String.concat "" (map (fun '(k, v) => k +:+ ":" +:+ v +:+ nl) fields)
    +:+ "---" +:+ nl +:+ body.

Fixpoint header (lines : list string) : FrontMatter * list string :=
  match lines with
  | [] => ([], [])
  | line :: rest =>
      if String.eqb line "---" then ([], rest)
      else
        let '(fields, body) := header rest in
        match split ":" line with
        | k :: v => ((k, join ":" v) :: fields, body)
        | [] => (fields, body)
        end
  end.

Definition parse (contents : string) : result (FrontMatter * string) :=
  match split (Ascii.ascii_of_nat 10) contents with
  | first :: rest =>
      if String.eqb first "---" then
        let '(fields, body) := header rest in Ok (fields, join nl body)
      else Ok ([], contents)
  | [] => Ok ([], contents)
  end.

Fixpoint digits (s : string) (acc : Z) : option Z :=
  match s with
  | EmptyString => Some acc
  | String a s' =>
      let n := nat_of_ascii a in
      if ((48 <=? n)%nat && (n <=? 57)%nat)%bool then digits s' (10 * acc + Z.of_nat (n - 48))%Z
      else None
  end.

(** Days since 1970-01-01 of a civil date. *)
Definition daysFromCivil (y m d : Z) : Z :=
  let y := (if m <=? 2 then y - 1 else y)%Z in
  let era := (y / 400)%Z in
  let yoe := (y - era * 400)%Z in
  let doy := ((153 * (if 2 <? m then m - 3 else m + 9) + 2) / 5 + d - 1)%Z in
  let doe := (yoe * 365 + yoe / 4 - yoe / 100 + doy)%Z in
  (era * 146097 + doe - 719468)%Z.

(** [Date.parse] on [YYYY-MM-DD]: milliseconds since the epoch. *)
Definition parseDate (v : jsval) : option Z :=
  match v with
  | Some s =>
      match split "-" s with
      | [y; m; d] =>
          match digits y 0, digits m 0, digits d 0 with
          | Some y, Some m, Some d => Some (daysFromCivil y m d * 86400000)%Z
          | _, _, _ => None
          end
      | _ => None
      end
  | None => None
  end.

Definition Files := list (string * string).

Fixpoint read (files : Files) (p : string) : option string :=
  match files with
  | [] => None
  | (q, contents) :: rest => if String.eqb q p then Some contents else read rest p
  end.

Definition endsWithMd (s : string) : bool :=
  negb (String.eqb (stripMdSuffix s) s).

(** The files [dir/name.md] for a pattern [dir/*.md]. *)
Definition glob (files : Files) (pattern : string) : list string :=
  let dir := removeFirst "*.md" pattern in
  filter (fun p => startsWith p dir
                   && lacks slash (substringFrom (String.length dir) p)
                   && endsWithMd p)
         (map fst files).

Definition world (files : Files) : World :=
  {| existsSync := fun p => match read files p with Some _ => true | None => false end;
     readFileSync := fun p =>
       match read files p with
       | Some contents => Ok contents
       | None => Throw (Error ("ENOENT: no such file or directory, open '" +:+ p +:+ "'"))
       end;
     matter := parse;
     Date_parse := parseDate;
     globSync := glob files;
     toHTML := fun body =>
       match body with
       | Some b => Ok ("<p>" +:+ b +:+ "</p>")
       | None => Ok ""
       end;
     arraySort := @V8.sort;
     arraySort_perm := @V8.sort_rearranges |}.

(** A site rooted at [/site]. *)
Definition files : Files :=
  [ ("/site/content/tokio/tutorial/index.md", md [("title", "Tutorial")] "Start here.");
    ("/site/content/tokio/tutorial/async.md",
      md [("title", "Async in depth"); ("menu", "Async")] "Futures.");
    ("/site/content/tokio/tutorial/select.md", md [("title", "Select")] "Branches.");
    ("/site/content/tokio/topics.md", md [("title", "Topics")] "Guides.");
    ("/site/content/tokio/topics/index.md", md [("title", "Topics index")] "Old.");
    ("/site/content/tokio/glossary.md", md [("title", "Glossary")] "Terms.");
    ("/site/content/blog/first.md",
      md [("title", "First"); ("date", "2023-01-01")] "One.");
    ("/site/content/blog/second.md",
      md [("title", "Second"); ("date", "2024-06-15")] "Two.");
    ("/site/content/blog/third.md",
      md [("title", "Third"); ("date", "2022-12-31")] "Three.") ].

(** A loaded page summary, and a page to link. *)
Definition summary (key href : string) (title : jsval) : MenuPage.t :=
  {| MenuPage.key := key; MenuPage.href := href; MenuPage.title := title;
     MenuPage.menuTitle := None; MenuPage.data := Some [];
     MenuPage.nested := None |}.

Definition target (key href : string) : Page.t :=
  {| Page.key := key; Page.href := href; Page.title := Some key;
     Page.menuTitle := Some key; Page.mdPath := key +:+ ".md"; Page.data := [];
     Page.body := Some ""; Page.description := None;
     Page.prev := None; Page.next := None |}.

Definition P : Platform := Posix.platform "/site".
Definition W : World := world files.

(** The same site without a blog. *)
Definition noBlog : World := world (firstn 6 files).

Definition sitemap : Sitemap :=
  [ ("tokio",
      MkNode None (Some "Tokio")
        (Some (NMap
           [ ("tutorial", MkNode None None (Some (NList ["async"; "select"])));
             ("api", MkNode (Some "https://docs.rs/tokio") (Some "API") None);
             ("topics", MkNode None None None);
             ("glossary", MkNode None None None) ]))) ].

(** The level under ["tokio"] and its normalized menu. *)
Definition tokioLevel : Sitemap :=
  match node_nested (snd (hd ("", emptyNode) sitemap)) with
  | Some (NMap level) => level
  | _ => []
  end.

Definition tokioMenu : list MenuEntry :=
  Eval vm_compute in
    match normalize P W tokioLevel "tokio" with
    | Ok out => out
    | Throw _ => []
    end.

Definition asyncPage : Page.t :=
  {| Page.key := "async";
     Page.href := "/tokio/tutorial/async";
     Page.title := Some "Async in depth";
     Page.menuTitle := Some "Async";
     Page.mdPath := "tokio/tutorial/async.md";
     Page.data := [("title", "Async in depth"); ("menu", "Async")];
     Page.body := Some "Futures.";
     Page.description := None;
     Page.prev := None;
     Page.next := None |}.

(** The blog pages as the glob lists them, with their dates. *)
Definition blogCollection : list DatedPage :=
  Eval vm_compute in
    match mapM (loadDated P W) (globSync W (contentDir P +:+ "/" +:+ "blog" +:+ "/*.md")) with
    | Ok pages => pages
    | Throw _ => []
    end.

(** Page summaries for small menus. *)
Definition pageA : MenuPage.t := summary "a" "/guide/a" (Some "A").
Definition pageA1 : MenuPage.t := summary "a1" "/guide/a/a1" (Some "A1").
Definition pageB : MenuPage.t := summary "b" "/guide/b" (Some "B").
Definition pageC : MenuPage.t := summary "c" "/guide/c" (Some "C").
Definition untitled : MenuPage.t := summary "u" "/guide/u" None.
Definition external : MenuPage.t :=
  {| MenuPage.key := "api"; MenuPage.href := "https://docs.rs/tokio";
     MenuPage.title := Some "API"; MenuPage.menuTitle := None;
     MenuPage.data := None; MenuPage.nested := None |}.

(** A section [A] with the child [A1], followed by the page [B]. *)
Definition sectionThenPage : list MenuEntry :=
  [MkEntry None None (Some pageA) (Some [leaf pageA1]); leaf pageB].

(** A section [A], an external link, and a section [B] with the child [C]. *)
Definition mixedMenu : list MenuEntry :=
  [leaf pageA; leaf external; MkEntry None None (Some pageB) (Some [leaf pageC])].

(** The tutorial with its pages as a nested mapping, and as a list. *)
Definition mappingLevel : Sitemap :=
  [("tutorial", MkNode None None (Some (NMap [("async", emptyNode); ("select", emptyNode)])))].

Definition listLevel : Sitemap :=
  [("tutorial", MkNode None None (Some (NList ["async"; "select"])))].

(** A sitemap with one page under its top-level key. *)
Definition twoLevel : Sitemap :=
  [("tokio", MkNode None None (Some (NMap [("tutorial", emptyNode)])))].

(** The same site on Windows, rooted at [C:\site]. *)
Definition winFiles : Files :=
  [ ("C:\site\content\tokio\tutorial\async.md",
      md [("title", "Async in depth"); ("menu", "Async")] "Futures.");
    ("C:\site\content\tokio\tutorial\index.md", md [("title", "Tutorial")] "Start here.") ].

Definition winP : Platform := Win32.platform "C:\site".
Definition winW : World := world winFiles.

(** The page of the topics, the blog in date order and the props of the
    topics page. *)
Definition topicsPage : Page.t :=
  Eval vm_compute in
    match loadPage P W "tokio/topics" with
    | Ok loaded => loaded
    | Throw _ => asyncPage
    end.


Definition topicsProps : Props.wrapped :=
  Eval vm_compute in
    match getProps P W sitemap (SlugArray ["tokio"; "topics"]) with
    | Ok returned => returned
    | Throw _ => Props.wrap (Props.mk None None None)
    end.

(** The page that Windows loads for a path written with forward slashes. *)
Definition asyncPageWin : Page.t :=
  Eval vm_compute in
    match loadPage winP winW "tokio/tutorial/async" with
    | Ok loaded => loaded
    | Throw _ => asyncPage
    end.

(** The site with files that exist and cannot be read. *)
Definition unreadable : World :=
  {| existsSync := existsSync W;
     readFileSync := fun p => Throw (Error ("EACCES: permission denied, open '" +:+ p +:+ "'"));
     matter := matter W;
     Date_parse := Date_parse W;
     globSync := globSync W;
     toHTML := toHTML W;
     arraySort := arraySort W;
     arraySort_perm := arraySort_perm W |}.

(** A blog whose second page has no date. *)
Definition undatedFiles : Files :=
  [ ("/site/content/blog/a.md", md [("title", "A"); ("date", "2021-01-01")] "One.");
    ("/site/content/blog/b.md", md [("title", "B")] "Two.");
    ("/site/content/blog/c.md", md [("title", "C"); ("date", "2022-01-01")] "Three.") ].

Definition undatedBlog : World := world undatedFiles.

(** A page [A], a section [B] with the children [A1] and [C], and a page. *)
Definition guideItems : list Item :=
  [ILeaf pageA; ILeaf external; ISection pageB [pageA1; pageC]; ILeaf untitled].

(** A level with a list that has a child named [__proto__]. *)
Definition protoLevel : Sitemap :=
  [("tutorial", MkNode None None (Some (NList ["async"; "__proto__"; "select"])))].

(** A site with a page under a directory named [constructor]. *)
Definition inheritedSite : World :=
  world [("/site/content/constructor/about.md", md [("title", "About")] "Made.")].

Definition aboutPage : Page.t :=
  Eval vm_compute in
    match loadPage P inheritedSite "constructor/about" with
    | Ok loaded => loaded
    | Throw _ => asyncPage
    end.

(** A level of external links. *)
Definition externalLevel : Sitemap :=
  [ ("api", MkNode (Some "https://docs.rs/tokio") (Some "API") None);
    ("chat", MkNode (Some "https://discord.gg/tokio") (Some "Chat") None) ].

End Sample.

(** * Properties *)

(** ** Strings *)

Lemma startsWith_app (x b : string) : startsWith (x +:+ b) x = true.
Proof.
  induction x as [|a x IH]; simpl.
  - now destruct b.
  - now rewrite Ascii.eqb_refl.
Qed.

Lemma startsWith_app_l (a b s : string) :
  startsWith s (a +:+ b) = true -> startsWith s a = true.
Proof.
  revert s; induction a as [|c a IH]; intros s H; simpl in *.
  - reflexivity.
  - destruct s as [|d s]; [discriminate|].
    apply andb_true_iff in H as [-> H]. now apply IH.
Qed.

Lemma includes_here (x b : string) : includes (x +:+ b) x = true.
Proof.
  pose proof (startsWith_app x b) as H.
  destruct (x +:+ b); simpl; now rewrite H.
Qed.

Lemma includes_app (a x b : string) : includes (a +:+ x +:+ b) x = true.
Proof.
  induction a as [|c a IH].
  - exact (includes_here x b).
  - cbn [String.append includes]. rewrite IH. apply orb_true_r.
Qed.

Lemma append_assoc (a b c : string) : (a +:+ b) +:+ c = a +:+ b +:+ c.
Proof. induction a as [|x a IH]; simpl; [reflexivity | now rewrite IH]. Qed.

Lemma append_empty_r (a : string) : a +:+ "" = a.
Proof. induction a as [|x a IH]; simpl; [reflexivity | now rewrite IH]. Qed.

Lemma toForwardSlashes_app (a b : string) :
  toForwardSlashes (a +:+ b) = toForwardSlashes a +:+ toForwardSlashes b.
Proof. induction a as [|x a IH]; simpl; [reflexivity | now rewrite IH]. Qed.

Lemma toForwardSlashes_idem (s : string) :
  toForwardSlashes (toForwardSlashes s) = toForwardSlashes s.
Proof.
  induction s as [|x s IH]; simpl; [reflexivity|].
  rewrite IH. destruct (Ascii.eqb x backslash) eqn:E; [reflexivity | now rewrite E].
Qed.

Lemma lacks_toForwardSlashes (s : string) : lacks backslash (toForwardSlashes s) = true.
Proof.
  induction s as [|a s IH]; [reflexivity|].
  cbn [toForwardSlashes lacks]. rewrite IH, andb_true_r.
  destruct (Ascii.eqb a backslash) eqn:E; [reflexivity | now rewrite E].
Qed.

Lemma toForwardSlashes_form (s : string) : forwardSlashForm s (toForwardSlashes s).
Proof.
  induction s as [|a s IH]; cbn [toForwardSlashes]; [constructor|].
  destruct (Ascii.eqb a backslash) eqn:E.
  - apply Ascii.eqb_eq in E. subst a. now constructor.
  - apply Ascii.eqb_neq in E. now constructor.
Qed.

Lemma split_nonempty (c : ascii) (s : string) : split c s <> [].
Proof.
  induction s as [|a s IH]; simpl; [discriminate|].
  destruct (Ascii.eqb a c); [discriminate|].
  destruct (split c s); [contradiction | discriminate].
Qed.

Lemma split_app (c : ascii) (a b : string) :
  split c (a +:+ String c b) = split c a ++ split c b.
Proof.
  induction a as [|x a IH]; simpl.
  - now rewrite Ascii.eqb_refl.
  - destruct (Ascii.eqb x c); [now rewrite IH|].
    rewrite IH. destruct (split c a) eqn:E; [|reflexivity].
    now destruct (split_nonempty c a).
Qed.

Lemma split_lacks (c : ascii) (s : string) : lacks c s = true -> split c s = [s].
Proof.
  induction s as [|a s IH]; simpl; [reflexivity|].
  intros H. apply andb_true_iff in H as [Ha Hs].
  apply negb_true_iff in Ha. rewrite Ha, (IH Hs). reflexivity.
Qed.

Lemma last_app_singleton {A : Type} (l : list A) (x d : A) : last (l ++ [x]) d = x.
Proof.
  induction l as [|y l IH]; [reflexivity|].
  simpl. destruct (l ++ [x]) eqn:E; [now destruct l | exact IH].
Qed.

(** The key of a path whose last segment has no separator. *)
Lemma last_split (c : ascii) (a k : string) :
  lacks c k = true -> last (split c (a +:+ String c k)) "" = k.
Proof.
  intros H. rewrite split_app, (split_lacks c k H). apply last_app_singleton.
Qed.

(** ** The result monad *)

Lemma bind_Ok {A B : Type} (m : result A) (k : A -> result B) (b : B) :
  bind m k = Ok b -> exists a, m = Ok a /\ k a = Ok b.
Proof. destruct m as [a|e]; simpl; [eauto | discriminate]. Qed.

Lemma mapM_app {A B : Type} (f : A -> result B) (l1 l2 : list A) :
  mapM f (l1 ++ l2) = (ys1 <- mapM f l1 ;; ys2 <- mapM f l2 ;; Ok (ys1 ++ ys2)).
Proof.
  induction l1 as [|x l1 IH]; simpl.
  - destruct (mapM f l2); reflexivity.
  - destruct (f x); simpl; [|reflexivity].
    rewrite IH. destruct (mapM f l1); simpl; [|reflexivity].
    destruct (mapM f l2); reflexivity.
Qed.

Lemma mapM_ext {A B : Type} (f g : A -> result B) (l : list A) :
  (forall x, f x = g x) -> mapM f l = mapM g l.
Proof.
  intros H. induction l as [|x l IH]; simpl; [reflexivity|]. now rewrite H, IH.
Qed.

Lemma mapM_Ok {A B : Type} (f : A -> result B) (l : list A) (out : list B) :
  mapM f l = Ok out -> Forall2 (fun x y => f x = Ok y) l out.
Proof.
  revert out; induction l as [|x l IH]; simpl; intros out H.
  - injection H as <-. constructor.
  - apply bind_Ok in H as (y & Hy & H). apply bind_Ok in H as (ys & Hys & H).
    injection H as <-. constructor; auto.
Qed.

Lemma mapM_In_Throw {A B : Type} (f : A -> result B) (l : list A) (x : A) (e : JsError) :
  In x l -> f x = Throw e -> exists e', mapM f l = Throw e'.
Proof.
  induction l as [|y l IH]; simpl; [contradiction|].
  intros [->|Hin] Hx.
  - rewrite Hx. simpl. eauto.
  - destruct (f y); simpl; [|eauto].
    destruct (IH Hin Hx) as [e' ->]. simpl. eauto.
Qed.

(** ** The page loader *)

Section PageLoader.

Variable P : Platform.
Variable W : World.

Lemma relativePathOf_rootRelative (s : string) :
  rootRelative P s = true -> relativePathOf P s = s.
Proof.
  unfold rootRelative, relativePathOf. intros H.
  repeat (apply andb_true_iff in H as [H ?]).
  repeat match goal with
         | Hn : negb _ = true |- _ => apply negb_true_iff in Hn
         end.
  rewrite H.
  assert (Hdot : startsWith s ("./" +:+ sepS P) = false).
  { destruct (startsWith s ("./" +:+ sepS P)) eqn:E; [|reflexivity].
    apply startsWith_app_l in E. congruence. }
  match goal with Hn : startsWith s (normalizedContentDir P) = false |- _ =>
    rewrite Hn end. simpl negb. cbv iota.
  match goal with Hc : startsWith s (contentDir P) = false |- _ =>
    rewrite Hc end.
  destruct (includes s (normalizedContentDir P) || includes s (contentDir P));
    rewrite Hdot; match goal with Hd : startsWith s "./" = false |- _ =>
      rewrite Hd end; reflexivity.
Qed.

Lemma notFoundMessage_names (rel : string) :
  includes (notFoundMessage P rel) (fullPathMdFile P rel) = true
  /\ includes (notFoundMessage P rel) (fullPathIndexMdFile P rel) = true.
Proof.
  unfold notFoundMessage. split.
  - apply includes_app.
  - rewrite <- (append_assoc (fullPathMdFile P rel)), <- append_assoc.
    apply includes_app.
Qed.

Lemma loadPage_not_found (pathArgument : string) :
  existsSync W (fullPathMdFile P (relativePathOf P pathArgument)) = false ->
  existsSync W (fullPathIndexMdFile P (relativePathOf P pathArgument)) = false ->
  loadPage P W pathArgument
  = Throw (Error (notFoundMessage P (relativePathOf P pathArgument))).
Proof. intros Hmd Hidx. unfold loadPage. now rewrite Hmd, Hidx. Qed.

(** C4. When neither [<path>.md] nor [<path>/index.md] exists, [loadPage]
    throws an error whose message contains both attempted file paths, and
    the callers pass that same error on: [loadMenuPage], [normalize] at
    the entry that needs the page, and [getProps]. *)
Theorem loadPage_missing_file (pathArgument : string) :
  existsSync W (fullPathMdFile P (relativePathOf P pathArgument)) = false ->
  existsSync W (fullPathIndexMdFile P (relativePathOf P pathArgument)) = false ->
  exists message,
    loadPage P W pathArgument = Throw (Error message)
    /\ includes message (fullPathMdFile P (relativePathOf P pathArgument)) = true
    /\ includes message (fullPathIndexMdFile P (relativePathOf P pathArgument)) = true
    /\ loadMenuPage P W pathArgument = Throw (Error message)
    /\ (forall menu, getProps P W menu (SlugString pathArgument) = Throw (Error message))
    /\ (forall root k title before after out,
          pathArgument = root +:+ "/" +:+ k ->
          normalize P W before root = Ok out ->
          normalize P W (before ++ (k, MkNode None title None) :: after) root
          = Throw (Error message)).
Proof.
  intros Hmd Hidx.
  pose proof (loadPage_not_found pathArgument Hmd Hidx) as Hload.
  destruct (notFoundMessage_names (relativePathOf P pathArgument)) as [N1 N2].
  exists (notFoundMessage P (relativePathOf P pathArgument)).
  repeat split; auto.
  - unfold loadMenuPage. now rewrite Hload.
  - intros menu. unfold getProps. now rewrite Hload.
  - intros root k title before after out -> Hbefore.
    unfold normalize in *. rewrite mapM_app, Hbefore.
    cbn [mapM bind normalize_entry node_href node_nested truthy].
    unfold loadMenuPage. now rewrite Hload.
Qed.

(** C6. For a root-relative slug [s], when [<s>.md] exists [loadPage] reads
    that file, whether or not [<s>/index.md] exists too, and [mdPath] is
    the forward-slash form of [<s>.md]: the same characters with a ["/"]
    for every backslash, and no backslash left; [<s>/index.md] is read
    only when [<s>.md] is absent, and [mdPath] is then the forward-slash
    form of the joined path. *)
Theorem loadPage_prefers_md (s contents : string) (data : FrontMatter) (content : string) :
  rootRelative P s = true ->
  (existsSync W (fullPathMdFile P s) = true ->
   readFileSync W (fullPathMdFile P s) = Ok contents ->
   matter W contents = Ok (data, content) ->
   exists page,
     loadPage P W s = Ok page
     /\ Page.mdPath page = toForwardSlashes (s +:+ ".md")
     /\ forwardSlashForm (s +:+ ".md") (Page.mdPath page)
     /\ lacks backslash (Page.mdPath page) = true
     /\ Page.data page = data /\ Page.body page = Some content)
  /\
  (existsSync W (fullPathMdFile P s) = false ->
   existsSync W (fullPathIndexMdFile P s) = true ->
   readFileSync W (fullPathIndexMdFile P s) = Ok contents ->
   matter W contents = Ok (data, content) ->
   exists page,
     loadPage P W s = Ok page
     /\ Page.mdPath page = toForwardSlashes (path_join P [s; "index.md"])
     /\ forwardSlashForm (path_join P [s; "index.md"]) (Page.mdPath page)
     /\ lacks backslash (Page.mdPath page) = true
     /\ Page.data page = data /\ Page.body page = Some content).
Proof.
  intros Hs. pose proof (relativePathOf_rootRelative s Hs) as Hrel.
  split.
  - intros Hmd Hread Hparse. unfold loadPage. rewrite Hrel, Hmd, Hread. simpl.
    rewrite Hparse. simpl. eexists. split; [reflexivity|]. cbn [Page.mdPath Page.data Page.body].
    split; [reflexivity|]. split; [apply toForwardSlashes_form|].
    split; [apply lacks_toForwardSlashes|]. now split.
  - intros Hmd Hidx Hread Hparse. unfold loadPage. rewrite Hrel, Hmd, Hidx, Hread.
    simpl. rewrite Hparse. simpl. eexists. split; [reflexivity|].
    cbn [Page.mdPath Page.data Page.body].
    split; [reflexivity|]. split; [apply toForwardSlashes_form|].
    split; [apply lacks_toForwardSlashes|]. now split.
Qed.

Lemma loadPage_href (pathArgument : string) (page : Page.t) :
  loadPage P W pathArgument = Ok page ->
  Page.href page = "/" +:+ toForwardSlashes (relativePathOf P pathArgument).
Proof.
  unfold loadPage. intros H.
  apply bind_Ok in H as ([mdPath contents] & _ & H).
  apply bind_Ok in H as ([data content] & _ & H).
  injection H as <-. reflexivity.
Qed.

Lemma loadPage_key (pathArgument : string) (page : Page.t) :
  loadPage P W pathArgument = Ok page ->
  Page.key page = last (split (sep P) (relativePathOf P pathArgument)) "".
Proof.
  unfold loadPage. intros H.
  apply bind_Ok in H as ([mdPath contents] & _ & H).
  apply bind_Ok in H as ([data content] & _ & H).
  injection H as <-. reflexivity.
Qed.

Lemma toForwardSlashes_lacks (s : string) :
  lacks backslash s = true -> toForwardSlashes s = s.
Proof.
  induction s as [|a s IH]; cbn [lacks toForwardSlashes]; [reflexivity|].
  intros H. apply andb_true_iff in H as [Ha Hs]. apply negb_true_iff in Ha.
  now rewrite Ha, (IH Hs).
Qed.

(** A root-relative path written with forward slashes is a valid slug on
    every platform. *)
Lemma validSlug_forward (s : string) :
  rootRelative P s = true -> lacks backslash s = true -> validSlug P s.
Proof.
  intros Hs Hlacks. unfold validSlug. rewrite (toForwardSlashes_lacks s Hlacks). auto.
Qed.

(** C7. For a valid root-relative slug [s] with a backing file, the [href]
    of [loadPage s] is ["/"] followed by [s] with forward slashes, whatever
    separators [s] is written with, and loading that [href] without its
    leading slash succeeds with the same [mdPath]. *)
Theorem loadPage_href_round_trip (s : string) (page : Page.t) :
  validSlug P s ->
  loadPage P W s = Ok page ->
  Page.href page = "/" +:+ toForwardSlashes s
  /\ exists page',
       loadPage P W (substringFrom 1 (Page.href page)) = Ok page'
       /\ Page.mdPath page' = Page.mdPath page
       /\ Page.href page' = Page.href page.
Proof.
  intros (Hs & Hs' & Hjoin & Hindex) Hload.
  pose proof (loadPage_href s page Hload) as Hhref.
  rewrite (relativePathOf_rootRelative s Hs) in Hhref.
  split; [exact Hhref|].
  rewrite Hhref. change (substringFrom 1 ("/" +:+ toForwardSlashes s))
    with (toForwardSlashes s).
  revert Hload. unfold loadPage.
  rewrite (relativePathOf_rootRelative s Hs),
          (relativePathOf_rootRelative _ Hs').
  unfold fullPathMdFile, fullPathIndexMdFile. rewrite Hjoin.
  destruct (existsSync W (path_join P [path_join P [normalizedContentDir P; s] +:+ ".md"])).
  - destruct (readFileSync W _) as [contents|e]; simpl; [|discriminate].
    destruct (matter W contents) as [[data content]|e]; simpl; [|discriminate].
    intros H. injection H as <-. eexists. split; [reflexivity|]. simpl.
    rewrite !toForwardSlashes_app, !toForwardSlashes_idem. auto.
  - destruct (existsSync W _); [|discriminate].
    destruct (readFileSync W _) as [contents|e]; simpl; [|discriminate].
    destruct (matter W contents) as [[data content]|e]; simpl; [|discriminate].
    intros H. injection H as <-. eexists. split; [reflexivity|]. simpl.
    rewrite Hindex, toForwardSlashes_idem. auto.
Qed.

End PageLoader.

(** ** The menu normalizer *)

Section Normalizer.

Variable P : Platform.
Variable W : World.

Lemma loadMenuPage_key (path : string) (page : MenuPage.t) :
  loadMenuPage P W path = Ok page ->
  MenuPage.key page = last (split (sep P) (relativePathOf P path)) ""
  /\ hasData page = true.
Proof.
  unfold loadMenuPage. intros H. apply bind_Ok in H as (pg & Hpg & H).
  injection H as <-. split; [|reflexivity]. simpl. now apply loadPage_key with (W := W).
Qed.

Lemma loadMenuPage_plain_key (a k : string) (page : MenuPage.t) :
  sep P = slash ->
  lacks slash k = true ->
  rootRelative P (a +:+ "/" +:+ k) = true ->
  loadMenuPage P W (a +:+ "/" +:+ k) = Ok page ->
  MenuPage.key page = k.
Proof.
  intros Hsep Hk Hrel Hload. apply loadMenuPage_key in Hload as [-> _].
  rewrite (relativePathOf_rootRelative P _ Hrel), Hsep.
  exact (last_split slash a k Hk).
Qed.

Lemma normalize_entry_key (root k : string) (v : Node) (e : MenuEntry) :
  sep P = slash ->
  truthy (node_href v) || plainKey P root k = true ->
  normalize_entry P W root (k, v) = Ok e ->
  entryKey e = Some k.
Proof.
  intros Hsep Hplain. unfold normalize_entry.
  destruct (truthy (node_href v)); [intros H; now injection H as <-|].
  simpl in Hplain. apply andb_true_iff in Hplain as [Hk Hrel].
  destruct (node_nested v) as [[children|level]|]; intros H.
  - apply bind_Ok in H as (submenu & _ & H). apply bind_Ok in H as (page & Hpage & H).
    injection H as <-. unfold entryKey. simpl. f_equal.
    now apply loadMenuPage_plain_key with (a := root).
  - discriminate.
  - apply bind_Ok in H as (page & Hpage & H). injection H as <-.
    unfold entryKey. simpl. f_equal.
    now apply loadMenuPage_plain_key with (a := root).
Qed.

Lemma children_keys (a : string) (children : list string) (submenu : list MenuEntry) :
  sep P = slash ->
  forallb (fun c => lacks slash c && rootRelative P (a +:+ "/" +:+ c)) children = true ->
  mapM (fun l2 => page <- loadMenuPage P W (a +:+ "/" +:+ l2) ;;
                  Ok (MkEntry None None (Some page) None)) children = Ok submenu ->
  map entryKey submenu = map Some children.
Proof.
  intros Hsep. revert submenu.
  induction children as [|c children IH]; simpl; intros submenu Hplain H.
  - now injection H as <-.
  - apply andb_true_iff in Hplain as [Hc Hplain]. apply andb_true_iff in Hc as [Hc Hrel].
    apply bind_Ok in H as (e & He & H). apply bind_Ok in H as (rest & Hrest & H).
    injection H as <-. apply bind_Ok in He as (page & Hpage & He). injection He as <-.
    simpl. rewrite (IH rest Hplain Hrest). unfold entryKey. simpl. do 2 f_equal.
    now apply loadMenuPage_plain_key with (a := a).
Qed.

Lemma normalize_keys (menu : Sitemap) (root : string) (out : list MenuEntry) :
  sep P = slash ->
  plainKeys P root menu = true ->
  normalize P W menu root = Ok out ->
  map entryKey out = map (fun kv => Some (fst kv)) menu
  /\ Forall2 (fun kv e =>
                forall children,
                  truthy (node_href (snd kv)) = false ->
                  node_nested (snd kv) = Some (NList children) ->
                  exists submenu,
                    entry_nested e = Some submenu
                    /\ map entryKey submenu = map Some children)
             menu out.
Proof.
  intros Hsep. unfold normalize, plainKeys. revert out.
  induction menu as [|[k v] menu IH]; simpl; intros out Hplain H.
  - injection H as <-. split; constructor.
  - apply andb_true_iff in Hplain as [Hkv Hplain].
    apply bind_Ok in H as (e & He & H). apply bind_Ok in H as (rest & Hrest & H).
    injection H as <-. destruct (IH rest Hplain Hrest) as [IH1 IH2].
    split.
    + simpl. rewrite IH1. f_equal. apply normalize_entry_key with (root := root) (v := v); auto.
      destruct (truthy (node_href v)); [reflexivity|].
      simpl in Hkv. now apply andb_true_iff in Hkv as [-> _].
    + constructor; [|exact IH2]. simpl. intros children Hhref Hnested.
      rewrite Hhref in Hkv. simpl in Hkv. apply andb_true_iff in Hkv as [_ Hchildren].
      unfold normalize_entry in He. rewrite Hhref, Hnested in *.
      apply bind_Ok in He as (submenu & Hsub & He).
      apply bind_Ok in He as (page & _ & He). injection He as <-.
      exists submenu. split; [reflexivity|].
      apply children_keys with (a := root +:+ "/" +:+ k); auto.
      * clear -Hchildren. induction children as [|c cs IHc]; simpl in *; [reflexivity|].
        apply andb_true_iff in Hchildren as [Hc Hcs].
        rewrite (IHc Hcs), andb_true_r.
        now rewrite append_assoc.
      * rewrite <- Hsub. apply mapM_ext. intros c. now rewrite append_assoc.
Qed.

Lemma normalize_entry_builtFrom (root : string) (kv : string * Node) (e : MenuEntry) :
  normalize_entry P W root kv = Ok e -> builtFrom P W root kv e.
Proof.
  destruct kv as [k v]. unfold normalize_entry, builtFrom. cbn [fst snd].
  destruct (truthy (node_href v)) eqn:Hhref.
  - intros H. injection H as <-. unfold entryKey. cbn [entry_page entry_nested option_map].
    repeat split. destruct (node_href v); [reflexivity | discriminate].
  - destruct (node_nested v) as [[children|level]|]; intros H.
    + apply bind_Ok in H as (submenu & Hsub & H). apply bind_Ok in H as (page & Hpage & H).
      injection H as <-. exists page. split; [exact Hpage|]. split; [reflexivity|].
      cbn [entry_nested]. clear -Hsub. revert submenu Hsub.
      induction children as [|c cs IH]; cbn [mapM]; intros submenu H.
      * injection H as <-. exists []. split; [reflexivity | constructor].
      * apply bind_Ok in H as (e & He & H). apply bind_Ok in H as (rest & Hrest & H).
        injection H as <-. apply bind_Ok in He as (pg & Hpg & He). injection He as <-.
        destruct (IH rest Hrest) as (pages & Hpages & Hall). injection Hpages as ->.
        exists (pg :: pages). split; [reflexivity | now constructor].
    + discriminate.
    + apply bind_Ok in H as (page & Hpage & H). injection H as <-.
      exists page. split; [exact Hpage|]. split; reflexivity.
Qed.

(** C8. The entries that [normalize] returns stand in the iteration order
    of the level: the entry at a position is the one built from the key at
    that position, and the nested entries of a section are the pages of
    its child keys in the order of its list.  On a platform whose
    separator is ["/"], for keys without ["/"] that give root-relative
    paths, the keys of the entries are the keys of the level in that
    order, and those of the nested entries the child keys: for the
    children [a, b, c] the keys [a, b, c]. *)
Theorem normalize_preserves_order (menu : Sitemap) (root : string) (out : list MenuEntry) :
  normalize P W menu root = Ok out ->
  Forall2 (builtFrom P W root) menu out
  /\ (sep P = slash ->
      plainKeys P root menu = true ->
      map entryKey out = map (fun kv => Some (fst kv)) menu
      /\ Forall2 (fun kv e =>
                    forall children,
                      truthy (node_href (snd kv)) = false ->
                      node_nested (snd kv) = Some (NList children) ->
                      exists submenu,
                        entry_nested e = Some submenu
                        /\ map entryKey submenu = map Some children)
                 menu out).
Proof.
  intros Hout. split.
  - unfold normalize in Hout. apply mapM_Ok in Hout.
    eapply Forall2_impl; [|exact Hout].
    intros kv e H. exact (normalize_entry_builtFrom root kv e H).
  - intros Hsep Hplain. now apply (normalize_keys menu root out).
Qed.

Lemma normalize_entry_shaped (root : string) (entry : string * Node) (e : MenuEntry) :
  normalize_entry P W root entry = Ok e -> shaped e = true.
Proof.
  destruct entry as [k v]. unfold normalize_entry.
  destruct (truthy (node_href v)); [intros H; now injection H as <-|].
  destruct (node_nested v) as [[children|level]|]; intros H.
  - apply bind_Ok in H as (submenu & Hsub & H). apply bind_Ok in H as (page & Hpage & H).
    injection H as <-. simpl. apply loadMenuPage_key in Hpage as [_ ->]. simpl.
    clear -Hsub. revert submenu Hsub.
    induction children as [|c cs IH]; simpl; intros submenu H.
    + now injection H as <-.
    + apply bind_Ok in H as (e & He & H). apply bind_Ok in H as (rest & Hrest & H).
      injection H as <-. apply bind_Ok in He as (page & _ & He). injection He as <-.
      simpl. now apply IH.
  - discriminate.
  - apply bind_Ok in H as (page & _ & H). now injection H as <-.
Qed.

(** The menus that [getProps] hands to [setPrevNext] are [shaped]. *)
Lemma normalize_shaped (menu : Sitemap) (root : string) (out : list MenuEntry) (t : jsval) :
  normalize P W menu root = Ok out ->
  forallb shaped [MkEntry (Some root) t None (Some out)] = true.
Proof.
  intros H. simpl. rewrite andb_true_r. revert out H. unfold normalize.
  induction menu as [|entry menu IH]; simpl; intros out H.
  - now injection H as <-.
  - apply bind_Ok in H as (e & He & H). apply bind_Ok in H as (rest & Hrest & H).
    injection H as <-. simpl. rewrite (normalize_entry_shaped _ _ _ He). now apply IH.
Qed.

Lemma children_leaves (a : string) (children : list string) (submenu : list MenuEntry) :
  mapM (fun l2 => page <- loadMenuPage P W (a +:+ l2) ;;
                  Ok (MkEntry None None (Some page) None)) children = Ok submenu ->
  exists pages, submenu = map leaf pages /\ forallb hasData pages = true.
Proof.
  revert submenu. induction children as [|c cs IH]; cbn [mapM]; intros submenu H.
  - injection H as <-. now exists [].
  - apply bind_Ok in H as (e & He & H). apply bind_Ok in H as (rest & Hrest & H).
    injection H as <-. apply bind_Ok in He as (pg & Hpg & He). injection He as <-.
    destruct (IH rest Hrest) as (pages & -> & Hpages).
    exists (pg :: pages). split; [reflexivity|].
    cbn [forallb]. rewrite Hpages, andb_true_r.
    unfold loadMenuPage in Hpg. apply bind_Ok in Hpg as (raw & _ & Hpg).
    now injection Hpg as <-.
Qed.

Lemma normalize_entry_item (root : string) (entry : string * Node) (e : MenuEntry) :
  normalize_entry P W root entry = Ok e ->
  exists i, e = entryOf i /\ wellFormed i = true.
Proof.
  destruct entry as [k v]. unfold normalize_entry.
  destruct (truthy (node_href v)).
  { intros H. injection H as <-. now eexists (ILeaf _). }
  destruct (node_nested v) as [[children|level]|]; intros H.
  - apply bind_Ok in H as (submenu & Hsub & H). apply bind_Ok in H as (pg & Hpg & H).
    injection H as <-.
    assert (Hsub' : mapM (fun l2 =>
              page <- loadMenuPage P W ((root +:+ "/" +:+ k +:+ "/") +:+ l2) ;;
              Ok (MkEntry None None (Some page) None)) children = Ok submenu).
    { rewrite <- Hsub. apply mapM_ext. intros c. now rewrite !append_assoc. }
    destruct (children_leaves _ _ _ Hsub') as (pages & -> & Hpages).
    exists (ISection pg pages). split; [reflexivity|].
    cbn [wellFormed]. rewrite Hpages, andb_true_r.
    unfold loadMenuPage in Hpg. apply bind_Ok in Hpg as (raw & _ & Hpg).
    now injection Hpg as <-.
  - discriminate.
  - apply bind_Ok in H as (pg & _ & H). injection H as <-. now exists (ILeaf pg).
Qed.

(** The entries of a normalized level are single entries and sections of
    single pages. *)
Lemma normalize_items (menu : Sitemap) (root : string) (out : list MenuEntry) :
  normalize P W menu root = Ok out ->
  exists items, out = map entryOf items /\ forallb wellFormed items = true.
Proof.
  unfold normalize. revert out.
  induction menu as [|entry menu IH]; cbn [mapM]; intros out H.
  - injection H as <-. now exists [].
  - apply bind_Ok in H as (e & He & H). apply bind_Ok in H as (rest & Hrest & H).
    injection H as <-.
    destruct (normalize_entry_item _ _ _ He) as (i & -> & Hi).
    destruct (IH rest Hrest) as (items & -> & Hitems).
    exists (i :: items). split; [reflexivity|]. cbn [forallb]. now rewrite Hi, Hitems.
Qed.

(** C3, as amended.  [normalize] does not recurse: at a key without [href]
    whose nested value is a further mapping the call throws and returns
    no entries, with the not-iterable error once the entries before it
    are built; nested entries come from list-shaped nesting only, one per
    child of the list under the index page of the section. *)
Theorem normalize_nested_mapping (menu : Sitemap) (root k : string) (v : Node)
        (level : Sitemap) :
  In (k, v) menu ->
  truthy (node_href v) = false ->
  node_nested v = Some (NMap level) ->
  (exists e, normalize P W menu root = Throw e)
  /\ (forall before after out,
        menu = before ++ (k, v) :: after ->
        normalize P W before root = Ok out ->
        normalize P W menu root = Throw notIterable)
  /\ (forall children index pages,
        mapM (fun l2 => loadMenuPage P W (root +:+ "/" +:+ k +:+ "/" +:+ l2)) children
        = Ok pages ->
        loadMenuPage P W (root +:+ "/" +:+ k) = Ok index ->
        normalize P W [(k, MkNode (node_href v) (node_title v) (Some (NList children)))] root
        = Ok [MkEntry None None (Some index) (Some (map leaf pages))]).
Proof.
  intros Hin Hhref Hnested.
  assert (Hentry : normalize_entry P W root (k, v) = Throw notIterable).
  { unfold normalize_entry. now rewrite Hhref, Hnested. }
  split; [|split].
  - unfold normalize. eapply mapM_In_Throw; eauto.
  - intros before after out -> Hbefore. unfold normalize in *.
    rewrite mapM_app, Hbefore. cbn [mapM bind]. now rewrite Hentry.
  - intros children index pages Hpages Hindex.
    destruct v as [h t n]. cbn [node_href node_title node_nested] in *.
    assert (Hsub : mapM (fun l2 =>
              page <- loadMenuPage P W (root +:+ "/" +:+ k +:+ "/" +:+ l2) ;;
              Ok (MkEntry None None (Some page) None)) children
            = Ok (map leaf pages)).
    { clear -Hpages. revert pages Hpages.
      induction children as [|c cs IH]; cbn [mapM]; intros pages H.
      - now injection H as <-.
      - apply bind_Ok in H as (pg & Hpg & H). apply bind_Ok in H as (rest & Hrest & H).
        injection H as <-. rewrite Hpg. cbn [bind]. now rewrite (IH rest Hrest). }
    unfold normalize. cbn [mapM normalize_entry node_href node_nested].
    rewrite Hhref, Hsub. cbn [bind]. rewrite Hindex. reflexivity.
Qed.

End Normalizer.

(** ** The path collector *)

Lemma Node_nested_ind (Q : Node -> Prop) :
  (forall h t, Q (MkNode h t None)) ->
  (forall h t ps, Q (MkNode h t (Some (NList ps)))) ->
  (forall h t level,
      Forall (fun kv => Q (snd kv)) level -> Q (MkNode h t (Some (NMap level)))) ->
  forall v, Q v.
Proof.
  intros Hleaf Hlist Hmap.
  fix IH 1. intros [h t [[ps|level]|]].
  - apply Hlist.
  - apply Hmap. induction level as [|[k v] level IHlevel]; constructor.
    + apply IH.
    + exact IHlevel.
  - apply Hleaf.
Qed.

(** The call on the object [child] that the source makes for a child of a
    list. *)
Lemma collectPaths_child (p prefix : string) :
  collectPaths (childObject p) prefix
  = if String.eqb p "__proto__" then [] else [prefix +:+ "/" +:+ p].
Proof. unfold childObject. now destruct (String.eqb p "__proto__"). Qed.

Lemma collectPaths_entry_eq (k : string) (v : Node) (prefix : string) :
  collectPaths_entry k v prefix
  = (if negb (truthy (node_href v)) then [prefix +:+ "/" +:+ k] else [])
    ++ match node_nested v with
       | Some (NList ps) =>
           flat_map (fun p => collectPaths (childObject p) (prefix +:+ "/" +:+ k)) ps
       | Some (NMap level) => collectPaths level (prefix +:+ "/" +:+ k)
       | None => []
       end.
Proof.
  destruct v as [h t [[ps|level]|]]; cbn [collectPaths_entry node_href node_nested];
    apply (f_equal2 (@app string)); try reflexivity.
  - apply flat_map_ext. intros p. now rewrite collectPaths_child.
  - induction level as [|[k' v'] level IH]; [reflexivity|].
    cbn [collectPaths]. now rewrite <- IH.
Qed.

Lemma ordinaryChildren_entry_eq (v : Node) :
  ordinaryChildren_entry v
  = match node_nested v with
    | Some (NList ps) => forallb ordinaryName ps
    | Some (NMap level) => ordinaryChildren level
    | None => true
    end.
Proof.
  now destruct v as [h t [[ps|level]|]].
Qed.

Lemma nodes_entry_eq (above : list string) (k : string) (v : Node) :
  nodes_entry above k v
  = (above ++ [k], v)
    :: match node_nested v with
       | Some (NList ps) => map (fun p => (above ++ [k; p], emptyNode)) ps
       | Some (NMap level) => nodes (above ++ [k]) level
       | None => []
       end.
Proof.
  destruct v as [h t [[ps|level]|]]; cbn [nodes_entry node_nested]; f_equal.
  induction level as [|[k' v'] level IH]; [reflexivity|].
  cbn [nodes]. now rewrite <- IH.
Qed.

Lemma slugOf_app (above : list string) (k : string) :
  slugOf (above ++ [k]) = slugOf above +:+ "/" +:+ k.
Proof.
  induction above as [|a above IH]; cbn [slugOf app].
  - simpl. now rewrite append_empty_r.
  - rewrite IH. change ("/" +:+ a +:+ slugOf above +:+ "/" +:+ k)
      with (String "/" (a +:+ slugOf above +:+ "/" +:+ k)).
    change (("/" +:+ a +:+ slugOf above) +:+ "/" +:+ k)
      with (String "/" ((a +:+ slugOf above) +:+ "/" +:+ k)).
    now rewrite append_assoc.
Qed.

Lemma filter_routable_cons (keys : list string) (v : Node)
      (rest : list (list string * Node)) :
  filter routable ((keys, v) :: rest)
  = (if negb (truthy (node_href v)) then [(keys, v)] else []) ++ filter routable rest.
Proof.
  cbn [filter]. unfold routable at 1. cbn [snd].
  now destruct (negb (truthy (node_href v))).
Qed.

Lemma collectPaths_children (above : list string) (k : string) (ps : list string) :
  forallb ordinaryName ps = true ->
  flat_map (fun p => collectPaths (childObject p) (slugOf (above ++ [k]))) ps
  = map (fun n => slugOf (fst n))
        (filter routable (map (fun p => (above ++ [k; p], emptyNode)) ps)).
Proof.
  induction ps as [|p ps IH]; [reflexivity|].
  cbn [forallb]. intros H. apply andb_true_iff in H as [Hp Hps].
  cbn [flat_map map]. rewrite filter_routable_cons, map_app, <- (IH Hps). f_equal.
  cbn [emptyNode node_href truthy negb map fst].
  change (above ++ [k; p]) with (above ++ [k] ++ [p]).
  rewrite app_assoc, (slugOf_app (above ++ [k]) p), collectPaths_child.
  unfold ordinaryName in Hp. apply negb_true_iff in Hp. now rewrite Hp.
Qed.

Lemma collectPaths_entry_nodes (v : Node) :
  forall above k,
    ordinaryChildren_entry v = true ->
    collectPaths_entry k v (slugOf above)
    = map (fun n => slugOf (fst n)) (filter routable (nodes_entry above k v)).
Proof.
  induction v as [h t|h t ps|h t level IH] using Node_nested_ind; intros above k Hord;
    rewrite ordinaryChildren_entry_eq in Hord;
    rewrite collectPaths_entry_eq, nodes_entry_eq, filter_routable_cons, map_app,
            <- slugOf_app;
    cbn [node_href node_nested] in *;
    (apply (f_equal2 (@app string)); [now destruct (negb (truthy h))|]).
  - reflexivity.
  - now apply collectPaths_children.
  - revert Hord. induction IH as [|[k' v'] level Hv _ IHlevel]; [reflexivity|].
    cbn [ordinaryChildren]. intros H. apply andb_true_iff in H as [Hv' Hlevel].
    cbn [collectPaths nodes]. rewrite filter_app, map_app, <- (IHlevel Hlevel). f_equal.
    now apply Hv.
Qed.

Lemma collectPaths_nodes (level : Sitemap) (above : list string) :
  ordinaryChildren level = true ->
  collectPaths level (slugOf above)
  = map (fun n => slugOf (fst n)) (filter routable (nodes above level)).
Proof.
  induction level as [|[k v] level IH]; [reflexivity|].
  cbn [ordinaryChildren]. intros H. apply andb_true_iff in H as [Hv Hlevel].
  cbn [collectPaths nodes].
  now rewrite filter_app, map_app, (IH Hlevel), collectPaths_entry_nodes.
Qed.

(** Whatever the children are called, a collected path is the slug of a
    node without [href]. *)
Lemma collectPaths_children_sub (above : list string) (k : string) (ps : list string)
      (x : string) :
  In x (flat_map (fun p => collectPaths (childObject p) (slugOf (above ++ [k]))) ps) ->
  In x (map (fun n => slugOf (fst n))
            (filter routable (map (fun p => (above ++ [k; p], emptyNode)) ps))).
Proof.
  induction ps as [|p ps IH]; [easy|].
  cbn [flat_map map]. rewrite filter_routable_cons, map_app, !in_app_iff.
  intros [H|H]; [left | right; now apply IH].
  rewrite collectPaths_child in H.
  destruct (String.eqb p "__proto__"); [easy|].
  cbn [emptyNode node_href truthy negb map fst].
  change (above ++ [k; p]) with (above ++ [k] ++ [p]).
  now rewrite app_assoc, (slugOf_app (above ++ [k]) p).
Qed.

Lemma collectPaths_entry_sub (v : Node) :
  forall above k x,
    In x (collectPaths_entry k v (slugOf above)) ->
    In x (map (fun n => slugOf (fst n)) (filter routable (nodes_entry above k v))).
Proof.
  induction v as [h t|h t ps|h t level IH] using Node_nested_ind; intros above k x;
    rewrite collectPaths_entry_eq, nodes_entry_eq, filter_routable_cons, map_app,
            <- slugOf_app, !in_app_iff;
    cbn [node_href node_nested];
    (intros [H|H]; [left; now destruct (negb (truthy h)) | right]).
  - exact H.
  - now apply collectPaths_children_sub.
  - revert H. induction IH as [|[k' v'] level Hv _ IHlevel]; [easy|].
    cbn [collectPaths nodes]. rewrite filter_app, map_app, !in_app_iff.
    intros [H|H]; [left; now apply Hv | right; now apply IHlevel].
Qed.

Lemma collectPaths_sub (level : Sitemap) (above : list string) (x : string) :
  In x (collectPaths level (slugOf above)) ->
  In x (map (fun n => slugOf (fst n)) (filter routable (nodes above level))).
Proof.
  induction level as [|[k v] level IH]; [easy|].
  cbn [collectPaths nodes]. rewrite filter_app, map_app, !in_app_iff.
  intros [H|H]; [left; now apply collectPaths_entry_sub | right; now apply IH].
Qed.

Lemma split_slugOf (keys : list string) :
  split "/" (slugOf keys) = "" :: flat_map (split "/") keys.
Proof.
  induction keys as [|k keys IH]; [reflexivity|].
  cbn [slugOf flat_map].
  change ("/" +:+ k +:+ slugOf keys) with ("" +:+ String "/" (k +:+ slugOf keys)).
  rewrite split_app. cbn [split app]. f_equal.
  destruct keys as [|k' keys].
  - cbn [slugOf flat_map]. rewrite app_nil_r. f_equal.
    clear. induction k as [|a k IHk]; simpl; [reflexivity | now rewrite IHk].
  - cbn [slugOf] in *.
    change (k +:+ "/" +:+ k' +:+ slugOf keys) with (k +:+ String "/" (k' +:+ slugOf keys)).
    rewrite split_app. f_equal.
    change ("/" +:+ k' +:+ slugOf keys) with ("" +:+ String "/" (k' +:+ slugOf keys)) in IH.
    rewrite split_app in IH. cbn [split app] in IH. now injection IH.
Qed.

Lemma flat_map_split_plain (keys : list string) :
  Forall (fun k => lacks "/" k = true) keys -> flat_map (split "/") keys = keys.
Proof.
  induction 1 as [|k keys Hk _ IH]; [reflexivity|].
  cbn [flat_map]. now rewrite (split_lacks _ _ Hk), IH.
Qed.

(** C2, as amended.  For a sitemap in which no child of a nested list is
    named [__proto__], [getMenuPaths] returns [{ paths, fallback: false }]
    with one entry for every node of the sitemap that has no [href], in
    the order of the nodes and nothing for a node with an [href]; the
    nodes are the entries of the mapping, of every nested mapping and the
    children of every nested list.  The entry of a node is its slug, the
    keys that lead to it each after a ["/"], split at ["/"] without the
    first piece; that piece is the empty one before the leading ["/"], so
    the segments start with the top-level key. *)
Theorem getMenuPaths_routable (menu : Sitemap) :
  ordinaryChildren menu = true ->
  getMenuPaths menu
  = {| paths := map (fun n => {| params_slug := tl (split "/" (slugOf (fst n))) |})
                    (filter routable (nodes [] menu));
       fallback := false |}
  /\ (forall keys, tl (split "/" (slugOf keys)) = flat_map (split "/") keys)
  /\ (forall keys,
        Forall (fun k => lacks "/" k = true) keys ->
        tl (split "/" (slugOf keys)) = keys).
Proof.
  intros Hord. split; [|split].
  - unfold getMenuPaths. f_equal.
    change "" with (slugOf []). now rewrite collectPaths_nodes, map_map.
  - intros keys. now rewrite split_slugOf.
  - intros keys Hplain. rewrite split_slugOf. now apply flat_map_split_plain.
Qed.

(** ** The prev/next linker *)

Lemma MenuEntry_nested_ind (Q : MenuEntry -> Prop) :
  (forall k t p, Q (MkEntry k t p None)) ->
  (forall k t p menu, Forall Q menu -> Q (MkEntry k t p (Some menu))) ->
  forall e, Q e.
Proof.
  intros Hleaf Hnested.
  fix IH 1. intros [k t p [menu|]].
  - apply Hnested. induction menu as [|e menu IHmenu]; constructor.
    + apply IH.
    + exact IHmenu.
  - apply Hleaf.
Qed.

(** Induction on menus: an entry with nested entries is reached from its
    nested menu and from the entries after it. *)
Lemma menu_nested_ind (Q : list MenuEntry -> Prop) :
  Q [] ->
  (forall k t p rest, Q rest -> Q (MkEntry k t p None :: rest)) ->
  (forall k t p menu rest, Q menu -> Q rest -> Q (MkEntry k t p (Some menu) :: rest)) ->
  forall menu, Q menu.
Proof.
  intros Hnil Hleaf Hnested.
  assert (Hentry : forall e rest, Q rest -> Q (e :: rest)).
  { induction e as [k t p|k t p menu IH] using MenuEntry_nested_ind; intros rest Hrest.
    - now apply Hleaf.
    - apply Hnested; [|exact Hrest].
      induction IH as [|e menu He _ IHmenu]; [exact Hnil | now apply He]. }
  induction menu as [|e menu IH]; [exact Hnil | now apply Hentry].
Qed.

Section EachPageFacts.

Context {S : Type}.
Variable f : MenuPage.t -> option MenuPage.t -> S -> S.

Lemma eachPage_entry_eq (k t : jsval) (page : option MenuPage.t)
      (nested : option (list MenuEntry)) (prev prevSection : option MenuPage.t) (s : S) :
  eachPage_entry f (MkEntry k t page nested) prev prevSection s
  = let prev' := cursorAfter (MkEntry k t page nested) prev in
    let s' := match page with
              | Some p => if hasData p then f p (cursor prev prevSection) s else s
              | None => s
              end in
    (prev', match nested with
            | Some menu => eachPage f menu page prev' s'
            | None => s'
            end).
Proof.
  assert (Hloop : forall prevS menu prev0 s0,
             (fix loop (menu : list MenuEntry) (prev0 : option MenuPage.t) (s0 : S) : S :=
                match menu with
                | [] => s0
                | e :: rest =>
                    let '(prev1, s1) := eachPage_entry f e prev0 prevS s0 in
                    loop rest prev1 s1
                end) menu prev0 s0
             = eachPage f menu prev0 prevS s0).
  { intros prevS menu. induction menu as [|e menu IH]; intros prev0 s0; [reflexivity|].
    cbn [eachPage]. destruct (eachPage_entry f e prev0 prevS s0). apply IH. }
  unfold cursorAfter, hasData. cbn [entry_page eachPage_entry].
  destruct page as [p|]; [destruct (MenuPage.data p)|]; destruct nested as [menu|];
    cbv zeta; f_equal; apply Hloop.
Qed.

End EachPageFacts.

Lemma eachPage_cons {S : Type} (f : MenuPage.t -> option MenuPage.t -> S -> S)
      (k t : jsval) (page : option MenuPage.t) (nested : option (list MenuEntry))
      (rest : list MenuEntry) (prev prevSection : option MenuPage.t) (s : S) :
  eachPage f (MkEntry k t page nested :: rest) prev prevSection s
  = let prev' := cursorAfter (MkEntry k t page nested) prev in
    let s' := match page with
              | Some p => if hasData p then f p (cursor prev prevSection) s else s
              | None => s
              end in
    eachPage f rest prev' prevSection
             match nested with
             | Some menu => eachPage f menu page prev' s'
             | None => s'
             end.
Proof. cbn [eachPage]. now rewrite eachPage_entry_eq. Qed.

(** Two callbacks that keep a relation between their states keep it over
    the whole traversal. *)
Lemma eachPage_rel {S1 S2 : Type}
      (f1 : MenuPage.t -> option MenuPage.t -> S1 -> S1)
      (f2 : MenuPage.t -> option MenuPage.t -> S2 -> S2)
      (R : S1 -> S2 -> Prop) :
  (forall p c s1 s2, R s1 s2 -> R (f1 p c s1) (f2 p c s2)) ->
  forall menu prev prevSection s1 s2,
    R s1 s2 ->
    R (eachPage f1 menu prev prevSection s1) (eachPage f2 menu prev prevSection s2).
Proof.
  intros Hf menu.
  induction menu as [|k t p rest IH|k t p menu rest IHmenu IH] using menu_nested_ind;
    intros prev prevSection s1 s2 HR.
  - exact HR.
  - rewrite !eachPage_cons. cbv zeta. apply IH.
    destruct p as [p|]; [destruct (hasData p)|]; auto.
  - rewrite !eachPage_cons. cbv zeta. apply IH, IHmenu.
    destruct p as [p|]; [destruct (hasData p)|]; auto.
Qed.

Lemma eachPage_record (menu : list MenuEntry) (prev prevSection : option MenuPage.t)
      (acc : list (MenuPage.t * option MenuPage.t)) :
  eachPage record menu prev prevSection acc = acc ++ calls menu prev prevSection.
Proof.
  unfold calls.
  apply (eachPage_rel record record (fun a1 a2 => a1 = acc ++ a2)).
  - intros p c a1 a2 ->. unfold record. now rewrite app_assoc.
  - now rewrite app_nil_r.
Qed.

(** The callback acts on the recorded calls one after the other. *)
Lemma eachPage_calls {S : Type} (f : MenuPage.t -> option MenuPage.t -> S -> S)
      (menu : list MenuEntry) (prev prevSection : option MenuPage.t) (s : S) :
  eachPage f menu prev prevSection s
  = fold_left (fun s call => f (fst call) (snd call) s) (calls menu prev prevSection) s.
Proof.
  unfold calls.
  apply (eachPage_rel f record
           (fun s1 acc => s1 = fold_left (fun s call => f (fst call) (snd call) s) acc s)).
  - intros p c s1 acc ->. unfold record. now rewrite fold_left_app.
  - reflexivity.
Qed.

Lemma calls_cons (k t : jsval) (page : option MenuPage.t)
      (nested : option (list MenuEntry)) (rest : list MenuEntry)
      (prev prevSection : option MenuPage.t) :
  calls (MkEntry k t page nested :: rest) prev prevSection
  = match page with
    | Some p => if hasData p then [(p, cursor prev prevSection)] else []
    | None => []
    end
    ++ match nested with
       | Some menu => calls menu page (cursorAfter (MkEntry k t page nested) prev)
       | None => []
       end
    ++ calls rest (cursorAfter (MkEntry k t page nested) prev) prevSection.
Proof.
  unfold calls at 1. rewrite eachPage_cons. cbv zeta.
  rewrite eachPage_record.
  destruct nested as [menu|]; [rewrite eachPage_record|];
    (destruct page as [p|]; [destruct (hasData p)|]); reflexivity.
Qed.

Lemma calls_visited (menu : list MenuEntry) :
  forall prev prevSection, map fst (calls menu prev prevSection) = visited menu.
Proof.
  induction menu as [|k t p rest IH|k t p menu rest IHmenu IH] using menu_nested_ind;
    intros prev prevSection.
  - reflexivity.
  - rewrite calls_cons, !map_app, IH. unfold visited. cbn [flat_map visited_entry].
    rewrite app_nil_r. f_equal.
    destruct p as [p|]; [unfold hasData; destruct (MenuPage.data p)|]; reflexivity.
  - rewrite calls_cons, !map_app, IH, IHmenu. unfold visited.
    cbn [flat_map visited_entry]. rewrite <- app_assoc. f_equal.
    destruct p as [p|]; [unfold hasData; destruct (MenuPage.data p)|]; reflexivity.
Qed.

Lemma setPrevNext_calls (page : Page.t) (menu : list MenuEntry) :
  setPrevNext page menu = snd (fold_left visitCall (calls menu None None) (false, page)).
Proof. unfold setPrevNext. now rewrite eachPage_calls. Qed.

Lemma visit_other (p : MenuPage.t) (c : option MenuPage.t) (page : Page.t) :
  MenuPage.href p <> Page.href page ->
  visit p c (false, page) = (false, page)
  /\ visit p c (true, page) = (false, set_next page (linkTo p)).
Proof.
  intros H. apply String.eqb_neq in H. unfold visit. now rewrite H.
Qed.

Lemma visit_match (p : MenuPage.t) (c : option MenuPage.t) (d : bool) (page : Page.t) :
  MenuPage.href p = Page.href page ->
  visit p c (d, page) = (true, linkPrev page c).
Proof.
  intros H. apply String.eqb_eq in H. unfold visit, linkPrev. rewrite H.
  destruct c as [q|]; [destruct (truthy (MenuPage.title q))|]; reflexivity.
Qed.

Lemma fold_others (page : Page.t) (l : list (MenuPage.t * option MenuPage.t)) :
  others page l -> fold_left visitCall l (false, page) = (false, page).
Proof.
  induction 1 as [|[p c] l Hp _ IH]; [reflexivity|].
  cbn [fold_left]. unfold visitCall at 2. cbn [fst snd].
  destruct (visit_other p c page Hp) as [-> _]. exact IH.
Qed.

Lemma fold_after_match (page : Page.t) (l : list (MenuPage.t * option MenuPage.t)) :
  others page l ->
  snd (fold_left visitCall l (true, page)) = linkNext page (map fst l).
Proof.
  intros H. destruct H as [|[p c] l Hp Hl]; [reflexivity|].
  cbn [fold_left map fst linkNext]. unfold visitCall at 2. cbn [fst snd].
  destruct (visit_other p c page Hp) as [_ ->].
  now rewrite (fold_others (set_next page (linkTo p)) l Hl).
Qed.

(** The links of a page that matches exactly one call. *)
Lemma fold_single_match (page : Page.t) (t : MenuPage.t) (c : option MenuPage.t)
      (before after : list (MenuPage.t * option MenuPage.t)) :
  MenuPage.href t = Page.href page ->
  others page before -> others page after ->
  snd (fold_left visitCall (before ++ (t, c) :: after) (false, page))
  = linkNext (linkPrev page c) (map fst after).
Proof.
  intros Ht Hbefore Hafter.
  rewrite fold_left_app, (fold_others page before Hbefore). cbn [fold_left].
  unfold visitCall at 2. cbn [fst snd]. rewrite (visit_match t c false page Ht).
  apply fold_after_match.
  unfold others in *. unfold linkPrev.
  destruct c as [q|]; [destruct (truthy (MenuPage.title q))|]; exact Hafter.
Qed.

Lemma cursor_prev (prev prevSection : option MenuPage.t) : cursor prev prevSection = prev.
Proof. now destruct prev, prevSection. Qed.

Lemma calls_prevSection (menu : list MenuEntry) :
  forall prev prevSection prevSection',
    calls menu prev prevSection = calls menu prev prevSection'.
Proof.
  induction menu as [|k t p rest IH|k t p menu rest IHmenu IH] using menu_nested_ind;
    intros prev ps ps'.
  - reflexivity.
  - now rewrite !calls_cons, !cursor_prev, (IH _ ps ps').
  - now rewrite !calls_cons, !cursor_prev, (IH _ ps ps').
Qed.

Lemma last_cons {A : Type} (x d : A) (l : list A) : last (x :: l) d = last l x.
Proof.
  revert x d. induction l as [|y l IH]; intros x d; [reflexivity|].
  change (last (x :: y :: l) d) with (last (y :: l) d). now rewrite !IH.
Qed.

Lemma visited_leaves (pages : list MenuPage.t) :
  Forall (fun p => hasData p = true) pages -> visited (map leaf pages) = pages.
Proof.
  induction 1 as [|p pages Hp _ IH]; [reflexivity|].
  unfold visited in *. cbn [map flat_map leaf visited_entry]. rewrite IH.
  unfold hasData in Hp. now destruct (MenuPage.data p).
Qed.

Lemma calls_leaf_cons (p : MenuPage.t) (rest : list MenuEntry)
      (prev prevSection : option MenuPage.t) :
  hasData p = true ->
  calls (leaf p :: rest) prev prevSection = (p, prev) :: calls rest (Some p) prevSection.
Proof.
  intros Hp. unfold leaf. rewrite calls_cons, Hp, cursor_prev. unfold cursorAfter.
  cbn [entry_page]. now rewrite Hp.
Qed.

(** The calls for a level of single pages: every page is handed the page
    before it, the first one the incoming cursor. *)
Lemma calls_leaves (front : list MenuPage.t) (t : MenuPage.t) (back : list MenuPage.t) :
  Forall (fun p => hasData p = true) (front ++ t :: back) ->
  forall prev prevSection,
    calls (map leaf (front ++ t :: back)) prev prevSection
    = calls (map leaf front) prev prevSection
      ++ (t, last (map Some front) prev) :: calls (map leaf back) (Some t) prevSection.
Proof.
  induction front as [|a front IH]; intros Hdata prev ps.
  - apply Forall_inv in Hdata. cbn [app map]. now rewrite calls_leaf_cons.
  - cbn [app map] in *. pose proof (Forall_inv Hdata) as Ha. apply Forall_inv_tail in Hdata.
    rewrite !calls_leaf_cons, (IH Hdata); auto. cbn [app].
    now rewrite (last_cons (Some a)).
Qed.

Lemma others_visited (page : Page.t) (l : list (MenuPage.t * option MenuPage.t)) :
  (forall q, In q (map fst l) -> MenuPage.href q <> Page.href page) -> others page l.
Proof.
  intros H. apply Forall_forall. intros call Hin. apply H. now apply in_map.
Qed.

(** The links of a page that matches exactly one visited page. *)
Lemma setPrevNext_single_match (page : Page.t) (menu : list MenuEntry)
      (front : list MenuPage.t) (t : MenuPage.t) (back : list MenuPage.t) :
  visited menu = front ++ t :: back ->
  MenuPage.href t = Page.href page ->
  (forall q, In q (front ++ back) -> MenuPage.href q <> Page.href page) ->
  exists before c after,
    calls menu None None = before ++ (t, c) :: after
    /\ map fst before = front /\ map fst after = back
    /\ setPrevNext page menu = linkNext (linkPrev page c) back.
Proof.
  intros Hvisited Ht Hothers.
  rewrite <- (calls_visited menu None None) in Hvisited.
  apply map_eq_app in Hvisited as (before & l2 & Hcalls & Hbefore & Hl2).
  apply map_eq_cons in Hl2 as ([t' c] & after & -> & Ht' & Hafter).
  cbn [fst] in Ht'. subst t'.
  exists before, c, after. repeat split; auto.
  rewrite setPrevNext_calls, Hcalls, <- Hafter.
  apply fold_single_match; [exact Ht| |]; apply others_visited; intros q Hq;
    apply Hothers, in_or_app; subst; auto.
Qed.

Lemma setPrevNext_linear (page : Page.t)
      (front : list MenuPage.t) (t : MenuPage.t) (back : list MenuPage.t) :
  Forall (fun p => hasData p = true) (front ++ t :: back) ->
  MenuPage.href t = Page.href page ->
  (forall q, In q (front ++ back) -> MenuPage.href q <> Page.href page) ->
  setPrevNext page (map leaf (front ++ t :: back))
  = linkNext (linkPrev page (last (map Some front) None)) back.
Proof.
  intros Hdata Ht Hothers.
  destruct (proj1 (Forall_app _ _ _) Hdata) as [Hfront Hback].
  apply Forall_inv_tail in Hback.
  rewrite setPrevNext_calls, (calls_leaves front t back Hdata).
  rewrite fold_single_match; auto.
  - now rewrite calls_visited, visited_leaves.
  - apply others_visited. rewrite calls_visited, visited_leaves; auto.
    intros q Hq. apply Hothers, in_or_app. auto.
  - apply others_visited. rewrite calls_visited, visited_leaves; auto.
    intros q Hq. apply Hothers, in_or_app. auto.
Qed.

(** The root entry of [getProps] has no page: its nested menu is traversed
    as if it were the menu. *)
Lemma setPrevNext_root (page : Page.t) (k t : jsval) (menu : list MenuEntry) :
  setPrevNext page [MkEntry k t None (Some menu)] = setPrevNext page menu.
Proof.
  rewrite !setPrevNext_calls, calls_cons. unfold cursorAfter. cbn [entry_page app].
  now rewrite app_nil_r.
Qed.

(** A section of single pages is traversed like the linear menu of its page
    and its children. *)
Lemma setPrevNext_section (page : Page.t) (k t : jsval) (index : MenuPage.t)
      (children : list MenuPage.t) :
  hasData index = true ->
  setPrevNext page [MkEntry k t (Some index) (Some (map leaf children))]
  = setPrevNext page (map leaf (index :: children)).
Proof.
  intros Hindex. rewrite !setPrevNext_calls. cbn [map].
  rewrite calls_leaf_cons, calls_cons, Hindex; auto. unfold cursorAfter.
  cbn [entry_page]. rewrite Hindex, cursor_prev. cbn [app]. rewrite app_nil_r.
  now rewrite (calls_prevSection (map leaf children) (Some index) (Some index) None).
Qed.

(** *** The entries of a normalized level *)

Lemma cursorAfterAll_app (m1 m2 : list MenuEntry) (prev : option MenuPage.t) :
  cursorAfterAll (m1 ++ m2) prev = cursorAfterAll m2 (cursorAfterAll m1 prev).
Proof. apply fold_left_app. Qed.

Lemma calls_app (m1 m2 : list MenuEntry) :
  forall prev prevSection,
    calls (m1 ++ m2) prev prevSection
    = calls m1 prev prevSection ++ calls m2 (cursorAfterAll m1 prev) prevSection.
Proof.
  induction m1 as [|[k t p n] m1 IH]; intros prev ps.
  - reflexivity.
  - cbn [app]. rewrite !calls_cons, IH.
    change (cursorAfterAll (MkEntry k t p n :: m1) prev)
      with (cursorAfterAll m1 (cursorAfter (MkEntry k t p n) prev)).
    now rewrite <- !app_assoc.
Qed.

Lemma visited_app (m1 m2 : list MenuEntry) :
  visited (m1 ++ m2) = visited m1 ++ visited m2.
Proof. apply flat_map_app. Qed.

Lemma forallb_Forall {A : Type} (f : A -> bool) (l : list A) :
  forallb f l = true -> Forall (fun x => f x = true) l.
Proof. intros H. apply Forall_forall. now apply forallb_forall. Qed.

Lemma last_app_cons {A : Type} (l r : list A) (x d : A) :
  last (l ++ x :: r) d = last r x.
Proof.
  revert d. induction l as [|y l IH]; intros d.
  - apply last_cons.
  - cbn [app]. rewrite last_cons. apply IH.
Qed.

(** The calls for an entry of a level: its page with the incoming cursor,
    then its children and the entries behind it. *)
Lemma calls_entryOf (i : Item) (rest : list MenuEntry) (prev prevSection : option MenuPage.t) :
  wellFormed i = true ->
  hasData (itemPage i) = true ->
  exists more,
    calls (entryOf i :: rest) prev prevSection = (itemPage i, prev) :: more
    /\ map fst more = itemChildren i ++ visited rest.
Proof.
  destruct i as [p|p children]; cbn [wellFormed itemPage itemChildren entryOf]; intros Hwf Hp.
  - exists (calls rest (Some p) prevSection).
    split; [now apply calls_leaf_cons | apply calls_visited].
  - apply andb_true_iff in Hwf as [_ Hchildren].
    rewrite calls_cons, Hp, cursor_prev. cbn [app]. eexists. split; [reflexivity|].
    rewrite map_app, !calls_visited, visited_leaves; [reflexivity|].
    now apply forallb_Forall.
Qed.

(** The calls for a section: its page, its children one after the other,
    each with the page before it, and the entries behind the section. *)
Lemma calls_section (index : MenuPage.t) (c1 : list MenuPage.t) (t : MenuPage.t)
      (c2 : list MenuPage.t) (rest : list MenuEntry) (prev prevSection : option MenuPage.t) :
  wellFormed (ISection index (c1 ++ t :: c2)) = true ->
  exists before after,
    calls (entryOf (ISection index (c1 ++ t :: c2)) :: rest) prev prevSection
    = before ++ (t, Some (last c1 index)) :: after
    /\ map fst before = index :: c1
    /\ map fst after = c2 ++ visited rest.
Proof.
  cbn [wellFormed entryOf]. intros Hwf. apply andb_true_iff in Hwf as [Hindex Hchildren].
  apply forallb_Forall in Hchildren.
  destruct (proj1 (Forall_app _ _ _) Hchildren) as [Hc1 Hc2]. apply Forall_inv_tail in Hc2.
  rewrite calls_cons, Hindex, cursor_prev. cbn [app].
  rewrite (calls_leaves c1 t c2 Hchildren), <- app_assoc. cbn [app].
  exists ((index, prev) :: calls (map leaf c1) (Some index)
                                 (cursorAfter (MkEntry None None (Some index)
                                                 (Some (map leaf (c1 ++ t :: c2)))) prev)).
  eexists. split; [|split].
  - cbn [app]. do 3 f_equal.
    clear. induction c1 as [|a c1 IH]; [reflexivity|].
    cbn [map]. rewrite !last_cons.
    destruct c1 as [|b c1]; [reflexivity|]. cbn [map] in *. rewrite !last_cons in *.
    rewrite <- (IH). clear IH. revert b. induction c1 as [|c c1 IH]; intros b; [reflexivity|].
    cbn [map]. rewrite !last_cons. apply IH.
  - cbn [map fst]. now rewrite calls_visited, visited_leaves.
  - now rewrite map_app, !calls_visited, visited_leaves.
Qed.

Lemma visited_entryOf (i : Item) :
  wellFormed i = true ->
  hasData (itemPage i) = true ->
  visited_entry (entryOf i) = itemPage i :: itemChildren i.
Proof.
  destruct i as [p|p children]; cbn [wellFormed itemPage itemChildren entryOf];
    intros Hwf Hp; unfold leaf; cbn [visited_entry]; unfold hasData in Hp;
    destruct (MenuPage.data p); try discriminate; [reflexivity|].
  apply andb_true_iff in Hwf as [_ Hchildren]. cbn [app]. f_equal.
  apply (visited_leaves children). now apply forallb_Forall.
Qed.

(** Behind entries that do not end in the children of a section, the local
    [prev] of [eachPage] is the page visited last. *)
Lemma cursorAfterAll_items (before : list Item) :
  forallb wellFormed before = true ->
  endsOutsideSection before = true ->
  cursorAfterAll (map entryOf before) None
  = last (map Some (visited (map entryOf before))) None.
Proof.
  induction before as [|i before IH] using rev_ind; [reflexivity|].
  rewrite forallb_app. cbn [forallb]. rewrite andb_true_r.
  intros Hwf. apply andb_true_iff in Hwf as [Hbefore Hi].
  unfold endsOutsideSection. rewrite fold_left_app. cbn [fold_left].
  fold (endsOutsideSection before).
  rewrite map_app, cursorAfterAll_app, visited_app, map_app. cbn [map].
  unfold cursorAfterAll at 1. cbn [fold_left]. unfold visited at 2. cbn [flat_map].
  rewrite app_nil_r.
  destruct i as [p|p [|c children]]; cbn [wellFormed entryOf] in *.
  - unfold cursorAfter, leaf. cbn [entry_page visited_entry]. unfold hasData.
    destruct (MenuPage.data p).
    + intros _. cbn [app map]. now rewrite last_app_singleton.
    + intros Hends. cbn [app map]. rewrite app_nil_r. now apply IH.
  - intros _. apply andb_true_iff in Hi as [Hp _].
    unfold cursorAfter. cbn [entry_page visited_entry map flat_map]. rewrite Hp.
    unfold hasData in Hp. destruct (MenuPage.data p); [|discriminate].
    cbn [app map]. now rewrite last_app_singleton.
  - discriminate.
Qed.

(** The links of the page of an entry of a level that does not follow the
    children of a section. *)
Lemma setPrevNext_item (page : Page.t) (before : list Item) (i : Item) (after : list Item) :
  forallb wellFormed (before ++ i :: after) = true ->
  hasData (itemPage i) = true ->
  endsOutsideSection before = true ->
  MenuPage.href (itemPage i) = Page.href page ->
  (forall q, In q (visited (map entryOf before)
                   ++ itemChildren i ++ visited (map entryOf after)) ->
             MenuPage.href q <> Page.href page) ->
  visited (map entryOf (before ++ i :: after))
  = visited (map entryOf before)
    ++ itemPage i :: itemChildren i ++ visited (map entryOf after)
  /\ setPrevNext page (map entryOf (before ++ i :: after))
     = linkNext (linkPrev page (last (map Some (visited (map entryOf before))) None))
                (itemChildren i ++ visited (map entryOf after)).
Proof.
  rewrite forallb_app. cbn [forallb]. intros Hwf Hp Hends Ht Hothers.
  apply andb_true_iff in Hwf as [Hbefore Hwf]. apply andb_true_iff in Hwf as [Hi Hafter].
  rewrite map_app. cbn [map]. split.
  - rewrite visited_app. f_equal. unfold visited at 1. cbn [flat_map].
    now rewrite (visited_entryOf i Hi Hp).
  - rewrite setPrevNext_calls, calls_app.
    destruct (calls_entryOf i (map entryOf after)
                (cursorAfterAll (map entryOf before) None) None Hi Hp)
      as (more & -> & Hmore).
    rewrite (cursorAfterAll_items before Hbefore Hends).
    rewrite fold_single_match; [now rewrite Hmore|exact Ht| |].
    + apply others_visited. rewrite calls_visited. intros q Hq.
      apply Hothers, in_or_app. now left.
    + apply others_visited. rewrite Hmore. intros q Hq.
      apply Hothers, in_or_app. now right.
Qed.

(** The links of a child of a section. *)
Lemma setPrevNext_child (page : Page.t) (before : list Item) (index : MenuPage.t)
      (c1 : list MenuPage.t) (t : MenuPage.t) (c2 : list MenuPage.t) (after : list Item) :
  forallb wellFormed (before ++ ISection index (c1 ++ t :: c2) :: after) = true ->
  MenuPage.href t = Page.href page ->
  (forall q, In q ((visited (map entryOf before) ++ index :: c1)
                   ++ c2 ++ visited (map entryOf after)) ->
             MenuPage.href q <> Page.href page) ->
  visited (map entryOf (before ++ ISection index (c1 ++ t :: c2) :: after))
  = (visited (map entryOf before) ++ index :: c1)
    ++ t :: c2 ++ visited (map entryOf after)
  /\ setPrevNext page (map entryOf (before ++ ISection index (c1 ++ t :: c2) :: after))
     = linkNext (linkPrev page (last (map Some (visited (map entryOf before) ++ index :: c1))
                                     None))
                (c2 ++ visited (map entryOf after)).
Proof.
  rewrite forallb_app. cbn [forallb]. intros Hwf Ht Hothers.
  apply andb_true_iff in Hwf as [Hbefore Hwf]. apply andb_true_iff in Hwf as [Hi Hafter].
  rewrite map_app. cbn [map]. split.
  - rewrite visited_app. unfold visited at 2. cbn [flat_map].
    rewrite (visited_entryOf _ Hi); [|cbn [itemPage wellFormed] in *;
                                      now apply andb_true_iff in Hi as [-> _]].
    cbn [itemPage itemChildren]. fold (visited (map entryOf after)).
    repeat (rewrite <- app_assoc || rewrite <- app_comm_cons). reflexivity.
  - rewrite setPrevNext_calls, calls_app.
    destruct (calls_section index c1 t c2 (map entryOf after)
                (cursorAfterAll (map entryOf before) None) None Hi)
      as (l1 & l2 & -> & Hl1 & Hl2).
    rewrite app_assoc, fold_single_match; [|exact Ht| |].
    + rewrite Hl2. f_equal. f_equal. rewrite map_app. cbn [map].
      rewrite (last_app_cons (map Some (visited (map entryOf before)))
                             (map Some c1) (Some index) None).
      clear. revert index. induction c1 as [|a c1 IH]; intros index; [reflexivity|].
      cbn [map]. rewrite !last_cons. apply IH.
    + apply others_visited. rewrite map_app, calls_visited, Hl1. intros q Hq.
      apply Hothers, in_or_app. now left.
    + apply others_visited. rewrite Hl2. intros q Hq.
      apply Hothers, in_or_app. now right.
Qed.

(** C1, as amended.  [setPrevNext] hands to its callback the pages that
    carry data, depth first and in declaration order, a parent before its
    nested children.  For a page that matches exactly one visited page,
    the [next] link goes to the page visited right after the match and to
    no later one, and the [prev] link is made from the previous page that
    the traversal hands over with the match, only when that page has a
    non-empty title.  In the menus that [getProps] builds, a root entry
    over a level of single entries and sections of single pages, that
    previous page is the page visited immediately before the match for a
    child of a section, whose previous page is the child before it or the
    page of the section, and for the page of an entry of the level unless
    the last entry with a page before it is a section with children: in
    [A, B, C] with titled pages the target [B] gets [prev.href = A.href]
    and [next.href = C.href]. *)
Theorem setPrevNext_links (page : Page.t) (menu : list MenuEntry) :
  map fst (calls menu None None) = visited menu
  /\ setPrevNext page menu
     = snd (fold_left visitCall (calls menu None None) (false, page))
  /\ (forall front t back,
        visited menu = front ++ t :: back ->
        MenuPage.href t = Page.href page ->
        (forall q, In q (front ++ back) -> MenuPage.href q <> Page.href page) ->
        exists c,
          In (t, c) (calls menu None None)
          /\ setPrevNext page menu = linkNext (linkPrev page c) back)
  /\ (forall front t back,
        menu = map leaf (front ++ t :: back) ->
        Forall (fun p => hasData p = true) (front ++ t :: back) ->
        MenuPage.href t = Page.href page ->
        (forall q, In q (front ++ back) -> MenuPage.href q <> Page.href page) ->
        setPrevNext page menu
        = linkNext (linkPrev page (last (map Some front) None)) back)
  /\ (forall k t, setPrevNext page [MkEntry k t None (Some menu)] = setPrevNext page menu)
  /\ (forall k t index children,
        menu = map leaf (index :: children) ->
        hasData index = true ->
        setPrevNext page [MkEntry k t (Some index) (Some (map leaf children))]
        = setPrevNext page menu)
  /\ (forall P W level root,
        normalize P W level root = Ok menu ->
        exists items, menu = map entryOf items /\ forallb wellFormed items = true)
  /\ (forall before i after front back,
        menu = map entryOf (before ++ i :: after) ->
        forallb wellFormed (before ++ i :: after) = true ->
        hasData (itemPage i) = true ->
        endsOutsideSection before = true ->
        front = visited (map entryOf before) ->
        back = itemChildren i ++ visited (map entryOf after) ->
        MenuPage.href (itemPage i) = Page.href page ->
        (forall q, In q (front ++ back) -> MenuPage.href q <> Page.href page) ->
        visited menu = front ++ itemPage i :: back
        /\ setPrevNext page menu
           = linkNext (linkPrev page (last (map Some front) None)) back)
  /\ (forall before index c1 t c2 after front back,
        menu = map entryOf (before ++ ISection index (c1 ++ t :: c2) :: after) ->
        forallb wellFormed (before ++ ISection index (c1 ++ t :: c2) :: after) = true ->
        front = visited (map entryOf before) ++ index :: c1 ->
        back = c2 ++ visited (map entryOf after) ->
        MenuPage.href t = Page.href page ->
        (forall q, In q (front ++ back) -> MenuPage.href q <> Page.href page) ->
        visited menu = front ++ t :: back
        /\ setPrevNext page menu
           = linkNext (linkPrev page (last (map Some front) None)) back).
Proof.
  split; [apply calls_visited|].
  split; [apply setPrevNext_calls|].
  split; [|split; [|split; [|split; [|split; [|split]]]]].
  - intros front t back Hvisited Ht Hothers.
    destruct (setPrevNext_single_match page menu front t back Hvisited Ht Hothers)
      as (before & c & after & Hcalls & _ & _ & Hlinks).
    exists c. split; [|exact Hlinks].
    rewrite Hcalls. apply in_or_app. right. now left.
  - intros front t back -> Hdata Ht Hothers. now apply setPrevNext_linear.
  - intros k t. apply setPrevNext_root.
  - intros k t index children -> Hindex. now apply setPrevNext_section.
  - intros P W level root. apply normalize_items.
  - intros before i after front back -> Hwf Hp Hends -> -> Ht Hothers.
    now apply setPrevNext_item.
  - intros before index c1 t c2 after front back -> Hwf -> -> Ht Hothers.
    now apply setPrevNext_child.
Qed.

Lemma visited_hasData (menu : list MenuEntry) :
  Forall (fun p => hasData p = true) (visited menu).
Proof.
  induction menu as [|k t p rest IH|k t p menu rest IHmenu IH] using menu_nested_ind;
    unfold visited in *; cbn [flat_map visited_entry].
  - constructor.
  - rewrite app_nil_r. apply Forall_app. split; [|exact IH].
    destruct p as [p|]; [|constructor].
    destruct (MenuPage.data p) eqn:E; constructor; [|constructor].
    unfold hasData. now rewrite E.
  - rewrite <- app_assoc. apply Forall_app. split; [|apply Forall_app; now split].
    destruct p as [p|]; [|constructor].
    destruct (MenuPage.data p) eqn:E; constructor; [|constructor].
    unfold hasData. now rewrite E.
Qed.

(** In a shaped menu the first page visited is handed no previous page. *)
Lemma first_call (menu : list MenuEntry) :
  forallb shaped menu = true ->
  forall prevSection t c rest,
    calls menu None prevSection = (t, c) :: rest -> c = None.
Proof.
  induction menu as [|k t p rest IH|k t p menu rest IHmenu IH] using menu_nested_ind;
    intros Hshaped ps t' c rest'.
  - discriminate.
  - rewrite calls_cons, cursor_prev. unfold cursorAfter. cbn [entry_page].
    cbn [forallb] in Hshaped. apply andb_true_iff in Hshaped as [_ Hrest].
    destruct p as [p|]; [destruct (hasData p)|]; cbn [app].
    + intros H. now injection H as _ <-.
    + now apply IH.
    + now apply IH.
  - rewrite calls_cons, cursor_prev. unfold cursorAfter. cbn [entry_page].
    cbn [forallb shaped] in Hshaped. apply andb_true_iff in Hshaped as [He Hrest].
    apply andb_true_iff in He as [Hp Hmenu].
    destruct p as [p|]; [rewrite Hp|]; cbn [app].
    + intros H. now injection H as _ <-.
    + destruct (calls menu None None) as [|[t0 c0] l] eqn:E; cbn [app].
      * now apply IH.
      * intros H. injection H as <- <- _. now apply (IHmenu Hmenu None t0 c0 l).
Qed.

(** In a shaped menu every previous page handed to the callback carries
    data. *)
Lemma calls_loaded (menu : list MenuEntry) :
  forallb shaped menu = true ->
  forall prev prevSection,
    loaded prev ->
    Forall (fun call => loaded (snd call)) (calls menu prev prevSection).
Proof.
  induction menu as [|k t p rest IH|k t p menu rest IHmenu IH] using menu_nested_ind;
    intros Hshaped prev ps Hprev.
  - constructor.
  - cbn [forallb] in Hshaped. apply andb_true_iff in Hshaped as [_ Hrest].
    rewrite calls_cons, cursor_prev. unfold cursorAfter. cbn [entry_page app].
    destruct p as [p|]; [destruct (hasData p) eqn:E|]; cbn [app];
      try constructor; auto.
  - cbn [forallb shaped] in Hshaped. apply andb_true_iff in Hshaped as [He Hrest].
    apply andb_true_iff in He as [Hp Hmenu].
    rewrite calls_cons, cursor_prev. unfold cursorAfter. cbn [entry_page].
    destruct p as [p|]; [rewrite Hp|]; cbn [app].
    + constructor; [exact Hprev|]. apply Forall_app. split; [apply IHmenu | apply IH]; auto.
    + apply Forall_app. split; [apply IHmenu | apply IH]; auto. exact I.
Qed.

Lemma dropStubs_entry_eq (k t : jsval) (p : option MenuPage.t) (menu : list MenuEntry) :
  dropStubs_entry (MkEntry k t p (Some menu)) = MkEntry k t p (Some (dropStubs menu)).
Proof. reflexivity. Qed.

(** External-link leaves take no part in the traversal. *)
Lemma calls_dropStubs (menu : list MenuEntry) :
  forall prev prevSection,
    calls (dropStubs menu) prev prevSection = calls menu prev prevSection.
Proof.
  induction menu as [|k t p rest IH|k t p menu rest IHmenu IH] using menu_nested_ind;
    intros prev ps.
  - reflexivity.
  - cbn [dropStubs isStub dropStubs_entry]. destruct p as [p|].
    + destruct (hasData p) eqn:E; cbn [negb].
      * rewrite !calls_cons. unfold cursorAfter. cbn [entry_page]. now rewrite IH.
      * rewrite calls_cons, E. unfold cursorAfter. cbn [entry_page]. now rewrite E, IH.
    + rewrite !calls_cons. unfold cursorAfter. cbn [entry_page]. now rewrite IH.
  - cbn [dropStubs isStub]. destruct p as [p|];
      rewrite dropStubs_entry_eq, !calls_cons; unfold cursorAfter; cbn [entry_page];
      now rewrite IH, IHmenu.
Qed.

(** C5.  A page that is the first page visited gets no [prev]; one that is
    the last page visited gets no [next]; an entry whose page carries no
    data and has nothing nested is not visited, so the result is the same
    without such entries, every page visited carries data and so does every
    previous page handed to the callback; and when no visited page has the
    [href] of the page, [setPrevNext] returns the page as it is.  The first
    part is for menus in which a page without data has nothing nested, as
    are the menus that [getProps] builds with [normalize]. *)
Theorem setPrevNext_edges (page : Page.t) (menu : list MenuEntry) :
  (forall t rest,
      forallb shaped menu = true ->
      visited menu = t :: rest ->
      MenuPage.href t = Page.href page ->
      (forall q, In q rest -> MenuPage.href q <> Page.href page) ->
      Page.prev (setPrevNext page menu) = Page.prev page)
  /\ (forall front t,
        visited menu = front ++ [t] ->
        MenuPage.href t = Page.href page ->
        (forall q, In q front -> MenuPage.href q <> Page.href page) ->
        Page.next (setPrevNext page menu) = Page.next page)
  /\ setPrevNext page (dropStubs menu) = setPrevNext page menu
  /\ Forall (fun p => hasData p = true) (visited menu)
  /\ (forallb shaped menu = true ->
      Forall (fun call => loaded (snd call)) (calls menu None None))
  /\ ((forall q, In q (visited menu) -> MenuPage.href q <> Page.href page) ->
      setPrevNext page menu = page)
  /\ (forall P W level root title,
        normalize P W level root = Ok menu ->
        forallb shaped [MkEntry (Some root) title None (Some menu)] = true).
Proof.
  split; [|split; [|split; [|split; [|split; [|split]]]]].
  - intros t rest Hshaped Hvisited Ht Hothers.
    destruct (setPrevNext_single_match page menu [] t rest Hvisited Ht Hothers)
      as (before & c & after & Hcalls & Hbefore & _ & ->).
    destruct before; [|discriminate]. cbn [app] in Hcalls.
    rewrite (first_call menu Hshaped None t c after Hcalls).
    cbn [linkPrev]. now destruct rest.
  - intros front t Hvisited Ht Hothers.
    assert (Hothers' : forall q, In q (front ++ []) -> MenuPage.href q <> Page.href page)
      by (rewrite app_nil_r; exact Hothers).
    destruct (setPrevNext_single_match page menu front t [] Hvisited Ht Hothers')
      as (before & c & after & _ & _ & _ & ->).
    cbn [linkNext]. unfold linkPrev.
    destruct c as [q|]; [destruct (truthy (MenuPage.title q))|]; reflexivity.
  - now rewrite !setPrevNext_calls, calls_dropStubs.
  - apply visited_hasData.
  - intros Hshaped. now apply calls_loaded.
  - intros Hothers. rewrite setPrevNext_calls, fold_others; [reflexivity|].
    apply others_visited. now rewrite calls_visited.
  - intros P W level root title Hout. now apply (normalize_shaped P W level).
Qed.

(** ** The date-ordered collection and the app props *)

Section Sorting.

Context {A : Type}.
Variable compare : A -> A -> option Z.

Lemma insert_perm (x : A) (l : list A) : Permutation (x :: l) (insert compare x l).
Proof.
  induction l as [|y l IH]; cbn [insert]; [reflexivity|].
  destruct (positive (compare x y)); [|reflexivity].
  rewrite perm_swap. now apply perm_skip.
Qed.

Lemma sort_perm (l : list A) : Permutation l (sort compare l).
Proof.
  induction l as [|x l IH]; [reflexivity|].
  cbn [sort fold_right]. rewrite <- insert_perm. now apply perm_skip.
Qed.

End Sorting.

Lemma newerOrEqual_trans (a b c : DatedPage) :
  newerOrEqual a b -> newerOrEqual b c -> newerOrEqual a c.
Proof.
  unfold newerOrEqual. destruct (date a), (date b), (date c); try tauto. lia.
Qed.

Lemma insert_byDate_sorted (x : DatedPage) (l : list DatedPage) :
  dated x -> Forall dated l ->
  StronglySorted newerOrEqual l ->
  StronglySorted newerOrEqual (insert byDate x l).
Proof.
  intros Hx Hl Hsorted. induction Hsorted as [|y l Hsorted IH Hy]; cbn [insert].
  - repeat constructor.
  - pose proof (Forall_inv Hl) as Hdy. apply Forall_inv_tail in Hl.
    unfold dated in Hx, Hdy. unfold byDate, positive.
    destruct (date y) as [dy|] eqn:Ey; [|contradiction].
    destruct (date x) as [dx|] eqn:Ex; [|contradiction].
    destruct (0 <? dy - dx)%Z eqn:E.
    + apply Z.ltb_lt in E. constructor; [now apply IH|].
      apply (Permutation_Forall (insert_perm byDate x l)).
      constructor; [|exact Hy]. unfold newerOrEqual. rewrite Ex, Ey. lia.
    + apply Z.ltb_ge in E.
      assert (Hxy : newerOrEqual x y) by (unfold newerOrEqual; rewrite Ex, Ey; lia).
      constructor; [now constructor|]. constructor; [exact Hxy|].
      eapply Forall_impl; [|exact Hy]. intros z. now apply newerOrEqual_trans.
Qed.

Lemma sort_byDate_sorted (l : list DatedPage) :
  Forall dated l -> StronglySorted newerOrEqual (sort byDate l).
Proof.
  induction 1 as [|x l Hx Hl IH]; [constructor|].
  cbn [sort fold_right]. apply insert_byDate_sorted; auto.
  apply (Permutation_Forall (sort_perm byDate l)). exact Hl.
Qed.

Lemma comparable_dated (l : list DatedPage) :
  comparable l = true <-> Forall dated l.
Proof.
  unfold comparable. rewrite forallb_forall, Forall_forall.
  split; intros H x Hx; specialize (H x Hx); unfold dated in *.
  - now destruct (date x).
  - now destruct (date x).
Qed.

Section Collection.

Variable P : Platform.
Variable W : World.

Lemma sortByDate_dated (l : list DatedPage) :
  Forall dated l -> sortByDate W l = sort byDate l.
Proof.
  intros H. apply comparable_dated in H. unfold sortByDate. now rewrite H.
Qed.

Lemma sortByDate_perm (l : list DatedPage) : Permutation l (sortByDate W l).
Proof.
  unfold sortByDate. destruct (comparable l); [apply sort_perm | apply arraySort_perm].
Qed.

(** C9, as amended.  When the pages of the collection load and every page
    has a date that [Date.parse] accepts, [getDateOrderedPaths] returns
    those pages, each once, in descending order of the parsed date. *)
Theorem getDateOrderedPaths_descending (root : string) (collection : list DatedPage) :
  mapM (loadDated P W) (globSync W (contentDir P +:+ "/" +:+ root +:+ "/*.md"))
  = Ok collection ->
  Forall dated collection ->
  exists pages,
    getDateOrderedPaths P W root = Ok pages
    /\ Permutation collection pages
    /\ StronglySorted newerOrEqual pages.
Proof.
  intros Hload Hdated. exists (sort byDate collection).
  unfold getDateOrderedPaths. rewrite Hload. cbn [bind].
  rewrite (sortByDate_dated _ Hdated). split; [reflexivity|].
  split; [apply sort_perm | now apply sort_byDate_sorted].
Qed.

Lemma withAppProps_no_blog (props : option Props.wrapped) :
  globSync W (contentDir P +:+ "/" +:+ "blog" +:+ "/*.md") = [] ->
  withAppProps P W props = Throw cannotConvert.
Proof.
  intros Hglob. unfold withAppProps, getLastBlog, getDateOrderedPaths.
  now rewrite Hglob.
Qed.

(** C10, as amended.  When the glob of the blog collection finds no file,
    [withAppProps] throws, and so does [getProps] for every menu and
    slug.  When [withAppProps] returns, the collection is not empty, the
    other props are kept and [props.props.app.blog] is the first page of
    the date-ordered collection, with its date and every field but the
    body, which is deleted; when every page of the collection has a date
    that [Date.parse] accepts, no page of the collection is more recent. *)
Theorem withAppProps_blog (props : option Props.wrapped) :
  (globSync W (contentDir P +:+ "/" +:+ "blog" +:+ "/*.md") = [] ->
   withAppProps P W props = Throw cannotConvert
   /\ forall menu slug, exists e, getProps P W menu slug = Throw e)
  /\ (forall result,
        withAppProps P W props = Ok result ->
        globSync W (contentDir P +:+ "/" +:+ "blog" +:+ "/*.md") <> []
        /\ exists collection latest older first,
            mapM (loadDated P W) (globSync W (contentDir P +:+ "/" +:+ "blog" +:+ "/*.md"))
            = Ok collection
            /\ Permutation collection (latest :: older)
            /\ getDateOrderedPaths P W "blog" = Ok (latest :: older)
            /\ Props.app (Props.props result) = Some {| blog := first |}
            /\ date first = date latest
            /\ sameButBody (page latest) (page first)
            /\ Page.body (page first) = None
            /\ Props.page (Props.props result)
               = match props with Some given => Props.page (Props.props given) | None => None end
            /\ Props.menu (Props.props result)
               = match props with Some given => Props.menu (Props.props given) | None => None end
            /\ (Forall dated collection -> Forall (newerOrEqual latest) older)).
Proof.
  split.
  - intros Hglob. split; [now apply withAppProps_no_blog|].
    intros menu slug. unfold getProps.
    destruct (loadPage P W _) as [pg|e]; cbn [bind]; [|eauto].
    destruct (toHTML W _) as [body|e]; cbn [bind]; [|eauto].
    destruct (member _ menu) as [node|]; cbn [bind]; [|eauto].
    destruct (node_nested node) as [[l|level]|]; cbn [bind]; [| |eauto].
    + destruct (normalize P W (arrayEntries l) _) as [nested|e]; cbn [bind]; [|eauto].
      rewrite withAppProps_no_blog; eauto.
    + destruct (normalize P W level _) as [nested|e]; cbn [bind]; [|eauto].
      rewrite withAppProps_no_blog; eauto.
  - intros result H. split.
    + intros Hglob. now rewrite (withAppProps_no_blog props Hglob) in H.
    + unfold withAppProps, getLastBlog in H.
      destruct (getDateOrderedPaths P W "blog") as [pages|e] eqn:Hpages;
        cbn [bind] in H; [|discriminate].
      destruct pages as [|latest older]; cbn [hd_error] in H; [discriminate|].
      injection H as <-.
      pose proof Hpages as Hsort. unfold getDateOrderedPaths in Hsort.
      apply bind_Ok in Hsort as (collection & Hload & Hsort). injection Hsort as Hsort.
      exists collection, latest, older, (deleteBody latest).
      split; [exact Hload|].
      split; [rewrite <- Hsort; apply sortByDate_perm|].
      split; [reflexivity|].
      split; [reflexivity|].
      split; [reflexivity|].
      split; [now destruct latest as [d []]|].
      split; [reflexivity|].
      split; [now destruct props|].
      split; [now destruct props|].
      intros Hdated.
      rewrite (sortByDate_dated _ Hdated) in Hsort.
      pose proof (sort_byDate_sorted collection Hdated) as Hsorted.
      rewrite Hsort in Hsorted. now apply StronglySorted_inv in Hsorted.
Qed.

End Collection.

(** ** The functions on the sample site *)

Lemma loadPage_missing_file_witness :
  existsSync Sample.W
    (fullPathMdFile Sample.P (relativePathOf Sample.P "nonexistent/page")) = false
  /\ existsSync Sample.W
       (fullPathIndexMdFile Sample.P (relativePathOf Sample.P "nonexistent/page")) = false
  /\ exists message,
       loadPage Sample.P Sample.W "nonexistent/page" = Throw (Error message)
       /\ includes message "nonexistent/page.md" = true
       /\ includes message "nonexistent/page/index.md" = true
       /\ getProps Sample.P Sample.W Sample.sitemap (SlugString "nonexistent/page")
          = Throw (Error message).
Proof.
  assert (Hmd : existsSync Sample.W
            (fullPathMdFile Sample.P (relativePathOf Sample.P "nonexistent/page")) = false)
    by (vm_compute; reflexivity).
  assert (Hindex : existsSync Sample.W
            (fullPathIndexMdFile Sample.P (relativePathOf Sample.P "nonexistent/page")) = false)
    by (vm_compute; reflexivity).
  split; [exact Hmd|]. split; [exact Hindex|].
  destruct (loadPage_missing_file Sample.P Sample.W "nonexistent/page" Hmd Hindex)
    as (message & Hload & _ & _ & _ & Hprops & _).
  exists message. split; [exact Hload|].
  assert (Hm : message = notFoundMessage Sample.P (relativePathOf Sample.P "nonexistent/page")).
  { vm_compute in Hload. now injection Hload as <-. }
  rewrite Hm at 1 2.
  split; [vm_compute; reflexivity|]. split; [vm_compute; reflexivity|]. apply Hprops.
Defined.

Lemma loadPage_prefers_md_witness :
  (rootRelative Sample.P "tokio/topics" = true
   /\ existsSync Sample.W (fullPathMdFile Sample.P "tokio/topics") = true
   /\ existsSync Sample.W (fullPathIndexMdFile Sample.P "tokio/topics") = true
   /\ exists page,
        loadPage Sample.P Sample.W "tokio/topics" = Ok page
        /\ Page.mdPath page = "tokio/topics.md"
        /\ Page.data page = [("title", "Topics")]
        /\ Page.body page = Some "Guides.")
  /\ (rootRelative Sample.P "tokio/tutorial" = true
      /\ existsSync Sample.W (fullPathMdFile Sample.P "tokio/tutorial") = false
      /\ existsSync Sample.W (fullPathIndexMdFile Sample.P "tokio/tutorial") = true
      /\ exists page,
           loadPage Sample.P Sample.W "tokio/tutorial" = Ok page
           /\ Page.mdPath page = "tokio/tutorial/index.md"
           /\ Page.data page = [("title", "Tutorial")]
           /\ Page.body page = Some "Start here.")
  /\ (rootRelative Sample.winP "tokio\tutorial\async" = true
      /\ existsSync Sample.winW (fullPathMdFile Sample.winP "tokio\tutorial\async") = true
      /\ exists page,
           loadPage Sample.winP Sample.winW "tokio\tutorial\async" = Ok page
           /\ Page.mdPath page = "tokio/tutorial/async.md"
           /\ forwardSlashForm "tokio\tutorial\async.md" (Page.mdPath page)
           /\ lacks backslash (Page.mdPath page) = true
           /\ Page.body page = Some "Futures.")
  /\ (rootRelative Sample.winP "tokio\tutorial" = true
      /\ existsSync Sample.winW (fullPathMdFile Sample.winP "tokio\tutorial") = false
      /\ existsSync Sample.winW (fullPathIndexMdFile Sample.winP "tokio\tutorial") = true
      /\ path_join Sample.winP ["tokio\tutorial"; "index.md"] = "tokio\tutorial\index.md"
      /\ exists page,
           loadPage Sample.winP Sample.winW "tokio\tutorial" = Ok page
           /\ Page.mdPath page = "tokio/tutorial/index.md"
           /\ forwardSlashForm "tokio\tutorial\index.md" (Page.mdPath page)
           /\ lacks backslash (Page.mdPath page) = true
           /\ Page.body page = Some "Start here.").
Proof.
  split; [|split; [|split]].
  - assert (Hs : rootRelative Sample.P "tokio/topics" = true) by (vm_compute; reflexivity).
    split; [exact Hs|]. split; [vm_compute; reflexivity|]. split; [vm_compute; reflexivity|].
    destruct (proj1 (loadPage_prefers_md Sample.P Sample.W "tokio/topics"
                       (Sample.md [("title", "Topics")] "Guides.")
                       [("title", "Topics")] "Guides." Hs))
      as (page & Hpage & Hmd & _ & _ & Hdata & Hbody); try (vm_compute; reflexivity).
    exists page. split; [exact Hpage|]. split; [exact Hmd|]. now split.
  - assert (Hs : rootRelative Sample.P "tokio/tutorial" = true) by (vm_compute; reflexivity).
    split; [exact Hs|]. split; [vm_compute; reflexivity|]. split; [vm_compute; reflexivity|].
    destruct (proj2 (loadPage_prefers_md Sample.P Sample.W "tokio/tutorial"
                       (Sample.md [("title", "Tutorial")] "Start here.")
                       [("title", "Tutorial")] "Start here." Hs))
      as (page & Hpage & Hmd & _ & _ & Hdata & Hbody); try (vm_compute; reflexivity).
    exists page. split; [exact Hpage|]. split; [exact Hmd|]. now split.
  - assert (Hs : rootRelative Sample.winP "tokio\tutorial\async" = true)
      by (vm_compute; reflexivity).
    split; [exact Hs|]. split; [vm_compute; reflexivity|].
    destruct (proj1 (loadPage_prefers_md Sample.winP Sample.winW "tokio\tutorial\async"
                       (Sample.md [("title", "Async in depth"); ("menu", "Async")] "Futures.")
                       [("title", "Async in depth"); ("menu", "Async")] "Futures." Hs))
      as (page & Hpage & Hmd & Hform & Hfree & _ & Hbody); try (vm_compute; reflexivity).
    exists page. split; [exact Hpage|]. split; [exact Hmd|]. split; [exact Hform|].
    now split.
  - assert (Hs : rootRelative Sample.winP "tokio\tutorial" = true)
      by (vm_compute; reflexivity).
    assert (Hjoin : path_join Sample.winP ["tokio\tutorial"; "index.md"]
                    = "tokio\tutorial\index.md") by (vm_compute; reflexivity).
    split; [exact Hs|]. split; [vm_compute; reflexivity|]. split; [vm_compute; reflexivity|].
    split; [exact Hjoin|].
    destruct (proj2 (loadPage_prefers_md Sample.winP Sample.winW "tokio\tutorial"
                       (Sample.md [("title", "Tutorial")] "Start here.")
                       [("title", "Tutorial")] "Start here." Hs))
      as (page & Hpage & Hmd & Hform & Hfree & _ & Hbody); try (vm_compute; reflexivity).
    exists page. split; [exact Hpage|]. split; [exact Hmd|].
    split; [rewrite <- Hjoin; exact Hform|]. now split.
Defined.

(** On POSIX with a slug written with forward slashes, and on Windows with
    the same slug written with backslashes. *)
Lemma loadPage_href_round_trip_witness :
  (validSlug Sample.P "tokio/tutorial/async"
   /\ loadPage Sample.P Sample.W "tokio/tutorial/async" = Ok Sample.asyncPage
   /\ Page.href Sample.asyncPage = "/tokio/tutorial/async"
   /\ exists page',
        loadPage Sample.P Sample.W "tokio/tutorial/async" = Ok page'
        /\ Page.mdPath page' = "tokio/tutorial/async.md"
        /\ Page.href page' = "/tokio/tutorial/async")
  /\ (validSlug Sample.winP "tokio\tutorial\async"
      /\ loadPage Sample.winP Sample.winW "tokio\tutorial\async" = Ok Sample.asyncPage
      /\ Page.href Sample.asyncPage = "/tokio/tutorial/async"
      /\ exists page',
           loadPage Sample.winP Sample.winW "tokio/tutorial/async" = Ok page'
           /\ Page.mdPath page' = "tokio/tutorial/async.md"
           /\ Page.href page' = "/tokio/tutorial/async").
Proof.
  split.
  - assert (Hvalid : validSlug Sample.P "tokio/tutorial/async").
    { apply validSlug_forward; vm_compute; reflexivity. }
    split; [exact Hvalid|]. split; [vm_compute; reflexivity|].
    apply (loadPage_href_round_trip Sample.P Sample.W "tokio/tutorial/async"
             Sample.asyncPage Hvalid).
    vm_compute; reflexivity.
  - assert (Hvalid : validSlug Sample.winP "tokio\tutorial\async").
    { unfold validSlug. repeat (split; [vm_compute; reflexivity|]).
      vm_compute; reflexivity. }
    split; [exact Hvalid|]. split; [vm_compute; reflexivity|].
    apply (loadPage_href_round_trip Sample.winP Sample.winW "tokio\tutorial\async"
             Sample.asyncPage Hvalid).
    vm_compute; reflexivity.
Defined.

Lemma normalize_preserves_order_witness :
  sep Sample.P = slash
  /\ plainKeys Sample.P "tokio" Sample.tokioLevel = true
  /\ normalize Sample.P Sample.W Sample.tokioLevel "tokio" = Ok Sample.tokioMenu
  /\ map entryKey Sample.tokioMenu
     = [Some "tutorial"; Some "api"; Some "topics"; Some "glossary"].
Proof.
  assert (Hsep : sep Sample.P = slash) by reflexivity.
  assert (Hplain : plainKeys Sample.P "tokio" Sample.tokioLevel = true)
    by (vm_compute; reflexivity).
  assert (Hout : normalize Sample.P Sample.W Sample.tokioLevel "tokio" = Ok Sample.tokioMenu)
    by (vm_compute; reflexivity).
  split; [exact Hsep|]. split; [exact Hplain|]. split; [exact Hout|].
  exact (proj1 (proj2 (normalize_preserves_order Sample.P Sample.W Sample.tokioLevel "tokio"
                         Sample.tokioMenu Hout) Hsep Hplain)).
Defined.

(** C2, the claim as stated, on a sitemap with one page under ["tokio"]:
    were the leading path segment of a slug, the top-level key, removed,
    the entries would be [[]] and [["tutorial"]]; the code emits
    [["tokio"]] and [["tokio"; "tutorial"]]. *)
Lemma getMenuPaths_keeps_top_level_key :
  getMenuPaths Sample.twoLevel
  = {| paths := [ {| params_slug := ["tokio"] |};
                  {| params_slug := ["tokio"; "tutorial"] |} ];
       fallback := false |}
  /\ getMenuPaths Sample.twoLevel
     <> {| paths := map (fun n => {| params_slug := tl (fst n) |})
                        (filter routable (nodes [] Sample.twoLevel));
           fallback := false |}.
Proof. split; [reflexivity | discriminate]. Qed.

Lemma getMenuPaths_routable_witness :
  ordinaryChildren Sample.sitemap = true
  /\ Forall (fun k => lacks "/" k = true) ["tokio"; "tutorial"; "async"]
  /\ tl (split "/" (slugOf ["tokio"; "tutorial"; "async"])) = ["tokio"; "tutorial"; "async"]
  /\ map params_slug (paths (getMenuPaths Sample.sitemap))
     = map (fun n => tl (split "/" (slugOf (fst n))))
           (filter routable (nodes [] Sample.sitemap)).
Proof.
  assert (Hplain : Forall (fun k => lacks "/" k = true) ["tokio"; "tutorial"; "async"])
    by (repeat constructor).
  assert (Hord : ordinaryChildren Sample.sitemap = true) by (vm_compute; reflexivity).
  destruct (getMenuPaths_routable Sample.sitemap Hord) as (Hpaths & _ & Hkeys).
  split; [exact Hord|]. split; [exact Hplain|]. split; [exact (Hkeys _ Hplain)|].
  rewrite Hpaths. cbn [paths]. now rewrite map_map.
Defined.

(** A child of a list named [__proto__] gets no entry. *)
Example getMenuPaths_proto_child :
  ordinaryChildren Sample.protoLevel = false
  /\ map params_slug (paths (getMenuPaths Sample.protoLevel))
     = [ ["tutorial"]; ["tutorial"; "async"]; ["tutorial"; "select"] ].
Proof. split; vm_compute; reflexivity. Qed.

Example getMenuPaths_sample :
  map params_slug (paths (getMenuPaths Sample.sitemap))
  = [ ["tokio"]; ["tokio"; "tutorial"]; ["tokio"; "tutorial"; "async"];
      ["tokio"; "tutorial"; "select"]; ["tokio"; "topics"]; ["tokio"; "glossary"] ].
Proof. vm_compute. reflexivity. Qed.

(** C3, the claim as stated, on the tutorial section: with its pages as a
    nested mapping [normalize] throws and returns no entry, with the same
    pages as a list it returns the section and its two pages. *)
Lemma normalize_mapping_throws :
  normalize Sample.P Sample.W Sample.mappingLevel "tokio" = Throw notIterable
  /\ (forall out, normalize Sample.P Sample.W Sample.mappingLevel "tokio" <> Ok out)
  /\ exists out,
       normalize Sample.P Sample.W Sample.listLevel "tokio" = Ok out
       /\ map MenuPage.href (visited out)
          = ["/tokio/tutorial"; "/tokio/tutorial/async"; "/tokio/tutorial/select"].
Proof.
  assert (H : normalize Sample.P Sample.W Sample.mappingLevel "tokio" = Throw notIterable)
    by (vm_compute; reflexivity).
  split; [exact H|]. split; [intros out; rewrite H; discriminate|].
  eexists. split; vm_compute; reflexivity.
Qed.

Lemma normalize_nested_mapping_witness :
  In ("tutorial", MkNode None None (Some (NMap [("async", emptyNode); ("select", emptyNode)])))
     Sample.mappingLevel
  /\ exists e, normalize Sample.P Sample.W Sample.mappingLevel "tokio" = Throw e.
Proof.
  assert (Hin : In ("tutorial",
                    MkNode None None (Some (NMap [("async", emptyNode); ("select", emptyNode)])))
                   Sample.mappingLevel) by (left; reflexivity).
  split; [exact Hin|].
  exact (proj1 (normalize_nested_mapping Sample.P Sample.W Sample.mappingLevel "tokio"
                  "tutorial" _ _ Hin eq_refl eq_refl)).
Defined.

(** C1, the claim as stated.  After the section [A] with its child [A1] the
    page [B] is visited right after [A1], and gets a [prev] link to [A]; on
    the sample site the page [topics] is visited after the last page of the
    tutorial and gets a [prev] link to the tutorial itself; and in the
    linear menu of an untitled page, [B] and [C], the page [B] gets no
    [prev] link. *)
Lemma setPrevNext_prev_skips_children :
  (visited Sample.sectionThenPage = [Sample.pageA; Sample.pageA1; Sample.pageB]
   /\ Page.prev (setPrevNext (Sample.target "b" "/guide/b") Sample.sectionThenPage)
      = Some (linkTo Sample.pageA)
   /\ linkTo Sample.pageA <> linkTo Sample.pageA1)
  /\ (map MenuPage.href
          (visited [MkEntry (Some "tokio") (Some "Tokio") None (Some Sample.tokioMenu)])
      = ["/tokio/tutorial"; "/tokio/tutorial/async"; "/tokio/tutorial/select";
         "/tokio/topics"; "/tokio/glossary"]
      /\ option_map Link.href
           (Page.prev (setPrevNext (Sample.target "topics" "/tokio/topics")
                         [MkEntry (Some "tokio") (Some "Tokio") None (Some Sample.tokioMenu)]))
         = Some "/tokio/tutorial")
  /\ Page.prev (setPrevNext (Sample.target "b" "/guide/b")
                  (map leaf [Sample.untitled; Sample.pageB; Sample.pageC]))
     = None.
Proof.
  split; [|split].
  - repeat split; try reflexivity. discriminate.
  - split; vm_compute; reflexivity.
  - reflexivity.
Qed.

(** A linear menu; and the level of the page [A], an external link, the
    section [B] with the children [A1] and [C], and an untitled page: the
    page of the section is linked to [A], its children to the page visited
    before them. *)
Lemma setPrevNext_links_witness :
  (Forall (fun p => hasData p = true) ([Sample.pageA] ++ Sample.pageB :: [Sample.pageC])
   /\ MenuPage.href Sample.pageB = Page.href (Sample.target "b" "/guide/b")
   /\ (forall q, In q ([Sample.pageA] ++ [Sample.pageC]) ->
                 MenuPage.href q <> Page.href (Sample.target "b" "/guide/b"))
   /\ setPrevNext (Sample.target "b" "/guide/b")
                  (map leaf [Sample.pageA; Sample.pageB; Sample.pageC])
      = linkNext (linkPrev (Sample.target "b" "/guide/b") (Some Sample.pageA)) [Sample.pageC]
   /\ option_map Link.href
        (Page.prev (linkNext (linkPrev (Sample.target "b" "/guide/b") (Some Sample.pageA))
                             [Sample.pageC]))
      = Some (MenuPage.href Sample.pageA)
   /\ option_map Link.href
        (Page.next (linkNext (linkPrev (Sample.target "b" "/guide/b") (Some Sample.pageA))
                             [Sample.pageC]))
      = Some (MenuPage.href Sample.pageC))
  /\ (forallb wellFormed Sample.guideItems = true
      /\ endsOutsideSection [ILeaf Sample.pageA; ILeaf Sample.external] = true
      /\ visited (map entryOf Sample.guideItems)
         = [Sample.pageA; Sample.pageB; Sample.pageA1; Sample.pageC; Sample.untitled]
      /\ setPrevNext (Sample.target "b" "/guide/b") (map entryOf Sample.guideItems)
         = linkNext (linkPrev (Sample.target "b" "/guide/b") (Some Sample.pageA))
                    [Sample.pageA1; Sample.pageC; Sample.untitled]
      /\ setPrevNext (Sample.target "a1" "/guide/a/a1") (map entryOf Sample.guideItems)
         = linkNext (linkPrev (Sample.target "a1" "/guide/a/a1") (Some Sample.pageB))
                    [Sample.pageC; Sample.untitled]
      /\ setPrevNext (Sample.target "c" "/guide/c") (map entryOf Sample.guideItems)
         = linkNext (linkPrev (Sample.target "c" "/guide/c") (Some Sample.pageA1))
                    [Sample.untitled]
      /\ setPrevNext (Sample.target "a" "/guide/a") (map entryOf Sample.guideItems)
         = linkNext (Sample.target "a" "/guide/a")
                    [Sample.pageB; Sample.pageA1; Sample.pageC; Sample.untitled]
      /\ option_map Link.href
           (Page.prev (setPrevNext (Sample.target "c" "/guide/c")
                         (map entryOf Sample.guideItems)))
         = Some "/guide/a/a1").
Proof.
  split.
  - assert (Hdata : Forall (fun p => hasData p = true)
                           ([Sample.pageA] ++ Sample.pageB :: [Sample.pageC]))
      by (repeat constructor).
    assert (Hothers : forall q, In q ([Sample.pageA] ++ [Sample.pageC]) ->
                                MenuPage.href q <> Page.href (Sample.target "b" "/guide/b")).
    { intros q [<-|[<-|[]]]; discriminate. }
    split; [exact Hdata|]. split; [reflexivity|]. split; [exact Hothers|].
    split; [|split; reflexivity].
    exact (proj1 (proj2 (proj2 (proj2
             (setPrevNext_links (Sample.target "b" "/guide/b")
                (map leaf [Sample.pageA; Sample.pageB; Sample.pageC])))))
             [Sample.pageA] Sample.pageB [Sample.pageC] eq_refl Hdata eq_refl Hothers).
  - assert (Hwf : forallb wellFormed Sample.guideItems = true) by reflexivity.
    assert (Hends : endsOutsideSection [ILeaf Sample.pageA; ILeaf Sample.external] = true)
      by reflexivity.
    split; [exact Hwf|]. split; [exact Hends|]. split; [reflexivity|].
    split; [|split; [|split; [|split]]].
    + destruct (setPrevNext_links (Sample.target "b" "/guide/b")
                  (map entryOf Sample.guideItems))
        as (_ & _ & _ & _ & _ & _ & _ & Hitem & _).
      apply (Hitem [ILeaf Sample.pageA; ILeaf Sample.external]
                   (ISection Sample.pageB [Sample.pageA1; Sample.pageC])
                   [ILeaf Sample.untitled]
                   [Sample.pageA] [Sample.pageA1; Sample.pageC; Sample.untitled]);
        try reflexivity.
      intros q [<-|[<-|[<-|[<-|[]]]]]; discriminate.
    + destruct (setPrevNext_links (Sample.target "a1" "/guide/a/a1")
                  (map entryOf Sample.guideItems))
        as (_ & _ & _ & _ & _ & _ & _ & _ & Hchild).
      apply (Hchild [ILeaf Sample.pageA; ILeaf Sample.external]
                    Sample.pageB [] Sample.pageA1 [Sample.pageC] [ILeaf Sample.untitled]
                    [Sample.pageA; Sample.pageB] [Sample.pageC; Sample.untitled]);
        try reflexivity.
      intros q [<-|[<-|[<-|[<-|[]]]]]; discriminate.
    + destruct (setPrevNext_links (Sample.target "c" "/guide/c")
                  (map entryOf Sample.guideItems))
        as (_ & _ & _ & _ & _ & _ & _ & _ & Hchild).
      apply (Hchild [ILeaf Sample.pageA; ILeaf Sample.external]
                    Sample.pageB [Sample.pageA1] Sample.pageC [] [ILeaf Sample.untitled]
                    [Sample.pageA; Sample.pageB; Sample.pageA1] [Sample.untitled]);
        try reflexivity.
      intros q [<-|[<-|[<-|[<-|[]]]]]; discriminate.
    + destruct (setPrevNext_links (Sample.target "a" "/guide/a")
                  (map entryOf Sample.guideItems))
        as (_ & _ & _ & _ & _ & _ & _ & Hitem & _).
      apply (Hitem [] (ILeaf Sample.pageA)
                   [ILeaf Sample.external;
                    ISection Sample.pageB [Sample.pageA1; Sample.pageC];
                    ILeaf Sample.untitled]
                   [] [Sample.pageB; Sample.pageA1; Sample.pageC; Sample.untitled]);
        try reflexivity.
      intros q [<-|[<-|[<-|[<-|[]]]]]; discriminate.
    + reflexivity.
Defined.

Lemma setPrevNext_edges_witness :
  (forallb shaped Sample.mixedMenu = true
   /\ visited Sample.mixedMenu = Sample.pageA :: [Sample.pageB; Sample.pageC]
   /\ Page.prev (setPrevNext (Sample.target "a" "/guide/a") Sample.mixedMenu) = None)
  /\ (visited Sample.mixedMenu = [Sample.pageA; Sample.pageB] ++ [Sample.pageC]
      /\ Page.next (setPrevNext (Sample.target "c" "/guide/c") Sample.mixedMenu) = None)
  /\ setPrevNext (Sample.target "b" "/guide/b") (dropStubs Sample.mixedMenu)
     = setPrevNext (Sample.target "b" "/guide/b") Sample.mixedMenu
  /\ setPrevNext (Sample.target "api" "https://docs.rs/tokio") Sample.mixedMenu
     = Sample.target "api" "https://docs.rs/tokio".
Proof.
  split; [|split; [|split]].
  - split; [reflexivity|]. split; [reflexivity|].
    apply (proj1 (setPrevNext_edges (Sample.target "a" "/guide/a") Sample.mixedMenu)
             Sample.pageA [Sample.pageB; Sample.pageC]); try reflexivity.
    intros q [<-|[<-|[]]]; discriminate.
  - split; [reflexivity|].
    apply (proj1 (proj2 (setPrevNext_edges (Sample.target "c" "/guide/c") Sample.mixedMenu))
             [Sample.pageA; Sample.pageB] Sample.pageC); try reflexivity.
    intros q [<-|[<-|[]]]; discriminate.
  - exact (proj1 (proj2 (proj2
             (setPrevNext_edges (Sample.target "b" "/guide/b") Sample.mixedMenu)))).
  - apply (proj1 (proj2 (proj2 (proj2 (proj2 (proj2
             (setPrevNext_edges (Sample.target "api" "https://docs.rs/tokio")
                Sample.mixedMenu))))))).
    intros q [<-|[<-|[<-|[]]]]; discriminate.
Defined.

Lemma getDateOrderedPaths_descending_witness :
  mapM (loadDated Sample.P Sample.W)
       (globSync Sample.W (contentDir Sample.P +:+ "/" +:+ "blog" +:+ "/*.md"))
  = Ok Sample.blogCollection
  /\ Forall dated Sample.blogCollection
  /\ map (fun p => field "date" (Page.data (page p))) Sample.blogCollection
     = [Some "2023-01-01"; Some "2024-06-15"; Some "2022-12-31"]
  /\ (exists pages,
        getDateOrderedPaths Sample.P Sample.W "blog" = Ok pages
        /\ Permutation Sample.blogCollection pages
        /\ StronglySorted newerOrEqual pages)
  /\ (exists pages,
        getDateOrderedPaths Sample.P Sample.W "blog" = Ok pages
        /\ map (fun p => field "date" (Page.data (page p))) pages
           = [Some "2024-06-15"; Some "2023-01-01"; Some "2022-12-31"]).
Proof.
  assert (Hload : mapM (loadDated Sample.P Sample.W)
                       (globSync Sample.W (contentDir Sample.P +:+ "/" +:+ "blog" +:+ "/*.md"))
                  = Ok Sample.blogCollection) by (vm_compute; reflexivity).
  assert (Hdated : Forall dated Sample.blogCollection)
    by (repeat constructor; discriminate).
  split; [exact Hload|]. split; [exact Hdated|]. split; [reflexivity|].
  split.
  - exact (getDateOrderedPaths_descending Sample.P Sample.W "blog"
             Sample.blogCollection Hload Hdated).
  - eexists. split; vm_compute; reflexivity.
Defined.

Lemma withAppProps_blog_witness :
  (globSync Sample.noBlog (contentDir Sample.P +:+ "/" +:+ "blog" +:+ "/*.md") = []
   /\ withAppProps Sample.P Sample.noBlog None = Throw cannotConvert
   /\ exists e,
        getProps Sample.P Sample.noBlog Sample.sitemap (SlugArray ["tokio"; "topics"])
        = Throw e)
  /\ exists result latest older first,
       withAppProps Sample.P Sample.W None = Ok result
       /\ getDateOrderedPaths Sample.P Sample.W "blog" = Ok (latest :: older)
       /\ Props.app (Props.props result) = Some {| blog := first |}
       /\ date first = date latest
       /\ sameButBody (page latest) (page first)
       /\ Page.body (page first) = None
       /\ Page.title (page first) = Some "Second"
       /\ Forall (newerOrEqual latest) older.
Proof.
  split.
  - assert (Hglob : globSync Sample.noBlog
                      (contentDir Sample.P +:+ "/" +:+ "blog" +:+ "/*.md") = [])
      by (vm_compute; reflexivity).
    split; [exact Hglob|].
    destruct (proj1 (withAppProps_blog Sample.P Sample.noBlog None) Hglob) as [Hthrow Hprops].
    split; [exact Hthrow | apply Hprops].
  - assert (Hcollection :
              mapM (loadDated Sample.P Sample.W)
                   (globSync Sample.W (contentDir Sample.P +:+ "/" +:+ "blog" +:+ "/*.md"))
              = Ok Sample.blogCollection) by (vm_compute; reflexivity).
    assert (Hdated : Forall dated Sample.blogCollection)
      by (repeat constructor; discriminate).
    destruct (withAppProps Sample.P Sample.W None) as [result|e] eqn:E.
    + destruct (proj2 (withAppProps_blog Sample.P Sample.W None) result E)
        as (_ & collection & latest & older & first & Hload & _ & Hpages & Happ & Hdate
            & Hsame & Hbody & _ & _ & Hrecent).
      rewrite Hcollection in Hload. injection Hload as <-.
      exists result, latest, older, first.
      split; [reflexivity|]. split; [exact Hpages|]. split; [exact Happ|].
      split; [exact Hdate|]. split; [exact Hsame|]. split; [exact Hbody|].
      split; [|exact (Hrecent Hdated)].
      vm_compute in E. injection E as <-. cbn in Happ. now injection Happ as <-.
    + vm_compute in E. discriminate.
Defined.

(** C9 and C10, the claims as stated, on a blog whose second page has no
    date: the comparisons with that page are [NaN], the pages come back
    in the order of the glob, the page of 2021 before the page of 2022,
    and [app.blog] is the page of 2021. *)
Lemma getDateOrderedPaths_undated :
  globSync Sample.undatedBlog (contentDir Sample.P +:+ "/" +:+ "blog" +:+ "/*.md")
  = ["/site/content/blog/a.md"; "/site/content/blog/b.md"; "/site/content/blog/c.md"]
  /\ exists first second third,
       getDateOrderedPaths Sample.P Sample.undatedBlog "blog" = Ok [first; second; third]
       /\ field "date" (Page.data (page first)) = Some "2021-01-01"
       /\ field "date" (Page.data (page second)) = None
       /\ field "date" (Page.data (page third)) = Some "2022-01-01"
       /\ date first = Some 1609459200000%Z
       /\ date second = None
       /\ date third = Some 1640995200000%Z
       /\ ~ newerOrEqual first third.
Proof.
  split; [vm_compute; reflexivity|].
  destruct (getDateOrderedPaths Sample.P Sample.undatedBlog "blog") as [pages|e] eqn:E;
    vm_compute in E; [|discriminate].
  injection E as <-. do 3 eexists.
  split; [reflexivity|]. repeat (split; [reflexivity|]).
  unfold newerOrEqual. cbn [date]. lia.
Qed.

Lemma withAppProps_undated_blog :
  exists result first third,
    withAppProps Sample.P Sample.undatedBlog None = Ok result
    /\ Props.app (Props.props result) = Some {| blog := first |}
    /\ loadDated Sample.P Sample.undatedBlog "/site/content/blog/c.md" = Ok third
    /\ In "/site/content/blog/c.md"
          (globSync Sample.undatedBlog (contentDir Sample.P +:+ "/" +:+ "blog" +:+ "/*.md"))
    /\ date first = Some 1609459200000%Z
    /\ date third = Some 1640995200000%Z
    /\ ~ newerOrEqual first third.
Proof.
  destruct (withAppProps Sample.P Sample.undatedBlog None) as [result|e] eqn:E;
    vm_compute in E; [|discriminate].
  injection E as <-.
  destruct (loadDated Sample.P Sample.undatedBlog "/site/content/blog/c.md")
    as [third|e] eqn:E3; vm_compute in E3; [|discriminate].
  injection E3 as <-.
  do 3 eexists.
  split; [reflexivity|]. split; [reflexivity|]. split; [reflexivity|].
  split; [vm_compute; auto|].
  split; [reflexivity|]. split; [reflexivity|].
  unfold newerOrEqual. cbn [date]. lia.
Qed.


(** * Further properties *)

(** ** Strings *)

Lemma substringFrom_app (a s : string) : substringFrom (String.length a) (a +:+ s) = s.
Proof. induction a as [|x a IH]; [now destruct s | exact IH]. Qed.

Lemma removeFirst_prefix (p s : string) : removeFirst p (p +:+ s) = s.
Proof.
  pose proof (startsWith_app p s) as H. pose proof (substringFrom_app p s) as Hs.
  destruct (p +:+ s); cbn [removeFirst]; now rewrite H.
Qed.

Lemma length_append (a b : string) :
  String.length (a +:+ b) = String.length a + String.length b.
Proof. induction a as [|x a IH]; cbn; [reflexivity | now rewrite IH]. Qed.

Lemma stripMdSuffix_app (x : string) : stripMdSuffix (x +:+ ".md") = x.
Proof.
  induction x as [|a x IH]; [reflexivity|].
  cbn [String.append stripMdSuffix].
  destruct (String.eqb (String a (x +:+ ".md")) ".md") eqn:E; [|now rewrite IH].
  apply String.eqb_eq in E. apply (f_equal String.length) in E.
  cbn [String.length] in E. rewrite length_append in E. cbn in E. lia.
Qed.

Lemma hd_split_join (c : ascii) (k : string) (rest : list string) :
  lacks c k = true ->
  hd "" (split c (join (String c EmptyString) (k :: rest))) = k.
Proof.
  intros Hk. unfold join. destruct rest as [|r rest]; cbn [String.concat].
  - now rewrite (split_lacks c k Hk).
  - set (tail := match rest with
                 | [] => r
                 | _ :: _ => r +:+ String c "" +:+ String.concat (String c "") rest
                 end).
    change (k +:+ String c "" +:+ tail) with (k +:+ String c tail).
    now rewrite split_app, (split_lacks c k Hk).
Qed.

(** ** The page loader, further *)

Section PageLoaderMore.

Variable P : Platform.
Variable W : World.

(** [loadPage] depends on its argument through the relative path only. *)
Lemma loadPage_relative (p q : string) :
  relativePathOf P p = relativePathOf P q -> loadPage P W p = loadPage P W q.
Proof. intros H. unfold loadPage. now rewrite H. Qed.

Lemma rootRelative_dot (s : string) :
  rootRelative P s = true ->
  startsWith s ("./" +:+ sepS P) = false /\ startsWith s "./" = false.
Proof.
  unfold rootRelative. intros H. repeat (apply andb_true_iff in H as [H ?]).
  match goal with Hd : negb (startsWith s "./") = true |- _ =>
    apply negb_true_iff in Hd end.
  split; [|assumption].
  destruct (startsWith s ("./" +:+ sepS P)) eqn:E; [|reflexivity].
  apply startsWith_app_l in E. congruence.
Qed.

(** X1. An absolute path that lies under [content] in the working directory
    loads the same page as the root-relative path behind that prefix. *)
Theorem loadPage_absolute (p r : string) :
  path_isAbsolute P p = true ->
  path_relative P (cwd P) p = "content" +:+ sepS P +:+ r ->
  rootRelative P r = true ->
  loadPage P W p = loadPage P W r.
Proof.
  intros Habs Hrel Hr. apply loadPage_relative.
  rewrite (relativePathOf_rootRelative P r Hr).
  destruct (rootRelative_dot r Hr) as [Hdot1 Hdot2].
  unfold relativePathOf. rewrite Habs, Hrel.
  rewrite <- (append_assoc "content" (sepS P) r), (startsWith_app ("content" +:+ sepS P) r).
  rewrite orb_true_r.
  change (substringFrom (String.length "content" + 1) (("content" +:+ sepS P) +:+ r)) with r.
  now rewrite Hdot1, Hdot2.
Qed.

(** X2. A leading [./] is ignored: [./s] loads the same page as the
    root-relative path [s]. *)
Theorem loadPage_dot_slash (s : string) :
  rootRelative P s = true ->
  path_isAbsolute P ("./" +:+ s) = false ->
  startsWith ("./" +:+ s) (normalizedContentDir P) = false ->
  startsWith ("./" +:+ s) (contentDir P) = false ->
  loadPage P W ("./" +:+ s) = loadPage P W s.
Proof.
  intros Hs Habs Hn Hc. apply loadPage_relative.
  rewrite (relativePathOf_rootRelative P s Hs).
  destruct (rootRelative_dot s Hs) as [Hdot1 Hdot2].
  unfold relativePathOf. rewrite Habs, Hn. cbn [negb]. cbv zeta. rewrite Hc.
  destruct (includes ("./" +:+ s) (normalizedContentDir P)
            || includes ("./" +:+ s) (contentDir P));
    (destruct (startsWith ("./" +:+ s) ("./" +:+ sepS P));
     [change (substringFrom 2 ("./" +:+ s)) with s; now rewrite Hdot2 | reflexivity]).
Qed.

(** X3. The [href] of a loaded page starts with ["/"], and neither its
    [href] nor its [mdPath] contains a backslash. *)
Theorem loadPage_forward_slashes (pathArgument : string) (page : Page.t) :
  loadPage P W pathArgument = Ok page ->
  startsWith (Page.href page) "/" = true
  /\ lacks backslash (Page.href page) = true
  /\ lacks backslash (Page.mdPath page) = true.
Proof.
  unfold loadPage. intros H.
  apply bind_Ok in H as ([mdPath contents] & _ & H).
  apply bind_Ok in H as ([data content] & _ & H).
  injection H as <-. cbn [Page.href Page.mdPath].
  split; [reflexivity|]. split; [|apply lacks_toForwardSlashes].
  change ("/" +:+ toForwardSlashes (relativePathOf P pathArgument))
    with (toForwardSlashes ("/" +:+ relativePathOf P pathArgument)).
  apply lacks_toForwardSlashes.
Qed.

(** X4. The [key] of a loaded page is what follows the last [path.sep] of
    the relative path: the last segment when the path is written with
    [path.sep], and the whole relative path when [path.sep] does not occur
    in it, as for a path written with ["/"] where the separator is the
    backslash. *)
Theorem loadPage_key_segment (pathArgument : string) (page : Page.t) :
  loadPage P W pathArgument = Ok page ->
  (lacks (sep P) (relativePathOf P pathArgument) = true ->
   Page.key page = relativePathOf P pathArgument)
  /\ (forall a k,
        relativePathOf P pathArgument = a +:+ sepS P +:+ k ->
        lacks (sep P) k = true ->
        Page.key page = k).
Proof.
  intros Hload. rewrite (loadPage_key P W pathArgument page Hload). split.
  - intros H. now rewrite (split_lacks _ _ H).
  - intros a k -> Hk. exact (last_split (sep P) a k Hk).
Qed.

(** The path that the callback of [getDateOrderedPaths] loads for a file
    of the content root. *)
Lemma loadDated_content (rel : string) :
  loadDated P W (contentDir P +:+ "/" +:+ rel +:+ ".md")
  = (page <- loadPage P W rel ;; Ok (withDate W page)).
Proof.
  unfold loadDated.
  rewrite <- (append_assoc (contentDir P) "/" (rel +:+ ".md")).
  now rewrite removeFirst_prefix, stripMdSuffix_app.
Qed.

(** X5. When the glob lists the files [contentDir/root/name.md] for some
    names, [getDateOrderedPaths root] is the sorted list of the pages
    [root/name] in the order of the names, and throws when one of these
    pages does not load. *)
Theorem getDateOrderedPaths_pages (root : string) (names : list string) :
  globSync W (contentDir P +:+ "/" +:+ root +:+ "/*.md")
  = map (fun name => contentDir P +:+ "/" +:+ (root +:+ "/" +:+ name) +:+ ".md") names ->
  getDateOrderedPaths P W root
  = (pages <- mapM (fun name => page <- loadPage P W (root +:+ "/" +:+ name) ;;
                                Ok (withDate W page)) names ;;
     Ok (sortByDate W pages)).
Proof.
  intros Hglob. unfold getDateOrderedPaths. rewrite Hglob.
  apply (f_equal (fun m => bind m (fun pages => Ok (sortByDate W pages)))).
  clear Hglob. induction names as [|name names IH]; [reflexivity|].
  cbn [map mapM]. now rewrite loadDated_content, IH.
Qed.

End PageLoaderMore.

(** ** The date-ordered collection, further *)



Lemma mapM_nil {A B : Type} (f : A -> result B) (l : list A) :
  mapM f l = Ok [] -> l = [].
Proof.
  intros H. apply mapM_Ok in H. now inversion H.
Qed.

Section CollectionMore.

Variable P : Platform.
Variable W : World.


(** X7. [getLastBlog] returns [undefined] exactly when the glob of the blog
    collection finds no file. *)
Theorem getLastBlog_undefined :
  getLastBlog P W = Ok None
  <-> globSync W (contentDir P +:+ "/" +:+ "blog" +:+ "/*.md") = [].
Proof.
  unfold getLastBlog, getDateOrderedPaths. split.
  - intros H.
    destruct (mapM (loadDated P W) _) as [collection|e] eqn:Hload; [|discriminate].
    cbn [bind] in H. injection H as H.
    destruct (sortByDate W collection) as [|x l] eqn:Hsort; [|discriminate].
    pose proof (sortByDate_perm W collection) as Hperm. rewrite Hsort in Hperm.
    apply Permutation_sym, Permutation_nil in Hperm. subst collection.
    now apply mapM_nil in Hload.
  - intros ->. reflexivity.
Qed.

(** X8. A page of the blog collection that does not load makes
    [getDateOrderedPaths "blog"], [withAppProps] and every call of
    [getProps] throw. *)
Theorem blog_page_failure (fullPath : string) (e : JsError) :
  In fullPath (globSync W (contentDir P +:+ "/" +:+ "blog" +:+ "/*.md")) ->
  loadDated P W fullPath = Throw e ->
  (exists e', getDateOrderedPaths P W "blog" = Throw e')
  /\ (forall props, exists e', withAppProps P W props = Throw e')
  /\ (forall menu slug, exists e', getProps P W menu slug = Throw e').
Proof.
  intros Hin Hfail.
  destruct (mapM_In_Throw (loadDated P W) _ fullPath e Hin Hfail) as [e' He'].
  assert (Hpages : getDateOrderedPaths P W "blog" = Throw e').
  { unfold getDateOrderedPaths. now rewrite He'. }
  assert (Happ : forall props, withAppProps P W props = Throw e').
  { intros props. unfold withAppProps, getLastBlog. now rewrite Hpages. }
  split; [eauto|]. split; [eauto|].
  intros menu slug. unfold getProps.
  destruct (loadPage P W _) as [pg|e0]; cbn [bind]; [|eauto].
  destruct (toHTML W _) as [body|e0]; cbn [bind]; [|eauto].
  destruct (member _ menu) as [node|]; cbn [bind]; [|eauto].
  destruct (node_nested node) as [[l|level]|]; cbn [bind]; [| |eauto].
  - destruct (normalize P W (arrayEntries l) _) as [nested|e0]; cbn [bind]; [|eauto].
    rewrite Happ. eauto.
  - destruct (normalize P W level _) as [nested|e0]; cbn [bind]; [|eauto].
    rewrite Happ. eauto.
Qed.

End CollectionMore.

(** ** The menu and the paths, further *)

Lemma forallb_pointwise {A : Type} (f g : A -> bool) (l : list A) :
  (forall x, f x = g x) -> forallb f l = forallb g l.
Proof.
  intros H. induction l as [|x l IH]; [reflexivity|]. cbn [forallb]. now rewrite H, IH.
Qed.

Lemma visited_entry_page (k t : jsval) (pg : MenuPage.t) (nested : option (list MenuEntry)) :
  hasData pg = true ->
  visited_entry (MkEntry k t (Some pg) nested)
  = pg :: match nested with Some menu => visited menu | None => [] end.
Proof.
  unfold hasData. cbn [visited_entry]. destruct (MenuPage.data pg); [|discriminate].
  now destruct nested.
Qed.

Section MenuPathsFacts.

Variable P : Platform.
Variable W : World.

Lemma loadMenuPage_href (path : string) (pg : MenuPage.t) :
  plainPath P path = true ->
  loadMenuPage P W path = Ok pg ->
  MenuPage.href pg = "/" +:+ path /\ hasData pg = true.
Proof.
  unfold plainPath. intros Hplain H. apply andb_true_iff in Hplain as [Hrel Hlacks].
  unfold loadMenuPage in H. apply bind_Ok in H as (page & Hpage & H). injection H as <-.
  split; [|reflexivity]. cbn [MenuPage.href].
  rewrite (loadPage_href P W path page Hpage), (relativePathOf_rootRelative P path Hrel).
  now rewrite (toForwardSlashes_lacks path Hlacks).
Qed.

Lemma children_hrefs (a : string) (children : list string) (submenu : list MenuEntry) :
  forallb (fun c => plainPath P (a +:+ "/" +:+ c)) children = true ->
  mapM (fun l2 => page <- loadMenuPage P W (a +:+ "/" +:+ l2) ;;
                  Ok (MkEntry None None (Some page) None)) children = Ok submenu ->
  map MenuPage.href (visited submenu)
  = map (fun c => "/" +:+ a +:+ "/" +:+ c) children.
Proof.
  revert submenu. induction children as [|c cs IH]; cbn [mapM forallb]; intros submenu Hplain H.
  - now injection H as <-.
  - apply andb_true_iff in Hplain as [Hc Hcs].
    apply bind_Ok in H as (e & He & H). apply bind_Ok in H as (rest & Hrest & H).
    injection H as <-. apply bind_Ok in He as (pg & Hpg & He). injection He as <-.
    destruct (loadMenuPage_href _ pg Hc Hpg) as [Hhref Hdata].
    unfold visited in *. cbn [flat_map]. rewrite (visited_entry_page _ _ pg None Hdata).
    cbn [app map]. now rewrite Hhref, (IH rest Hcs Hrest).
Qed.

Lemma normalize_entry_hrefs (root k : string) (v : Node) (e : MenuEntry) :
  menuPaths P root [(k, v)] = true ->
  ordinaryLists [(k, v)] = true ->
  normalize_entry P W root (k, v) = Ok e ->
  map MenuPage.href (visited_entry e) = collectPaths_entry k v ("/" +:+ root).
Proof.
  unfold menuPaths, ordinaryLists. cbn [forallb snd]. rewrite !andb_true_r.
  destruct v as [h t n]. cbn [node_href node_nested normalize_entry collectPaths_entry].
  destruct (truthy h).
  - destruct n; [discriminate|]. intros _ _ H. now injection H as <-.
  - intros Hplain Hord H. apply andb_true_iff in Hplain as [Hk Hn]. cbn [negb].
    destruct n as [[children|level]|].
    + apply bind_Ok in H as (submenu & Hsub & H). apply bind_Ok in H as (pg & Hpg & H).
      injection H as <-. destruct (loadMenuPage_href _ pg Hk Hpg) as [Hhref Hdata].
      rewrite (visited_entry_page _ _ pg (Some submenu) Hdata). cbn [map app].
      rewrite Hhref, append_assoc. f_equal.
      assert (Hsub' : mapM (fun l2 =>
                page <- loadMenuPage P W ((root +:+ "/" +:+ k) +:+ "/" +:+ l2) ;;
                Ok (MkEntry None None (Some page) None)) children = Ok submenu).
      { rewrite <- Hsub. apply mapM_ext. intros c. now rewrite append_assoc. }
      assert (Hn' : forallb (fun c => plainPath P ((root +:+ "/" +:+ k) +:+ "/" +:+ c))
                            children = true).
      { rewrite (forallb_pointwise _ (fun c => plainPath P (root +:+ "/" +:+ k +:+ "/" +:+ c)));
          [exact Hn | intros c; now rewrite append_assoc]. }
      rewrite (children_hrefs _ children submenu Hn' Hsub').
      clear - Hord. induction children as [|c cs IHc]; [reflexivity|].
      cbn [forallb] in Hord. apply andb_true_iff in Hord as [Hc Hcs].
      unfold ordinaryName in Hc. apply negb_true_iff in Hc.
      cbn [map flat_map app]. now rewrite Hc, (IHc Hcs).
    + discriminate.
    + apply bind_Ok in H as (pg & Hpg & H). injection H as <-.
      destruct (loadMenuPage_href _ pg Hk Hpg) as [Hhref Hdata].
      rewrite (visited_entry_page _ _ pg None Hdata). cbn [map app].
      now rewrite Hhref, append_assoc.
Qed.

(** X9. The menu and the static paths agree: for a level whose file-backed
    keys give plain paths under [root], whose external links have nothing
    nested and whose lists have no child named [__proto__], the [href]s of
    the pages that [normalize] loads, in the order of the traversal, are
    the paths that [collectPaths] emits for the level under ["/" + root]. *)
Theorem normalize_hrefs_collectPaths (level : Sitemap) (root : string) (out : list MenuEntry) :
  menuPaths P root level = true ->
  ordinaryLists level = true ->
  normalize P W level root = Ok out ->
  map MenuPage.href (visited out) = collectPaths level ("/" +:+ root).
Proof.
  unfold normalize. revert out.
  induction level as [|[k v] level IH]; cbn [mapM]; intros out Hplain Hord H.
  - now injection H as <-.
  - apply bind_Ok in H as (e & He & H). apply bind_Ok in H as (rest & Hrest & H).
    injection H as <-.
    unfold menuPaths in Hplain. cbn [forallb] in Hplain.
    apply andb_true_iff in Hplain as [Hkv Hlevel].
    unfold ordinaryLists in Hord. cbn [forallb] in Hord.
    apply andb_true_iff in Hord as [Hokv Holevel].
    unfold visited in *. cbn [flat_map collectPaths]. rewrite map_app.
    rewrite (IH rest Hlevel Holevel Hrest). f_equal.
    apply normalize_entry_hrefs; [| |exact He].
    + unfold menuPaths. cbn [forallb]. now rewrite Hkv.
    + unfold ordinaryLists. cbn [forallb]. now rewrite Hokv.
Qed.

End MenuPathsFacts.

(** X10. A level of external links needs no file: [normalize] returns the
    same entries in every world, one per key and in the order of the keys,
    and none of them is a page to visit. *)
Theorem normalize_external_links (P : Platform) (W : World) (level : Sitemap) (root : string) :
  forallb isExternal level = true ->
  exists out,
    (forall W', normalize P W' level root = Ok out)
    /\ map entryKey out = map (fun kv => Some (fst kv)) level
    /\ visited out = []
    /\ forall page, setPrevNext page out = page.
Proof.
  intros Hext.
  assert (H : exists out,
             (forall W', normalize P W' level root = Ok out)
             /\ map entryKey out = map (fun kv => Some (fst kv)) level
             /\ visited out = []).
  { induction level as [|[k v] level IH].
    - exists []. repeat split.
    - cbn [forallb] in Hext. apply andb_true_iff in Hext as [Hv Hlevel].
      destruct (IH Hlevel) as (out & Hout & Hkeys & Hvisited).
      unfold isExternal in Hv. cbn [snd] in Hv.
      eexists (_ :: out). split; [|split].
      + intros W'. unfold normalize in *. cbn [mapM normalize_entry].
        rewrite Hv, (Hout W'). reflexivity.
      + cbn [map]. now rewrite Hkeys.
      + unfold visited in *. cbn [flat_map]. now rewrite Hvisited. }
  destruct H as (out & Hout & Hkeys & Hvisited).
  exists out. repeat split; auto.
  intros page. rewrite setPrevNext_calls.
  pose proof (calls_visited out None None) as Hcalls. rewrite Hvisited in Hcalls.
  now destruct (calls out None None).
Qed.

Lemma startsWith_own (a p : string) : startsWith (a +:+ "/" +:+ p) (a +:+ "/") = true.
Proof. rewrite <- append_assoc. apply startsWith_app. Qed.

Lemma startsWith_under (pre k path : string) :
  startsWith path ((pre +:+ "/" +:+ k) +:+ "/") = true ->
  startsWith path (pre +:+ "/") = true.
Proof.
  intros H. apply startsWith_app_l with (b := k +:+ "/").
  rewrite append_assoc. rewrite append_assoc in H. exact H.
Qed.

(** X11. Every path that [collectPaths] emits starts with the prefix
    followed by ["/"]. *)
Theorem collectPaths_prefix (level : Sitemap) (prefix : string) :
  Forall (fun path => startsWith path (prefix +:+ "/") = true) (collectPaths level prefix).
Proof.
  assert (Hentry : forall v k prefix,
             Forall (fun path => startsWith path (prefix +:+ "/") = true)
                    (collectPaths_entry k v prefix)).
  { induction v as [h t|h t ps|h t sub IH] using Node_nested_ind; intros k pre;
      rewrite collectPaths_entry_eq; cbn [node_href node_nested]; apply Forall_app; split;
      try (destruct (negb (truthy h)); constructor; [apply startsWith_own | constructor]).
    - constructor.
    - induction ps as [|p ps IHps]; [constructor|].
      cbn [flat_map]. rewrite collectPaths_child.
      destruct (String.eqb p "__proto__"); [exact IHps|].
      constructor; [|exact IHps].
      apply (startsWith_under pre k), startsWith_own.
    - induction IH as [|[k' v'] sub Hv _ IHsub]; [constructor|].
      cbn [collectPaths]. apply Forall_app. split; [|exact IHsub].
      eapply Forall_impl; [|apply (Hv k' (pre +:+ "/" +:+ k))].
      intros path Hpath. now apply (startsWith_under pre k). }
  induction level as [|[k v] level IH]; [constructor|].
  cbn [collectPaths]. apply Forall_app. split; [apply Hentry | exact IH].
Qed.

Lemma nodes_entry_keys (v : Node) :
  forall above k n,
    In n (nodes_entry above k v) -> exists rest, fst n = above ++ k :: rest.
Proof.
  induction v as [h t|h t ps|h t sub IH] using Node_nested_ind; intros above k n;
    rewrite nodes_entry_eq; cbn [node_nested]; intros [<-|Hin];
    try (exists []; reflexivity).
  - contradiction.
  - apply in_map_iff in Hin as (p & <- & _). exists [p]. reflexivity.
  - induction IH as [|[k' v'] sub Hv _ IHsub]; [contradiction|].
    cbn [nodes] in Hin. apply in_app_or in Hin as [Hin|Hin]; [|now apply IHsub].
    destruct (Hv _ _ _ Hin) as [rest Hrest]. exists (k' :: rest).
    now rewrite Hrest, <- app_assoc.
Qed.

Lemma nodes_keys (menu : Sitemap) (n : list string * Node) :
  In n (nodes [] menu) -> exists k v rest, In (k, v) menu /\ fst n = k :: rest.
Proof.
  induction menu as [|[k v] menu IH]; [contradiction|].
  cbn [nodes]. intros Hin. apply in_app_or in Hin as [Hin|Hin].
  - destruct (nodes_entry_keys v [] k n Hin) as [rest Hrest].
    exists k, v, rest. split; [now left | exact Hrest].
  - destruct (IH Hin) as (k' & v' & rest & Hkv & Hrest).
    exists k', v', rest. split; [now right | exact Hrest].
Qed.

Lemma lookup_In (k : string) (v : Node) (menu : Sitemap) :
  In (k, v) menu -> exists node, lookup k menu = Some node.
Proof.
  induction menu as [|[k' v'] menu IH]; [contradiction|].
  cbn [lookup]. intros [H|H].
  - injection H as -> ->. rewrite String.eqb_refl. eauto.
  - destruct (String.eqb k' k); eauto.
Qed.

(** X12. No static path is empty; and when the top-level keys hold neither
    ["/"] nor [path.sep], every static path starts with a top-level key of
    the sitemap, which is the root that [getProps] reads back from the
    joined slug and finds in the sitemap. *)
Theorem getMenuPaths_slugs (P : Platform) (menu : Sitemap) (p : StaticPath) :
  In p (paths (getMenuPaths menu)) ->
  params_slug p <> []
  /\ (Forall (fun kv => lacks slash (fst kv) = true /\ lacks (sep P) (fst kv) = true) menu ->
      exists k node,
        hd_error (params_slug p) = Some k
        /\ hd "" (split (sep P) (join (sepS P) (params_slug p))) = k
        /\ lookup k menu = Some node).
Proof.
  unfold getMenuPaths. cbn [paths]. change "" with (slugOf []).
  intros Hin. apply in_map_iff in Hin as (path & <- & Hpath).
  apply collectPaths_sub, in_map_iff in Hpath as (n & <- & Hn). cbn [params_slug].
  apply filter_In in Hn as [Hn _].
  destruct (nodes_keys menu n Hn) as (k & v & rest & Hkv & Hkeys).
  rewrite Hkeys, split_slugOf. cbn [tl flat_map]. split.
  - pose proof (split_nonempty "/" k). now destruct (split "/" k).
  - intros Hplain. rewrite Forall_forall in Hplain.
    destruct (Hplain _ Hkv) as [Hslash Hsep]. cbn [fst] in *. unfold slash in Hslash.
    rewrite (split_lacks _ _ Hslash). cbn [app hd_error].
    destruct (lookup_In k v menu Hkv) as [node Hnode].
    exists k, node. split; [reflexivity|]. split; [|exact Hnode].
    now apply hd_split_join.
Qed.

(** ** The props, further *)

Section PropsFacts.

Variable P : Platform.
Variable W : World.

(** X13. [getProps] loads and renders the page before it reads the sitemap:
    when the page loads and renders, a slug whose first segment is neither
    a key of the sitemap nor a name that objects inherit gives the
    TypeError of reading [title] of [undefined]; a first segment that is
    no key of the sitemap and the name of a member of [Object.prototype],
    and a root entry without [nested], give the TypeError of
    [Object.keys(undefined)]; no props are returned. *)
Theorem getProps_root_errors (menu : Sitemap) (s : string) (page : Page.t) (html : string) :
  loadPage P W s = Ok page ->
  toHTML W (Page.body page) = Ok html ->
  (lookup (hd "" (split (sep P) s)) menu = None ->
   inherited (hd "" (split (sep P) s)) = false ->
   getProps P W menu (SlugString s)
   = Throw (TypeError "Cannot read properties of undefined (reading 'title')"))
  /\ (lookup (hd "" (split (sep P) s)) menu = None ->
      inherited (hd "" (split (sep P) s)) = true ->
      getProps P W menu (SlugString s) = Throw cannotConvert)
  /\ (forall node,
        lookup (hd "" (split (sep P) s)) menu = Some node ->
        node_nested node = None ->
        getProps P W menu (SlugString s) = Throw cannotConvert).
Proof.
  intros Hpage Hhtml. split; [|split].
  - intros Hroot Hown. unfold getProps, member. rewrite Hpage. cbn [bind].
    rewrite Hhtml. cbn [bind]. now rewrite Hroot, Hown.
  - intros Hroot Hinherited. unfold getProps, member. rewrite Hpage. cbn [bind].
    rewrite Hhtml. cbn [bind]. now rewrite Hroot, Hinherited.
  - intros node Hroot Hnested. unfold getProps, member. rewrite Hpage. cbn [bind].
    rewrite Hhtml. cbn [bind]. rewrite Hroot. cbn [bind]. now rewrite Hnested.
Qed.

End PropsFacts.

(** ** The prev/next linker, further *)

Lemma sameContent_refl (p : Page.t) : sameContent p p.
Proof. repeat split. Qed.

Lemma visit_content (page0 : Page.t) (p : MenuPage.t) (c : option MenuPage.t)
      (st : bool * Page.t) :
  sameContent page0 (snd st) -> sameContent page0 (snd (visit p c st)).
Proof.
  destruct st as [d pg]. unfold visit. cbn [snd]. intros H.
  destruct (String.eqb (MenuPage.href p) (Page.href pg)).
  - cbn [snd]. destruct c as [q|]; [destruct (truthy (MenuPage.title q))|]; exact H.
  - destruct d; exact H.
Qed.

Lemma fold_visit_content (page0 : Page.t) (l : list (MenuPage.t * option MenuPage.t))
      (st : bool * Page.t) :
  sameContent page0 (snd st) -> sameContent page0 (snd (fold_left visitCall l st)).
Proof.
  revert st. induction l as [|call l IH]; intros st H; [exact H|].
  cbn [fold_left]. apply IH. unfold visitCall. now apply visit_content.
Qed.

(** X14. [setPrevNext] changes nothing of a page but its [prev] and [next]. *)
Theorem setPrevNext_keeps_content (page : Page.t) (menu : list MenuEntry) :
  sameContent page (setPrevNext page menu).
Proof.
  rewrite setPrevNext_calls. apply fold_visit_content. apply sameContent_refl.
Qed.

(** The state of the callback of [setPrevNext] after the calls [l]: the
    flag is set only after a call that matches, and a [next] link that was
    set goes to the page of the call right after one that matches. *)
Lemma fold_visit_next (page0 : Page.t) (l : list (MenuPage.t * option MenuPage.t)) :
  let st := fold_left visitCall l (false, page0) in
  Page.href (snd st) = Page.href page0
  /\ (fst st = true ->
      exists l' t c, l = l' ++ [(t, c)] /\ MenuPage.href t = Page.href page0)
  /\ (Page.next (snd st) = Page.next page0
      \/ exists before t n after,
           map fst l = before ++ t :: n :: after
           /\ MenuPage.href t = Page.href page0
           /\ MenuPage.href n <> Page.href page0
           /\ Page.next (snd st) = Some (linkTo n)).
Proof.
  induction l as [|[p c] l IH] using rev_ind; cbv zeta.
  - cbn. split; [reflexivity|]. split; [discriminate | now left].
  - rewrite fold_left_app. cbn [fold_left]. cbv zeta in IH.
    destruct (fold_left visitCall l (false, page0)) as [d pg].
    cbn [fst snd] in IH. destruct IH as (Hhref & Hd & Hnext).
    unfold visitCall. cbn [fst snd]. unfold visit. rewrite Hhref.
    destruct (String.eqb (MenuPage.href p) (Page.href page0)) eqn:E.
    + apply String.eqb_eq in E. cbn [fst snd].
      assert (Hkeep : forall pg', pg' = match c with
                                        | Some q => if truthy (MenuPage.title q)
                                                    then set_prev pg (linkTo q) else pg
                                        | None => pg
                                        end ->
                                  Page.href pg' = Page.href pg /\ Page.next pg' = Page.next pg).
      { intros pg' ->. destruct c as [q|]; [destruct (truthy (MenuPage.title q))|]; auto. }
      destruct (Hkeep _ eq_refl) as [-> ->].
      split; [exact Hhref|]. split; [intros _; eauto|].
      destruct Hnext as [Hnext|(before & t & n & after & Hl & Ht & Hn & Hnext)]; [now left|].
      right. exists before, t, n, (after ++ [p]). rewrite map_app, Hl. cbn [map fst].
      rewrite <- app_assoc. cbn [app]. auto.
    + apply String.eqb_neq in E. destruct d; cbn [fst snd].
      * split; [exact Hhref|]. split; [discriminate|]. right.
        destruct (Hd eq_refl) as (l' & t & c' & -> & Ht).
        exists (map fst l'), t, p, []. rewrite !map_app. cbn [map fst].
        rewrite <- app_assoc. cbn [app]. auto.
      * split; [exact Hhref|]. split; [discriminate|].
        destruct Hnext as [Hnext|(before & t & n & after & Hl & Ht & Hn & Hnext)]; [now left|].
        right. exists before, t, n, (after ++ [p]). rewrite map_app, Hl. cbn [map fst].
        rewrite <- app_assoc. cbn [app]. auto.
Qed.

(** X15. Whatever the menu, the [next] link of the result is the one the
    page had, or a link to a page with another [href] that is visited
    right after a page with the [href] of the page. *)
Theorem setPrevNext_next_link (page : Page.t) (menu : list MenuEntry) :
  Page.next (setPrevNext page menu) = Page.next page
  \/ exists before t n after,
       visited menu = before ++ t :: n :: after
       /\ MenuPage.href t = Page.href page
       /\ MenuPage.href n <> Page.href page
       /\ Page.next (setPrevNext page menu) = Some (linkTo n).
Proof.
  rewrite setPrevNext_calls, <- (calls_visited menu None None).
  exact (proj2 (proj2 (fold_visit_next page (calls menu None None)))).
Qed.

Lemma fold_visit_prev (page0 : Page.t) (l : list (MenuPage.t * option MenuPage.t)) :
  let st := fold_left visitCall l (false, page0) in
  Page.href (snd st) = Page.href page0
  /\ (Page.prev (snd st) = Page.prev page0
      \/ exists before t q after,
           l = before ++ (t, Some q) :: after
           /\ MenuPage.href t = Page.href page0
           /\ truthy (MenuPage.title q) = true
           /\ Page.prev (snd st) = Some (linkTo q)).
Proof.
  induction l as [|[p c] l IH] using rev_ind; cbv zeta.
  - cbn. split; [reflexivity | now left].
  - rewrite fold_left_app. cbn [fold_left]. cbv zeta in IH.
    destruct (fold_left visitCall l (false, page0)) as [d pg].
    cbn [fst snd] in IH. destruct IH as (Hhref & Hprev).
    assert (Hlater : Page.prev pg = Page.prev page0
                     \/ exists before t q after,
                          l ++ [(p, c)] = before ++ (t, Some q) :: after
                          /\ MenuPage.href t = Page.href page0
                          /\ truthy (MenuPage.title q) = true
                          /\ Page.prev pg = Some (linkTo q)).
    { destruct Hprev as [Hprev|(before & t & q & after & -> & Ht & Hq & Hprev)]; [now left|].
      right. exists before, t, q, (after ++ [(p, c)]). rewrite <- app_assoc. auto. }
    unfold visitCall. cbn [fst snd]. unfold visit. rewrite Hhref.
    destruct (String.eqb (MenuPage.href p) (Page.href page0)) eqn:E.
    + apply String.eqb_eq in E. cbn [snd].
      destruct c as [q|]; [destruct (truthy (MenuPage.title q)) eqn:Hq|];
        (split; [exact Hhref|]); try exact Hlater.
      right. exists l, p, q, []. auto.
    + destruct d; cbn [snd]; (split; [exact Hhref | exact Hlater]).
Qed.

Lemma anchored_incl (A B : list MenuPage.t) (l : list (MenuPage.t * option MenuPage.t)) :
  incl A B -> anchored A l -> anchored B l.
Proof.
  revert A B. induction l as [|[p c] l IH]; intros A B Hincl; [auto|].
  cbn [anchored]. intros [Hc Hl]. split.
  - destruct c as [q|]; auto.
  - apply (IH (p :: A)); [|exact Hl]. now apply incl_cons; [left | apply incl_tl].
Qed.

Lemma anchored_app (A : list MenuPage.t) (l1 l2 : list (MenuPage.t * option MenuPage.t)) :
  anchored A (l1 ++ l2) <-> anchored A l1 /\ anchored (rev (map fst l1) ++ A) l2.
Proof.
  revert A. induction l1 as [|[p c] l1 IH]; intros A; cbn [app anchored map rev fst].
  - tauto.
  - rewrite (IH (p :: A)), <- app_assoc. cbn [app]. tauto.
Qed.

(** In a menu of the shape that [normalize] builds, the previous page
    handed to the callback is the incoming one or a page visited before. *)
Lemma calls_anchored (menu : list MenuEntry) :
  forallb shaped menu = true ->
  forall prev prevSection allowed,
    (forall q, prev = Some q -> In q allowed) ->
    anchored allowed (calls menu prev prevSection).
Proof.
  induction menu as [|k t p rest IH|k t p menu rest IHmenu IH] using menu_nested_ind;
    intros Hshaped prev ps allowed Hprev.
  - exact I.
  - cbn [forallb] in Hshaped. apply andb_true_iff in Hshaped as [_ Hrest].
    rewrite calls_cons, cursor_prev. unfold cursorAfter. cbn [entry_page app].
    destruct p as [p|]; [destruct (hasData p)|]; cbn [app anchored].
    + split; [destruct prev; auto|]. apply (IH Hrest). intros q H. injection H as <-. now left.
    + now apply IH.
    + now apply IH.
  - cbn [forallb shaped] in Hshaped. apply andb_true_iff in Hshaped as [He Hrest].
    apply andb_true_iff in He as [Hp Hmenu].
    rewrite calls_cons, cursor_prev. unfold cursorAfter. cbn [entry_page].
    destruct p as [p|]; [rewrite Hp|]; cbn [app anchored].
    + split; [destruct prev; auto|]. apply anchored_app. split.
      * apply (IHmenu Hmenu). intros q H. injection H as <-. now left.
      * apply (IH Hrest). intros q H. injection H as <-.
        apply in_or_app. right. now left.
    + apply anchored_app. split.
      * apply (IHmenu Hmenu). discriminate.
      * apply (IH Hrest). intros q H. apply in_or_app. right. now apply Hprev.
Qed.

(** X16. In a menu of the shape that [normalize] builds, the [prev] link
    of the result is the one the page had, or a link to a page with a
    title that is visited before a page with the [href] of the page: the
    link never leads forward nor to a page that is not visited. *)
Theorem setPrevNext_prev_link (page : Page.t) (menu : list MenuEntry) :
  forallb shaped menu = true ->
  Page.prev (setPrevNext page menu) = Page.prev page
  \/ exists front t back q,
       visited menu = front ++ t :: back
       /\ MenuPage.href t = Page.href page
       /\ In q front
       /\ truthy (MenuPage.title q) = true
       /\ Page.prev (setPrevNext page menu) = Some (linkTo q).
Proof.
  intros Hshaped. rewrite setPrevNext_calls.
  destruct (proj2 (fold_visit_prev page (calls menu None None)))
    as [Hprev|(before & t & q & after & Hcalls & Ht & Hq & Hprev)]; [now left|].
  right. exists (map fst before), t, (map fst after), q.
  split; [|split; [exact Ht|split; [|split; [exact Hq | exact Hprev]]]].
  - now rewrite <- (calls_visited menu None None), Hcalls, map_app.
  - pose proof (calls_anchored menu Hshaped None None [] ltac:(discriminate)) as Hanchored.
    rewrite Hcalls in Hanchored. apply anchored_app in Hanchored as [_ Hanchored].
    cbn [anchored] in Hanchored. destruct Hanchored as [Hin _].
    rewrite app_nil_r in Hin. now apply in_rev.
Qed.

(** X17. The traversal of two menus one after the other: the second menu
    starts from the cursor that the first one leaves, which is the page of
    its last top-level entry that carries data, whatever is nested in that
    entry. *)
Theorem eachPage_app {S : Type} (f : MenuPage.t -> option MenuPage.t -> S -> S)
        (m1 m2 : list MenuEntry) (prev prevSection : option MenuPage.t) (s : S) :
  eachPage f (m1 ++ m2) prev prevSection s
  = eachPage f m2 (cursorAfterAll m1 prev) prevSection (eachPage f m1 prev prevSection s)
  /\ forall k t p nested,
       hasData p = true ->
       cursorAfterAll (m1 ++ [MkEntry k t (Some p) nested]) prev = Some p.
Proof.
  split.
  - revert prev s. induction m1 as [|[k t page nested] m1 IH]; intros prev s; [reflexivity|].
    rewrite <- app_comm_cons, !eachPage_cons. cbv zeta. now rewrite IH.
  - intros k t p nested Hp. unfold cursorAfterAll. rewrite fold_left_app. cbn [fold_left].
    unfold cursorAfter at 1. cbn [entry_page]. now rewrite Hp.
Qed.

Section PropsReturned.

Variable P : Platform.
Variable W : World.

Lemma withAppProps_Ok (props r : Props.wrapped) :
  withAppProps P W (Some props) = Ok r ->
  exists latest,
    Props.page (Props.props r) = Props.page (Props.props props)
    /\ Props.menu (Props.props r) = Props.menu (Props.props props)
    /\ Props.app (Props.props r) = Some {| blog := deleteBody latest |}.
Proof.
  unfold withAppProps. destruct (getLastBlog P W) as [[latest|]|e]; cbn [bind]; try discriminate.
  intros H. injection H as <-. exists latest. repeat split.
Qed.

(** X18. When [getProps] returns, the page of the props is the page that
    [loadPage] gives for the joined slug with its body replaced by the
    rendered one, changed in [prev] and [next] only; the menu is the one
    root entry for the first segment of the slug, with the title of its
    sitemap node, and has the shape that the linker relies on; and
    [app.blog] is a page without body. *)
Theorem getProps_returns (menu : Sitemap) (slug : Slug) (r : Props.wrapped) :
  getProps P W menu slug = Ok r ->
  let s := match slug with
           | SlugArray segments => join (sepS P) segments
           | SlugString s => s
           end in
  let root := hd "" (split (sep P) s) in
  exists raw html node nested latest linked,
    loadPage P W s = Ok raw
    /\ toHTML W (Page.body raw) = Ok html
    /\ lookup root menu = Some node
    /\ Props.menu (Props.props r)
       = Some [MkEntry (Some root) (node_title node) None (Some nested)]
    /\ forallb shaped [MkEntry (Some root) (node_title node) None (Some nested)] = true
    /\ Props.page (Props.props r) = Some linked
    /\ sameContent (set_body raw (Some html)) linked
    /\ Props.app (Props.props r) = Some {| blog := deleteBody latest |}
    /\ Page.body (page (deleteBody latest)) = None.
Proof.
  cbv zeta. unfold getProps.
  set (s := match slug with
            | SlugArray segments => join (sepS P) segments
            | SlugString s => s
            end).
  intros H.
  apply bind_Ok in H as (raw & Hraw & H).
  apply bind_Ok in H as (html & Hhtml & H).
  apply bind_Ok in H as (node & Hnode & H).
  apply bind_Ok in H as (nested & Hnested & H).
  apply withAppProps_Ok in H as (latest & Hp & Hm & Ha).
  cbn [Props.props Props.page Props.menu] in *.
  assert (Hown : lookup (hd "" (split (sep P) s)) menu = Some node).
  { unfold member in Hnode. destruct (lookup _ menu); [now injection Hnode as ->|].
    destruct (inherited _); [|discriminate].
    injection Hnode as <-. discriminate. }
  exists raw, html, node, nested, latest.
  eexists. split; [exact Hraw|]. split; [exact Hhtml|].
  split; [exact Hown|].
  split; [exact Hm|]. split.
  - destruct (node_nested node) as [[l|level]|]; [| |discriminate].
    + exact (normalize_shaped P W _ _ _ _ Hnested).
    + exact (normalize_shaped P W _ _ _ _ Hnested).
  - split; [exact Hp|]. split; [|split; [exact Ha | reflexivity]].
    rewrite setPrevNext_calls. apply fold_visit_content, sameContent_refl.
Qed.

End PropsReturned.

(** ** Errors of the collaborators *)

Section ReadErrors.

Variable P : Platform.
Variable W : World.

(** X19. When [<path>.md] exists, an error of reading it or of parsing its
    front matter is the error of [loadPage], of [loadMenuPage] and of
    [getProps]: there is no fallback to [<path>/index.md], whether that
    file exists or not. *)
Theorem loadPage_no_fallback (pathArgument : string) (e : JsError) :
  existsSync W (fullPathMdFile P (relativePathOf P pathArgument)) = true ->
  (readFileSync W (fullPathMdFile P (relativePathOf P pathArgument)) = Throw e
   \/ exists contents,
       readFileSync W (fullPathMdFile P (relativePathOf P pathArgument)) = Ok contents
       /\ matter W contents = Throw e) ->
  loadPage P W pathArgument = Throw e
  /\ loadMenuPage P W pathArgument = Throw e
  /\ forall menu, getProps P W menu (SlugString pathArgument) = Throw e.
Proof.
  intros Hmd Herr.
  assert (Hload : loadPage P W pathArgument = Throw e).
  { unfold loadPage. rewrite Hmd.
    destruct Herr as [Hread|(contents & Hread & Hparse)]; rewrite Hread; cbn [bind];
      [reflexivity | now rewrite Hparse]. }
  split; [exact Hload|]. split.
  - unfold loadMenuPage. now rewrite Hload.
  - intros menu. unfold getProps. now rewrite Hload.
Qed.

(** X20. An external link with a list of children has routes but no menu
    pages: [collectPaths] emits one path per child of the list that is not
    named [__proto__], nothing for a child of that name and nothing for
    the link itself, while [normalize] makes the link an entry without
    nested entries and loads no page. *)
Theorem external_link_children (k h : string) (t : jsval) (children : list string)
        (root : string) :
  truthy (Some h) = true ->
  collectPaths [(k, MkNode (Some h) t (Some (NList children)))] ("/" +:+ root)
  = map (fun c => "/" +:+ root +:+ "/" +:+ k +:+ "/" +:+ c) (filter ordinaryName children)
  /\ exists stub,
      normalize P W [(k, MkNode (Some h) t (Some (NList children)))] root
      = Ok [MkEntry None None (Some stub) None]
      /\ MenuPage.key stub = k
      /\ MenuPage.href stub = h
      /\ visited [MkEntry None None (Some stub) None] = [].
Proof.
  intros Hh. split.
  - cbn [collectPaths collectPaths_entry]. rewrite Hh. cbn [negb app]. rewrite app_nil_r.
    induction children as [|c cs IH]; [reflexivity|].
    cbn [flat_map filter]. unfold ordinaryName at 1.
    destruct (String.eqb c "__proto__"); cbn [negb app map]; [exact IH|].
    rewrite IH. f_equal. now rewrite !append_assoc.
  - unfold normalize. cbn [mapM normalize_entry node_href]. rewrite Hh. cbn [bind].
    eexists. split; [reflexivity|]. repeat split.
Qed.

End ReadErrors.

(** ** The further properties on the sample site *)

Lemma loadPage_absolute_witness :
  path_isAbsolute Sample.P "/site/content/tokio/topics" = true
  /\ path_relative Sample.P (cwd Sample.P) "/site/content/tokio/topics"
     = "content" +:+ sepS Sample.P +:+ "tokio/topics"
  /\ rootRelative Sample.P "tokio/topics" = true
  /\ loadPage Sample.P Sample.W "/site/content/tokio/topics"
     = loadPage Sample.P Sample.W "tokio/topics".
Proof.
  assert (H1 : path_isAbsolute Sample.P "/site/content/tokio/topics" = true)
    by (vm_compute; reflexivity).
  assert (H2 : path_relative Sample.P (cwd Sample.P) "/site/content/tokio/topics"
               = "content" +:+ sepS Sample.P +:+ "tokio/topics") by (vm_compute; reflexivity).
  assert (H3 : rootRelative Sample.P "tokio/topics" = true) by (vm_compute; reflexivity).
  split; [exact H1|]. split; [exact H2|]. split; [exact H3|].
  exact (loadPage_absolute Sample.P Sample.W _ _ H1 H2 H3).
Defined.

Lemma loadPage_dot_slash_witness :
  rootRelative Sample.P "tokio/topics" = true
  /\ path_isAbsolute Sample.P ("./" +:+ "tokio/topics") = false
  /\ startsWith ("./" +:+ "tokio/topics") (normalizedContentDir Sample.P) = false
  /\ startsWith ("./" +:+ "tokio/topics") (contentDir Sample.P) = false
  /\ loadPage Sample.P Sample.W ("./" +:+ "tokio/topics")
     = loadPage Sample.P Sample.W "tokio/topics".
Proof.
  assert (H1 : rootRelative Sample.P "tokio/topics" = true) by (vm_compute; reflexivity).
  assert (H2 : path_isAbsolute Sample.P ("./" +:+ "tokio/topics") = false)
    by (vm_compute; reflexivity).
  assert (H3 : startsWith ("./" +:+ "tokio/topics") (normalizedContentDir Sample.P) = false)
    by (vm_compute; reflexivity).
  assert (H4 : startsWith ("./" +:+ "tokio/topics") (contentDir Sample.P) = false)
    by (vm_compute; reflexivity).
  split; [exact H1|]. split; [exact H2|]. split; [exact H3|]. split; [exact H4|].
  exact (loadPage_dot_slash Sample.P Sample.W _ H1 H2 H3 H4).
Defined.

Lemma loadPage_forward_slashes_witness :
  loadPage Sample.winP Sample.winW "tokio\tutorial\async" = Ok Sample.asyncPage
  /\ startsWith (Page.href Sample.asyncPage) "/" = true
  /\ lacks backslash (Page.href Sample.asyncPage) = true
  /\ lacks backslash (Page.mdPath Sample.asyncPage) = true.
Proof.
  assert (H : loadPage Sample.winP Sample.winW "tokio\tutorial\async" = Ok Sample.asyncPage)
    by (vm_compute; reflexivity).
  split; [exact H|].
  exact (loadPage_forward_slashes Sample.winP Sample.winW _ _ H).
Defined.

Lemma loadPage_key_segment_witness :
  (loadPage Sample.winP Sample.winW "tokio/tutorial/async" = Ok Sample.asyncPageWin
   /\ lacks (sep Sample.winP) (relativePathOf Sample.winP "tokio/tutorial/async") = true
   /\ Page.key Sample.asyncPageWin = "tokio/tutorial/async")
  /\ (loadPage Sample.P Sample.W "tokio/tutorial/async" = Ok Sample.asyncPage
      /\ relativePathOf Sample.P "tokio/tutorial/async"
         = "tokio/tutorial" +:+ sepS Sample.P +:+ "async"
      /\ lacks (sep Sample.P) "async" = true
      /\ Page.key Sample.asyncPage = "async").
Proof.
  split.
  - assert (H : loadPage Sample.winP Sample.winW "tokio/tutorial/async" = Ok Sample.asyncPageWin)
      by (vm_compute; reflexivity).
    assert (Hl : lacks (sep Sample.winP) (relativePathOf Sample.winP "tokio/tutorial/async") = true)
      by (vm_compute; reflexivity).
    split; [exact H|]. split; [exact Hl|].
    transitivity (relativePathOf Sample.winP "tokio/tutorial/async");
      [|vm_compute; reflexivity].
    exact (proj1 (loadPage_key_segment Sample.winP Sample.winW _ _ H) Hl).
  - assert (H : loadPage Sample.P Sample.W "tokio/tutorial/async" = Ok Sample.asyncPage)
      by (vm_compute; reflexivity).
    assert (Hr : relativePathOf Sample.P "tokio/tutorial/async"
                 = "tokio/tutorial" +:+ sepS Sample.P +:+ "async") by (vm_compute; reflexivity).
    assert (Hk : lacks (sep Sample.P) "async" = true) by (vm_compute; reflexivity).
    split; [exact H|]. split; [exact Hr|]. split; [exact Hk|].
    exact (proj2 (loadPage_key_segment Sample.P Sample.W _ _ H) _ _ Hr Hk).
Defined.

Lemma getDateOrderedPaths_pages_witness :
  globSync Sample.W (contentDir Sample.P +:+ "/" +:+ "blog" +:+ "/*.md")
  = map (fun name => contentDir Sample.P +:+ "/" +:+ ("blog" +:+ "/" +:+ name) +:+ ".md")
        ["first"; "second"; "third"]
  /\ getDateOrderedPaths Sample.P Sample.W "blog"
     = (pages <- mapM (fun name => page <- loadPage Sample.P Sample.W ("blog" +:+ "/" +:+ name) ;;
                                   Ok (withDate Sample.W page))
                      ["first"; "second"; "third"] ;;
        Ok (sortByDate Sample.W pages)).
Proof.
  assert (H : globSync Sample.W (contentDir Sample.P +:+ "/" +:+ "blog" +:+ "/*.md")
              = map (fun name => contentDir Sample.P +:+ "/" +:+ ("blog" +:+ "/" +:+ name) +:+ ".md")
                    ["first"; "second"; "third"]) by (vm_compute; reflexivity).
  split; [exact H|].
  exact (getDateOrderedPaths_pages Sample.P Sample.W "blog" _ H).
Defined.


Lemma getLastBlog_undefined_witness :
  globSync Sample.noBlog (contentDir Sample.P +:+ "/" +:+ "blog" +:+ "/*.md") = []
  /\ getLastBlog Sample.P Sample.noBlog = Ok None.
Proof.
  assert (H : globSync Sample.noBlog (contentDir Sample.P +:+ "/" +:+ "blog" +:+ "/*.md") = [])
    by (vm_compute; reflexivity).
  split; [exact H|].
  exact (proj2 (getLastBlog_undefined Sample.P Sample.noBlog) H).
Defined.

Lemma blog_page_failure_witness :
  In "/site/content/blog/first.md"
     (globSync Sample.unreadable (contentDir Sample.P +:+ "/" +:+ "blog" +:+ "/*.md"))
  /\ loadDated Sample.P Sample.unreadable "/site/content/blog/first.md"
     = Throw (Error "EACCES: permission denied, open '/site/content/blog/first.md'")
  /\ exists e,
       getProps Sample.P Sample.unreadable Sample.sitemap (SlugArray ["tokio"; "topics"])
       = Throw e.
Proof.
  assert (H1 : In "/site/content/blog/first.md"
                  (globSync Sample.unreadable
                     (contentDir Sample.P +:+ "/" +:+ "blog" +:+ "/*.md")))
    by (vm_compute; left; reflexivity).
  assert (H2 : loadDated Sample.P Sample.unreadable "/site/content/blog/first.md"
               = Throw (Error "EACCES: permission denied, open '/site/content/blog/first.md'"))
    by (vm_compute; reflexivity).
  split; [exact H1|]. split; [exact H2|].
  apply (proj2 (proj2 (blog_page_failure Sample.P Sample.unreadable _ _ H1 H2))).
Defined.

Lemma normalize_hrefs_collectPaths_witness :
  menuPaths Sample.P "tokio" Sample.tokioLevel = true
  /\ ordinaryLists Sample.tokioLevel = true
  /\ normalize Sample.P Sample.W Sample.tokioLevel "tokio" = Ok Sample.tokioMenu
  /\ map MenuPage.href (visited Sample.tokioMenu)
     = collectPaths Sample.tokioLevel ("/" +:+ "tokio").
Proof.
  assert (H1 : menuPaths Sample.P "tokio" Sample.tokioLevel = true) by (vm_compute; reflexivity).
  assert (H2 : normalize Sample.P Sample.W Sample.tokioLevel "tokio" = Ok Sample.tokioMenu)
    by (vm_compute; reflexivity).
  assert (H3 : ordinaryLists Sample.tokioLevel = true) by (vm_compute; reflexivity).
  split; [exact H1|]. split; [exact H3|]. split; [exact H2|].
  exact (normalize_hrefs_collectPaths Sample.P Sample.W _ _ _ H1 H3 H2).
Defined.

Lemma normalize_external_links_witness :
  forallb isExternal Sample.externalLevel = true
  /\ exists out,
       (forall W', normalize Sample.P W' Sample.externalLevel "tokio" = Ok out)
       /\ map entryKey out = [Some "api"; Some "chat"]
       /\ visited out = [].
Proof.
  assert (H : forallb isExternal Sample.externalLevel = true) by (vm_compute; reflexivity).
  split; [exact H|].
  destruct (normalize_external_links Sample.P Sample.W Sample.externalLevel "tokio" H)
    as (out & Hout & Hkeys & Hvisited & _).
  exists out. auto.
Defined.

Lemma getMenuPaths_slugs_witness :
  In {| params_slug := ["tokio"; "topics"] |} (paths (getMenuPaths Sample.sitemap))
  /\ Forall (fun kv => lacks slash (fst kv) = true /\ lacks (sep Sample.P) (fst kv) = true)
            Sample.sitemap
  /\ exists k node,
       hd_error ["tokio"; "topics"] = Some k
       /\ hd "" (split (sep Sample.P) (join (sepS Sample.P) ["tokio"; "topics"])) = k
       /\ lookup k Sample.sitemap = Some node.
Proof.
  assert (H1 : In {| params_slug := ["tokio"; "topics"] |} (paths (getMenuPaths Sample.sitemap)))
    by (vm_compute; tauto).
  assert (H2 : Forall (fun kv => lacks slash (fst kv) = true
                                 /\ lacks (sep Sample.P) (fst kv) = true) Sample.sitemap)
    by (repeat constructor).
  split; [exact H1|]. split; [exact H2|].
  exact (proj2 (getMenuPaths_slugs Sample.P Sample.sitemap _ H1) H2).
Defined.

Lemma getProps_root_errors_witness :
  loadPage Sample.P Sample.W "tokio/topics" = Ok Sample.topicsPage
  /\ toHTML Sample.W (Page.body Sample.topicsPage) = Ok "<p>Guides.</p>"
  /\ lookup (hd "" (split (sep Sample.P) "tokio/topics")) Sample.tokioLevel = None
  /\ inherited (hd "" (split (sep Sample.P) "tokio/topics")) = false
  /\ getProps Sample.P Sample.W Sample.tokioLevel (SlugString "tokio/topics")
     = Throw (TypeError "Cannot read properties of undefined (reading 'title')")
  /\ loadPage Sample.P Sample.inheritedSite "constructor/about" = Ok Sample.aboutPage
  /\ toHTML Sample.inheritedSite (Page.body Sample.aboutPage) = Ok "<p>Made.</p>"
  /\ lookup (hd "" (split (sep Sample.P) "constructor/about")) Sample.sitemap = None
  /\ inherited (hd "" (split (sep Sample.P) "constructor/about")) = true
  /\ getProps Sample.P Sample.inheritedSite Sample.sitemap (SlugString "constructor/about")
     = Throw cannotConvert.
Proof.
  assert (H1 : loadPage Sample.P Sample.W "tokio/topics" = Ok Sample.topicsPage)
    by (vm_compute; reflexivity).
  assert (H2 : toHTML Sample.W (Page.body Sample.topicsPage) = Ok "<p>Guides.</p>")
    by (vm_compute; reflexivity).
  assert (H3 : lookup (hd "" (split (sep Sample.P) "tokio/topics")) Sample.tokioLevel = None)
    by (vm_compute; reflexivity).
  assert (H4 : inherited (hd "" (split (sep Sample.P) "tokio/topics")) = false)
    by (vm_compute; reflexivity).
  assert (H5 : loadPage Sample.P Sample.inheritedSite "constructor/about" = Ok Sample.aboutPage)
    by (vm_compute; reflexivity).
  assert (H6 : toHTML Sample.inheritedSite (Page.body Sample.aboutPage) = Ok "<p>Made.</p>")
    by (vm_compute; reflexivity).
  assert (H7 : lookup (hd "" (split (sep Sample.P) "constructor/about")) Sample.sitemap = None)
    by (vm_compute; reflexivity).
  assert (H8 : inherited (hd "" (split (sep Sample.P) "constructor/about")) = true)
    by (vm_compute; reflexivity).
  split; [exact H1|]. split; [exact H2|]. split; [exact H3|]. split; [exact H4|].
  split; [exact (proj1 (getProps_root_errors Sample.P Sample.W Sample.tokioLevel
                          _ _ _ H1 H2) H3 H4)|].
  split; [exact H5|]. split; [exact H6|]. split; [exact H7|]. split; [exact H8|].
  exact (proj1 (proj2 (getProps_root_errors Sample.P Sample.inheritedSite Sample.sitemap
                         _ _ _ H5 H6)) H7 H8).
Defined.

Lemma setPrevNext_prev_link_witness :
  forallb shaped Sample.mixedMenu = true
  /\ (Page.prev (setPrevNext (Sample.target "c" "/guide/c") Sample.mixedMenu) = None
      \/ exists front t back q,
           visited Sample.mixedMenu = front ++ t :: back
           /\ MenuPage.href t = "/guide/c"
           /\ In q front
           /\ truthy (MenuPage.title q) = true
           /\ Page.prev (setPrevNext (Sample.target "c" "/guide/c") Sample.mixedMenu)
              = Some (linkTo q)).
Proof.
  assert (H : forallb shaped Sample.mixedMenu = true) by (vm_compute; reflexivity).
  split; [exact H|].
  exact (setPrevNext_prev_link (Sample.target "c" "/guide/c") Sample.mixedMenu H).
Defined.

Lemma eachPage_app_witness :
  hasData Sample.pageA = true
  /\ cursorAfterAll ([leaf Sample.pageC] ++ [MkEntry None None (Some Sample.pageA)
                                              (Some [leaf Sample.pageA1])]) None
     = Some Sample.pageA.
Proof.
  assert (H : hasData Sample.pageA = true) by reflexivity.
  split; [exact H|].
  exact (proj2 (eachPage_app record [leaf Sample.pageC] [] None None [])
               None None Sample.pageA (Some [leaf Sample.pageA1]) H).
Defined.

Lemma getProps_returns_witness :
  getProps Sample.P Sample.W Sample.sitemap (SlugArray ["tokio"; "topics"])
  = Ok Sample.topicsProps
  /\ exists raw html linked latest,
       loadPage Sample.P Sample.W (join (sepS Sample.P) ["tokio"; "topics"]) = Ok raw
       /\ toHTML Sample.W (Page.body raw) = Ok html
       /\ Props.page (Props.props Sample.topicsProps) = Some linked
       /\ sameContent (set_body raw (Some html)) linked
       /\ Props.app (Props.props Sample.topicsProps) = Some {| blog := deleteBody latest |}.
Proof.
  assert (H : getProps Sample.P Sample.W Sample.sitemap (SlugArray ["tokio"; "topics"])
              = Ok Sample.topicsProps) by (vm_compute; reflexivity).
  split; [exact H|].
  destruct (getProps_returns Sample.P Sample.W _ _ _ H)
    as (raw & html & node & nested & latest & linked & H1 & H2 & _ & _ & _ & H6 & H7 & H8 & _).
  exists raw, html, linked, latest. auto.
Defined.

Lemma loadPage_no_fallback_witness :
  existsSync Sample.unreadable
    (fullPathMdFile Sample.P (relativePathOf Sample.P "tokio/topics")) = true
  /\ existsSync Sample.unreadable
       (fullPathIndexMdFile Sample.P (relativePathOf Sample.P "tokio/topics")) = true
  /\ readFileSync Sample.unreadable
       (fullPathMdFile Sample.P (relativePathOf Sample.P "tokio/topics"))
     = Throw (Error "EACCES: permission denied, open '/site/content/tokio/topics.md'")
  /\ loadPage Sample.P Sample.unreadable "tokio/topics"
     = Throw (Error "EACCES: permission denied, open '/site/content/tokio/topics.md'").
Proof.
  assert (H1 : existsSync Sample.unreadable
                 (fullPathMdFile Sample.P (relativePathOf Sample.P "tokio/topics")) = true)
    by (vm_compute; reflexivity).
  assert (H2 : readFileSync Sample.unreadable
                 (fullPathMdFile Sample.P (relativePathOf Sample.P "tokio/topics"))
               = Throw (Error "EACCES: permission denied, open '/site/content/tokio/topics.md'"))
    by (vm_compute; reflexivity).
  split; [exact H1|]. split; [vm_compute; reflexivity|]. split; [exact H2|].
  exact (proj1 (loadPage_no_fallback Sample.P Sample.unreadable _ _ H1 (or_introl H2))).
Defined.

Lemma external_link_children_witness :
  truthy (Some "https://docs.rs/tokio") = true
  /\ collectPaths [("api", MkNode (Some "https://docs.rs/tokio") (Some "API")
                             (Some (NList ["tokio"; "__proto__"; "bytes"])))]
                  ("/" +:+ "tokio")
     = ["/tokio/api/tokio"; "/tokio/api/bytes"].
Proof.
  assert (H : truthy (Some "https://docs.rs/tokio") = true) by reflexivity.
  split; [exact H|].
  exact (proj1 (external_link_children Sample.P Sample.W "api" "https://docs.rs/tokio"
                  (Some "API") ["tokio"; "__proto__"; "bytes"] "tokio" H)).
Defined.
